(** * pypette: the experiment conductor, technique composition, guest
    console and volume manager, embedded from the Python sources.

    Part I holds the embedding (one module per source module), Part II the
    facts proved about it. *)

From Stdlib Require Import ZArith Lia Bool Ascii.
From stdpp Require Import gmap strings list pretty.

Set Warnings "-register-all".

Open Scope Z_scope.
Open Scope nat_scope.

(* ===================================================================== *)
(** * Part I: the embedding *)
(* ===================================================================== *)

(** ** Python-level notions shared by every module *)

Module Py.

(** The exceptions the sources raise or let through.  [RuntimeError] and
    [AttributeError] carry the message they are raised with. *)
Inductive exn : Type :=
| RuntimeError (msg : string)
| AttributeError (msg : string)
| KeyError
| TypeError
| ValueError
| IndexError
| NotImplementedError
| CalledProcessError (returncode : Z) (cmd : list string)
| SocketTimeout
| SocketError
| OtherError (tag : string).

(** Values as YAML and JSON documents deliver them. *)
Inductive pyvalue : Type :=
| PNone
| PBool (b : bool)
| PInt (z : Z)
| PFloat (repr : string)
| PStr (s : string)
| PList (items : list pyvalue)
| PDict (items : gmap string pyvalue).

(** What a call does: return a value, raise, or not return at all (an
    unbounded wait, or a loop that was given too little fuel). *)
Inductive outcome (A : Type) : Type :=
| Ok (a : A)
| Raise (e : exn)
| NoReturn.
Arguments Ok {A} a.
Arguments Raise {A} e.
Arguments NoReturn {A}.

(** Statements thread a state of type [S]. *)
Definition M (S A : Type) : Type := S -> outcome A * S.

Definition ret {S A} (a : A) : M S A := fun st => (Ok a, st).

Definition raise {S A} (e : exn) : M S A := fun st => (Raise e, st).

Definition no_return {S A} : M S A := fun st => (NoReturn, st).

Definition bind {S A B} (c : M S A) (k : A -> M S B) : M S B :=
  fun st =>
    match c st with
    | (Ok a, st') => k a st'
    | (Raise e, st') => (Raise e, st')
    | (NoReturn, st') => (NoReturn, st')
    end.

(** [try: c  except: h] with a bare [except:], which catches everything. *)
Definition try_except {S A} (c : M S A) (h : exn -> M S A) : M S A :=
  fun st =>
    match c st with
    | (Raise e, st') => h e st'
    | r => r
    end.

(** [try: c  finally: f]: [f] runs whether [c] returned or raised; what [f]
    raises replaces the outcome of [c]. *)
Definition try_finally {S A} (c : M S A) (f : M S unit) : M S A :=
  fun st =>
    match c st with
    | (NoReturn, st') => (NoReturn, st')
    | (r, st') =>
        match f st' with
        | (Ok _, st'') => (r, st'')
        | (Raise e, st'') => (Raise e, st'')
        | (NoReturn, st'') => (NoReturn, st'')
        end
    end.

(** [try: c  except (E1, E2, ...): h]: only the exceptions that [handles]
    accepts are caught. *)
Definition try_catch {S A} (c : M S A) (handles : exn -> bool)
    (h : exn -> M S A) : M S A :=
  fun st =>
    match c st with
    | (Raise e, st') => if handles e then h e st' else (Raise e, st')
    | r => r
    end.

(** An expression evaluated as a statement. *)
Definition lift {S A} (o : outcome A) : M S A := fun st => (o, st).

(** [for x in l: body x] over a list that the body does not change. *)
Fixpoint for_each {S X} (l : list X) (body : X -> M S unit) : M S unit :=
  match l with
  | [] => ret tt
  | x :: l' => bind (body x) (fun _ => for_each l' body)
  end.

(** Lists and dicts cannot be hashed, so they cannot be keys. *)
Definition hashable (v : pyvalue) : bool :=
  match v with
  | PList _ | PDict _ => false
  | _ => true
  end.

(** [str(v)], as [format] uses it: text as it is, integers in decimal;
    [repr] says how the interpreter prints the other values. *)
Definition str_ (repr : pyvalue -> string) (v : pyvalue) : string :=
  match v with
  | PStr s => s
  | PInt z => pretty z
  | _ => repr v
  end.

(** A value used where a path or a name is wanted has to be text. *)
Definition as_text (v : pyvalue) : outcome string :=
  match v with
  | PStr s => Ok s
  | _ => Raise TypeError
  end.

(** The same for expressions, which have no state to thread. *)
Definition and_then {A B} (o : outcome A) (k : A -> outcome B) : outcome B :=
  match o with
  | Ok a => k a
  | Raise e => Raise e
  | NoReturn => NoReturn
  end.

(** [container[key]] for a string [key]: only a dict can be subscripted by
    a string; lists and strings want integers, the rest nothing at all. *)
Definition getitem (container : pyvalue) (key : string) : outcome pyvalue :=
  match container with
  | PDict items =>
      match items !! key with
      | Some v => Ok v
      | None => Raise KeyError
      end
  | _ => Raise TypeError
  end.

(** [key in container] for a string [key]: a key of a dict, an element of a
    list, a substring of a string; the rest is not iterable. *)
Definition contains (key : string) (container : pyvalue) : outcome bool :=
  match container with
  | PDict items => Ok (bool_decide (is_Some (items !! key)))
  | PList items =>
      Ok (existsb (fun v => match v with
                            | PStr s => String.eqb s key
                            | _ => false
                            end) items)
  | PStr s => Ok (bool_decide (is_Some (String.index 0 key s)))
  | _ => Raise TypeError
  end.

End Py.

Import Py.

Declare Scope py_scope.
Delimit Scope py_scope with py.
Notation "x <- c ;; k" := (bind c (fun x => k))
  (at level 100, c at next level, right associativity) : py_scope.
Notation "c ;;; k" := (bind c (fun _ => k))
  (at level 100, right associativity) : py_scope.
Open Scope py_scope.

(** ** pypette/interface.py *)

Module Interface.

(** The body of a method, as far as dispatch is concerned: it does
    something, it is [pass], or it is [raise NotImplementedError()]. *)
Inductive body : Type :=
| Implemented
| Pass
| Unimplemented.

(** What a class body binds a name to: a method, a [Parameter(name)]
    descriptor or a [Slot(name)] descriptor. *)
Inductive member : Type :=
| Method (b : body)
| ParameterDescriptor (name : string)
| SlotDescriptor (name : string).

(** A class body: the name of the class and the names it defines itself.
    Classes are told apart by name. *)
Record namespace : Type := {
  cname : string;
  cdict : gmap string member
}.

(** A class: its own body and the rest of its method resolution order. *)
Record pyclass : Type := {
  body_of : namespace;
  ancestors : list namespace
}.

(** [cls.__mro__] *)
Definition mro (c : pyclass) : list namespace := body_of c :: ancestors c.

Definition same (c d : namespace) : bool := String.eqb (cname c) (cname d).

(** The C3 merge that computes the resolution order of a new class from
    the orders of its bases followed by the list of the bases: take the
    first head that is in the tail of no list, remove it everywhere, repeat;
    no such head means the bases cannot be ordered. *)
Definition in_tail (c : namespace) (l : list namespace) : bool :=
  match l with
  | [] => false
  | _ :: t => existsb (same c) t
  end.

Definition good_head (c : namespace) (ls : list (list namespace)) : bool :=
  forallb (fun l => negb (in_tail c l)) ls.

Fixpoint find_head (candidates ls : list (list namespace)) : option namespace :=
  match candidates with
  | [] => None
  | [] :: rest => find_head rest ls
  | (c :: _) :: rest => if good_head c ls then Some c else find_head rest ls
  end.

Definition remove_head (c : namespace) (ls : list (list namespace))
  : list (list namespace) :=
  map (fun l => match l with
                | h :: t => if same c h then t else l
                | [] => []
                end) ls.

Fixpoint merge (fuel : nat) (ls : list (list namespace))
  : option (list namespace) :=
  if forallb (fun l => match l with [] => true | _ => false end) ls
  then Some []
  else
    match fuel with
    | O => None
    | S fuel' =>
        match find_head ls ls with
        | None => None
        | Some c =>
            match merge fuel' (remove_head c ls) with
            | Some m => Some (c :: m)
            | None => None
            end
        end
    end.

(** [type(name, bases, dict)], and the [class name(bases):] statement:
    [TypeError] when the bases have no consistent resolution order. *)
Definition type_ (name : string) (bases : list pyclass)
    (dict : gmap string member) : outcome pyclass :=
  let ls := map mro bases ++ [map body_of bases] in
  match merge (S (length (concat ls))) ls with
  | Some m => Ok {| body_of := {| cname := name; cdict := dict |};
                    ancestors := m |}
  | None => Raise TypeError
  end.

Definition object_ : pyclass :=
  {| body_of := {| cname := "object"; cdict := ∅ |}; ancestors := [] |}.

(** A class statement of the sources; their bases always have an order. *)
Definition class_ (name : string) (bases : list pyclass)
    (dict : list (string * member)) : pyclass :=
  match type_ name bases (list_to_map dict) with
  | Ok c => c
  | _ => object_
  end.

(** Looking a name up on a class: the first class of the resolution order
    that defines it, and what it defines it as. *)
Fixpoint find_in (l : list namespace) (attr : string)
  : option (namespace * member) :=
  match l with
  | [] => None
  | n :: l' =>
      match cdict n !! attr with
      | Some m => Some (n, m)
      | None => find_in l' attr
      end
  end.

Definition type_lookup (c : pyclass) (attr : string)
  : option (namespace * member) :=
  find_in (mro c) attr.

Definition Analyst : pyclass :=
  class_ "Analyst" [object_]
    [("__init__", Method Implemented); ("analyse", Method Unimplemented);
     ("collate", Method Pass); ("discard", Method Pass)].

Definition Technique : pyclass :=
  class_ "Technique" [object_]
    [("__init__", Method Implemented); ("allocate", Method Pass);
     ("sample", Method Unimplemented); ("release", Method Pass)].

Definition Behaviour : pyclass :=
  class_ "Behaviour" [object_]
    [("allocate_behaviour", Method Pass); ("release_behaviour", Method Pass)].

(** An object: its class and its own attributes. *)
Record instance : Type := {
  klass : pyclass;
  dict : gmap string pyvalue
}.

(** [klass(parameters)]: the [__init__] the class resolves to is the one of
    [Technique] ([self.parameters = parameters; self.output = {}]) or the
    one of [Analyst] ([self.parameters = parameters]); [object.__init__]
    takes no argument. *)
Definition new (k : pyclass) (parameters : pyvalue) : outcome instance :=
  match type_lookup k "__init__" with
  | Some (owner, Method _) =>
      if String.eqb (cname owner) "Technique" then
        Ok {| klass := k;
              dict := <["output" := PDict ∅]> (<["parameters" := parameters]> ∅) |}
      else if String.eqb (cname owner) "Analyst" then
        Ok {| klass := k; dict := <["parameters" := parameters]> ∅ |}
      else Raise TypeError
  | _ => Raise TypeError
  end.

(** [Parameter.__get__]: [instance.parameters[self.name]] *)
Definition Parameter_get (name : string) : M instance pyvalue :=
  fun obj =>
    match dict obj !! "parameters" with
    | Some p => (getitem p name, obj)
    | None => (Raise (AttributeError "parameters"), obj)
    end.

(** [Parameter.__set__] *)
Definition Parameter_set (name : string) (value : pyvalue) : M instance unit :=
  raise (AttributeError "Parameter dictionary is read-only").

(** [Slot.__get__]: [instance.output[self.name]] *)
Definition Slot_get (name : string) : M instance pyvalue :=
  fun obj =>
    match dict obj !! "output" with
    | Some o => (getitem o name, obj)
    | None => (Raise (AttributeError "output"), obj)
    end.

(** [Slot.__set__]: [instance.output[self.name] = value] *)
Definition Slot_set (name : string) (value : pyvalue) : M instance unit :=
  fun obj =>
    match dict obj !! "output" with
    | Some (PDict o) =>
        (Ok tt, {| klass := klass obj;
                   dict := <["output" := PDict (<[name := value]> o)]> (dict obj) |})
    | Some _ => (Raise TypeError, obj)
    | None => (Raise (AttributeError "output"), obj)
    end.

(** [obj.attr = value]: a descriptor with [__set__] found on the class takes
    the assignment; otherwise the value goes into the object's own
    attributes. *)
Definition setattr (attr : string) (value : pyvalue) : M instance unit :=
  fun obj =>
    match type_lookup (klass obj) attr with
    | Some (_, ParameterDescriptor name) => Parameter_set name value obj
    | Some (_, SlotDescriptor name) => Slot_set name value obj
    | _ => (Ok tt, {| klass := klass obj; dict := <[attr := value]> (dict obj) |})
    end.

(** [obj.attr] *)
Definition getattr (attr : string) : M instance pyvalue :=
  fun obj =>
    match type_lookup (klass obj) attr with
    | Some (_, ParameterDescriptor name) => Parameter_get name obj
    | Some (_, SlotDescriptor name) => Slot_get name obj
    | _ =>
        match dict obj !! attr with
        | Some v => (Ok v, obj)
        | None => (Raise (AttributeError attr), obj)
        end
    end.

(** A run of assignments [obj.attr = value], each one guarded so that the
    next is attempted whatever the one before did; returns what each did. *)
Fixpoint assign_all (l : list (string * pyvalue))
  : M instance (list (outcome unit)) :=
  match l with
  | [] => ret []
  | (attr, value) :: l' =>
      fun obj =>
        let '(o, obj') := setattr attr value obj in
        let '(os, obj'') := assign_all l' obj' in
        (and_then os (fun os' => Ok (o :: os')), obj'')
  end.

(** [attr] is declared with [Parameter(...)] on the class of [obj]. *)
Definition is_parameter (obj : instance) (attr : string) : Prop :=
  match type_lookup (klass obj) attr with
  | Some (_, ParameterDescriptor _) => True
  | _ => False
  end.

End Interface.

(** ** pypette/technique: acquisition.py, control.py and behaviour/ *)

Module Technique.
Import Interface.

Definition TOOLKIT_BEHAVIOUR_KEY : string := "technique.behaviour.toolkit".
Definition VECTOR_BEHAVIOUR_KEY : string := "technique.behaviour.vector".
Definition INTERVENTION_BEHAVIOUR_KEY : string := "technique.behaviour.intervention".
Definition DELAY_BEHAVIOUR_KEY : string := "technique.behaviour.delay".

(** behaviour/toolkit.py *)
Definition OpticalAcquisitionToolkit : pyclass :=
  class_ "OpticalAcquisitionToolkit" [Behaviour]
    [("toolkit_image", ParameterDescriptor "technique.toolkit.image");
     ("toolkit_device", ParameterDescriptor "technique.toolkit.device");
     ("toolkit_tag", ParameterDescriptor "technique.toolkit.tag");
     ("attach_toolkit", Method Implemented);
     ("detach_toolkit", Method Implemented)].

(** behaviour/vector.py *)
Definition FixedDriveAcquisitionVector : pyclass :=
  class_ "FixedDriveAcquisitionVector" [Behaviour]
    [("vector_filename", ParameterDescriptor "technique.vector.filename");
     ("vector_partition", ParameterDescriptor "technique.vector.partition");
     ("vector_tag", ParameterDescriptor "technique.vector.tag");
     ("vector_image", ParameterDescriptor "technique.vector.image");
     ("image_acquired", SlotDescriptor "memory.acquired");
     ("allocate_behaviour", Method Implemented);
     ("attach_vector", Method Implemented);
     ("detach_vector", Method Implemented);
     ("transfer_acquired_image", Method Implemented);
     ("release_behaviour", Method Implemented)].

(** behaviour/intervention.py *)
Definition ExecuteInterventionBehaviour : pyclass :=
  class_ "ExecuteInterventionBehaviour" [Behaviour]
    [("invocation_command", ParameterDescriptor "technique.invocation.command");
     ("invocation_shell", ParameterDescriptor "technique.invocation.shell");
     ("invocation_cwd", ParameterDescriptor "technique.invocation.cwd");
     ("standard_output", SlotDescriptor "acquisition.standard-output");
     ("standard_error", SlotDescriptor "acquisition.standard-error");
     ("return_code", SlotDescriptor "acquisition.return-code");
     ("acquire", Method Implemented)].

Definition MonitorInterventionBehaviour : pyclass :=
  class_ "MonitorInterventionBehaviour" [Behaviour]
    [("invocation_command", ParameterDescriptor "technique.invocation.command");
     ("invocation_interval", ParameterDescriptor "technique.invocation.interval");
     ("invocation_cwd", ParameterDescriptor "technique.invocation.cwd");
     ("samples", SlotDescriptor "acquisition.samples");
     ("standard_output", SlotDescriptor "acquisition.standard-output");
     ("standard_error", SlotDescriptor "acquisition.standard-error");
     ("return_code", SlotDescriptor "acquisition.return-code");
     ("acquire", Method Implemented)].

(** behaviour/delay.py *)
Definition FixedDelayBehaviour : pyclass :=
  class_ "FixedDelayBehaviour" [Behaviour]
    [("duration", ParameterDescriptor "technique.duration");
     ("idle", Method Implemented)].

Definition RandomDelayBehaviour : pyclass :=
  class_ "RandomDelayBehaviour" [Behaviour]
    [("mean", ParameterDescriptor "technique.duration.mean");
     ("stdev", ParameterDescriptor "technique.duration.stdev");
     ("idle", Method Implemented)].

(** acquisition.py *)
Definition AcquisitionTechnique : pyclass :=
  class_ "AcquisitionTechnique" [Technique]
    [("domain_host", ParameterDescriptor "technique.domain.host");
     ("domain_name", ParameterDescriptor "technique.domain.name");
     ("domain_snapshot", ParameterDescriptor "technique.domain.snapshot");
     ("domain_agent", ParameterDescriptor "technique.domain.agent");
     ("image_final", SlotDescriptor "memory.final");
     ("agent_initial", SlotDescriptor "agent.initial");
     ("agent_final", SlotDescriptor "agent.final");
     ("sample_start", SlotDescriptor "time.sample.start");
     ("sample_finish", SlotDescriptor "time.sample.finish");
     ("acquisition_start", SlotDescriptor "time.acquisition.start");
     ("acquisition_finish", SlotDescriptor "time.acquisition.finish");
     ("allocate", Method Implemented);
     ("sample", Method Implemented);
     ("attach_toolkit", Method Unimplemented);
     ("detach_toolkit", Method Unimplemented);
     ("attach_vector", Method Unimplemented);
     ("acquire", Method Pass);
     ("detach_vector", Method Unimplemented);
     ("transfer_acquired_image", Method Unimplemented);
     ("release", Method Implemented)].

(** control.py *)
Definition ControlTechnique : pyclass :=
  class_ "ControlTechnique" [Technique]
    [("domain_host", ParameterDescriptor "technique.domain.host");
     ("domain_name", ParameterDescriptor "technique.domain.name");
     ("domain_snapshot", ParameterDescriptor "technique.domain.snapshot");
     ("image", SlotDescriptor "memory.image");
     ("allocate", Method Implemented);
     ("sample", Method Implemented);
     ("idle", Method Unimplemented);
     ("release", Method Implemented)].

Definition TOOLKIT_BEHAVIOURS : gmap string pyclass :=
  {[ "optical" := OpticalAcquisitionToolkit ]}.

Definition VECTOR_BEHAVIOURS : gmap string pyclass :=
  {[ "fixed-drive" := FixedDriveAcquisitionVector ]}.

Definition INTERVENTION_BEHAVIOURS : gmap string pyclass :=
  <["execute" := ExecuteInterventionBehaviour]>
    {[ "monitor" := MonitorInterventionBehaviour ]}.

Definition DELAY_BEHAVIOURS : gmap string pyclass :=
  <["fixed" := FixedDelayBehaviour]> {[ "random" := RandomDelayBehaviour ]}.

(** [table[key]] for a table keyed by strings: a list or a dict cannot be
    hashed; any other key that is not in the table is a [KeyError]. *)
Definition table_getitem (table : gmap string pyclass) (key : pyvalue)
  : outcome pyclass :=
  match key with
  | PStr s =>
      match table !! s with
      | Some c => Ok c
      | None => Raise KeyError
      end
  | PList _ | PDict _ => Raise TypeError
  | _ => Raise KeyError
  end.

(** [TABLE[parameters[KEY]]] *)
Definition behaviour (table : gmap string pyclass) (parameters : pyvalue)
    (key : string) : outcome pyclass :=
  and_then (getitem parameters key) (table_getitem table).

(** The error both factories turn a [KeyError] into. *)
Definition CompositionError : exn :=
  RuntimeError "Requested behaviour could not be composed".

(** The [try] block of [acquisition_technique_factory]. *)
Definition acquisition_behaviours (parameters : pyvalue)
  : outcome (pyclass * pyclass * pyclass) :=
  and_then (behaviour TOOLKIT_BEHAVIOURS parameters TOOLKIT_BEHAVIOUR_KEY)
    (fun tkb =>
  and_then (behaviour VECTOR_BEHAVIOURS parameters VECTOR_BEHAVIOUR_KEY)
    (fun vcb =>
  and_then (behaviour INTERVENTION_BEHAVIOURS parameters
              INTERVENTION_BEHAVIOUR_KEY)
    (fun ivb => Ok (ivb, tkb, vcb)))).

Definition acquisition_technique_factory (parameters : pyvalue)
  : outcome instance :=
  match acquisition_behaviours parameters with
  | Raise KeyError => Raise CompositionError
  | Raise e => Raise e
  | NoReturn => NoReturn
  | Ok (ivb, tkb, vcb) =>
      let inheritance := [ivb; tkb; vcb; AcquisitionTechnique] in
      and_then (type_ "DynamicAcquisitionTechnique" inheritance ∅)
        (fun klass => new klass parameters)
  end.

Definition control_technique_factory (parameters : pyvalue)
  : outcome instance :=
  match behaviour DELAY_BEHAVIOURS parameters DELAY_BEHAVIOUR_KEY with
  | Raise KeyError => Raise CompositionError
  | Raise e => Raise e
  | NoReturn => NoReturn
  | Ok db =>
      let inheritance := [db; ControlTechnique] in
      and_then (type_ "DynamicControlTechnique" inheritance ∅)
        (fun klass => new klass parameters)
  end.

(** The hooks [AcquisitionTechnique.sample] calls on [self], and the one
    [ControlTechnique.sample] calls. *)
Definition acquisition_hooks : list string :=
  ["attach_toolkit"; "attach_vector"; "acquire"; "detach_toolkit";
   "detach_vector"; "transfer_acquired_image"].

Definition control_hooks : list string := ["idle"].

(** [hook] resolves on [c] to a method that is not a
    [raise NotImplementedError()] stub. *)
Definition resolved (c : pyclass) (hook : string) : Prop :=
  match type_lookup c hook with
  | Some (_, Method b) => b <> Unimplemented
  | _ => False
  end.

(** The first provider of an ordered list that defines [hook] itself. *)
Definition first_provider (providers : list pyclass) (hook : string)
  : option (namespace * member) :=
  find_in (map body_of providers) hook.

(** [parameters] is a dict, and what it holds under each of [keys], if
    anything, can be hashed. *)
Definition names_hashable (parameters : pyvalue) (keys : list string) : Prop :=
  exists items,
    parameters = PDict items
    /\ forall key v, key ∈ keys -> items !! key = Some v -> hashable v = true.

(** What a factory may do with [parameters]: return an object on whose
    class every one of [hooks] is resolved, or raise at construction,
    [CompositionError] unless [parameters] is not a dict of hashable names,
    which is a [TypeError]. *)
Definition factory_sound (factory : pyvalue -> outcome instance)
    (hooks keys : list string) (parameters : pyvalue) : Prop :=
  match factory parameters with
  | Ok obj => Forall (resolved (klass obj)) hooks
  | Raise e =>
      e = CompositionError
      \/ (e = TypeError /\ ~ names_hashable parameters keys)
  | NoReturn => False
  end.

(** *** Example parameters *)

Definition acquisition_parameters : pyvalue :=
  PDict (list_to_map
    [("technique.behaviour.toolkit", PStr "optical");
     ("technique.behaviour.vector", PStr "fixed-drive");
     ("technique.behaviour.intervention", PStr "execute");
     ("technique.domain.host", PStr "qemu:///system");
     ("technique.vector.tag", PStr "VECTOR")]).

Definition example_technique : instance :=
  match acquisition_technique_factory acquisition_parameters with
  | Ok obj => obj
  | _ => {| klass := object_; dict := ∅ |}
  end.

(** The toolkit is named by a YAML sequence, [[optical]], not by a scalar. *)
Definition toolkit_named_by_list : pyvalue :=
  PDict (list_to_map
    [("technique.behaviour.toolkit", PList [PStr "optical"]);
     ("technique.behaviour.vector", PStr "fixed-drive");
     ("technique.behaviour.intervention", PStr "execute")]).

(** The delay is named by a sequence, and a technique whose [parameters]
    entry was left empty in the definition document. *)
Definition delay_named_by_list : pyvalue :=
  PDict (list_to_map [("technique.behaviour.delay", PList [PStr "fixed"])]).

Definition parameters_left_empty : pyvalue := PNone.

End Technique.

(** ** pypette/volume.py, and its callers in behaviour/vector.py and
    analyst/storage.py *)

Module Volume.
Import Interface.

(** What the module does to the host, in the order done. *)
Inductive action : Type :=
| Run (argv : list string)
| Mkdtemp (path : string)
| Rmdir (path : string)
| Copy (source target : string)
| Hash (path output : string)
| Sleep.

(** The host as the module finds it: the device nodes [glob] lists, the
    contents of [/proc/partitions] at its [n]-th reading, the exit status of
    an external command run as the [n]-th action, the directory
    [tempfile.mkdtemp] creates as the [n]-th action, whether a copy or a
    hashing pass made as the [n]-th action succeeds, and the element
    [set.pop()] takes among the [k] elements of a set. *)
Record host : Type := {
  glob_nbd : list string;
  proc_partitions : nat -> string;
  exit_status : nat -> list string -> Z;
  mkdtemp : nat -> string;
  io_error : nat -> bool;
  realpath : string -> string;
  pick : gset string -> nat;
  repr : pyvalue -> string
}.

(** How often [/proc/partitions] was read, and the actions so far, most
    recent first. *)
Record state : Type := {
  reads : nat;
  log : list action
}.

Definition initial : state := {| reads := 0; log := [] |}.

Definition act (a : action) (o : outcome unit) : M state unit :=
  fun st => (o, {| reads := reads st; log := a :: log st |}).

(** [subprocess.check_call(argv)] *)
Definition check_call (h : host) (argv : list string) : M state unit :=
  fun st =>
    let rc := exit_status h (length (log st)) argv in
    act (Run argv)
      (if Z.eqb rc 0 then Ok tt else Raise (CalledProcessError rc argv)) st.

(** [open("/proc/partitions", "r").read()] *)
Definition read_partitions (h : host) : M state string :=
  fun st =>
    (Ok (proc_partitions h (reads st)),
     {| reads := S (reads st); log := log st |}).

(** [os.path.basename]: what follows the last slash. *)
Fixpoint basename_from (acc s : string) : string :=
  match s with
  | EmptyString => acc
  | String c s' =>
      if Ascii.eqb c "/" then basename_from "" s'
      else basename_from (acc +:+ String c "") s'
  end.

Definition basename (s : string) : string := basename_from "" s.

(** [os.path.join(a, b)] for a directory [a] that does not end in a slash. *)
Definition path_join (a b : string) : string :=
  match b with
  | String "/" _ => b
  | _ => a +:+ "/" +:+ b
  end.

Definition is_digit (c : ascii) : bool :=
  (48 <=? nat_of_ascii c) && (nat_of_ascii c <=? 57).

(** [re.findall("nbd[0-9]", s)]: the matches from left to right, each
    search resuming after the previous match. *)
Fixpoint findall_nbd (s : string) : list string :=
  match s with
  | EmptyString => []
  | String c0 tl =>
      match tl with
      | String c1 (String c2 (String c3 rest)) =>
          if Ascii.eqb c0 "n" && Ascii.eqb c1 "b" && Ascii.eqb c2 "d"
             && is_digit c3
          then String c0 (String c1 (String c2 (String c3 "")))
               :: findall_nbd rest
          else findall_nbd tl
      | _ => []
      end
  end.

(** [re.findall("nbd[0-9]p[0-9]", s)] *)
Fixpoint findall_nbd_partition (s : string) : list string :=
  match s with
  | EmptyString => []
  | String c0 tl =>
      match tl with
      | String c1 (String c2 (String c3 (String c4 (String c5 rest)))) =>
          if Ascii.eqb c0 "n" && Ascii.eqb c1 "b" && Ascii.eqb c2 "d"
             && is_digit c3 && Ascii.eqb c4 "p" && is_digit c5
          then String c0 (String c1 (String c2 (String c3
                 (String c4 (String c5 "")))))
               :: findall_nbd_partition rest
          else findall_nbd_partition tl
      | _ => []
      end
  end.

(** [device_nodes]: the pool. *)
Definition device_nodes (h : host) : gset string :=
  list_to_set (map basename (glob_nbd h)).

(** [attached_device_nodes] *)
Definition attached_device_nodes (h : host) : M state (gset string) :=
  table <- read_partitions h ;;
  ret (list_to_set (findall_nbd table)).

(** [attached_partitions] *)
Definition attached_partitions (h : host) : M state (gset string) :=
  table <- read_partitions h ;;
  ret (list_to_set (findall_nbd_partition table)).

(** [s.pop()]: some element of [s], [KeyError] when there is none. *)
Definition set_pop (h : host) (s : gset string) : outcome string :=
  match elements s !! (pick h s mod length (elements s)) with
  | Some x => Ok x
  | None => Raise KeyError
  end.

(** [available_device_node] *)
Definition available_device_node (h : host) : M state string :=
  let pool := device_nodes h in
  attached <- attached_device_nodes h ;;
  lift (set_pop h (pool ∖ attached)).

(** [attach] *)
Definition attach (h : host) (filename : string) : M state string :=
  let source := realpath h filename in
  device <- available_device_node h ;;
  let target := path_join "/dev" device in
  check_call h ["qemu-nbd"; "-n"; "-c"; target; source] ;;;
  ret target.

(** [detach] *)
Definition detach (h : host) (device : string) : M state unit :=
  check_call h ["qemu-nbd"; "-d"; device].

(** [mount] *)
Definition mount (h : host) (device : string) : M state string :=
  fun st =>
    let path := mkdtemp h (length (log st)) in
    (act (Mkdtemp path) (Ok tt) ;;;
     check_call h ["mount"; "-o"; "ro,force"; device; path] ;;;
     ret path) st.

(** [unmount] *)
Definition unmount (h : host) (path : string) : M state unit :=
  check_call h ["umount"; path] ;;;
  act (Rmdir path) (Ok tt).

(** [partition]: ["{}p{}".format(device, number)] *)
Definition partition (h : host) (device : string) (number : pyvalue) : string :=
  device +:+ "p" +:+ str_ (repr h) number.

(** [wait_for_partition]: polls without a bound, so it runs on fuel. *)
Fixpoint wait_for_partition (fuel : nat) (h : host) (device : string)
  : M state unit :=
  let node := basename device in
  attached <- attached_partitions h ;;
  if bool_decide (node ∈ attached) then ret tt
  else
    match fuel with
    | O => no_return
    | S fuel' => act Sleep (Ok tt) ;;; wait_for_partition fuel' h device
    end.

(** Reading an attribute of [self], which the methods below do not change. *)
Definition attribute (self : instance) (attr : string) : M state pyvalue :=
  lift (fst (getattr attr self)).

Definition text_attribute (self : instance) (attr : string) : M state string :=
  v <- attribute self attr ;; lift (as_text v).

(** A copy or a hashing pass, which fails with an [IOError] when the host
    says so. *)
Definition io (h : host) (a : action) : M state unit :=
  fun st =>
    act a (if io_error h (length (log st))
           then Raise (OtherError "IOError") else Ok tt) st.

(** [FixedDriveAcquisitionVector.transfer_acquired_image] *)
Definition transfer_acquired_image (fuel : nat) (h : host) (self : instance)
  : M state unit :=
  vector_filename <- text_attribute self "vector_filename" ;;
  device <- attach h vector_filename ;;
  vector_partition <- attribute self "vector_partition" ;;
  let partition_device := partition h device vector_partition in
  wait_for_partition fuel h partition_device ;;;
  path <- mount h partition_device ;;
  vector_image <- text_attribute self "vector_image" ;;
  let image_filename := path_join path vector_image in
  image_acquired <- text_attribute self "image_acquired" ;;
  io h (Copy image_filename image_acquired) ;;;
  unmount h path ;;;
  detach h device.

(** [FileSystemAnalyst.analyse], with the hashing of the files of the
    volume into the output file as one action. *)
Definition FileSystemAnalyst_analyse (fuel : nat) (h : host) (self : instance)
    (execution : string) : M state unit :=
  image <- text_attribute self "image" ;;
  device <- attach h image ;;
  try_finally
    (partition_ <- attribute self "partition" ;;
     let partition_device := partition h device partition_ in
     wait_for_partition fuel h partition_device ;;;
     path <- mount h partition_device ;;
     output <- text_attribute self "output" ;;
     io h (Hash path (output +:+ execution)) ;;;
     unmount h path)
    (detach h device).

(** The attached set that [attached_device_nodes] reads in state [st]. *)
Definition attached_at (h : host) (st : state) : gset string :=
  list_to_set (findall_nbd (proc_partitions h (reads st))).

(** *** Reading a log *)

(** The devices attached by a command of the log, given the exit status
    each command had; and the devices a command of the log detached or
    tried to. *)
Definition is_attach (a : action) : bool :=
  match a with
  | Run ("qemu-nbd" :: "-n" :: "-c" :: _) => true
  | _ => false
  end.

Definition is_detach (a : action) : bool :=
  match a with
  | Run ("qemu-nbd" :: "-d" :: _) => true
  | _ => false
  end.

Definition attaches (l : list action) : nat := length (List.filter is_attach l).

Definition detaches (l : list action) : nat := length (List.filter is_detach l).

(** *** Example hosts *)

Definition FileSystemAnalyst : pyclass :=
  class_ "FileSystemAnalyst" [Analyst]
    [("image", ParameterDescriptor "analyst.file-system.image");
     ("partition", ParameterDescriptor "analyst.file-system.partition");
     ("output", ParameterDescriptor "analyst.file-system.output");
     ("analyse", Method Implemented); ("discard", Method Implemented)].

(** [qemu-nbd] works, the partition shows up at once, [mount] exits with
    status 32. *)
Definition host_mount_fails : host :=
  {| glob_nbd := ["/dev/nbd0"; "/dev/nbd1"];
     proc_partitions := fun n =>
       if Nat.eqb n 0 then "   8  0  sda
  43  0  nbd0
"
       else "   8  0  sda
  43  0  nbd0
  43  32 nbd1
  43  33 nbd1p1
";
     exit_status := fun _ argv =>
       match argv with
       | "mount" :: _ => 32%Z
       | _ => 0%Z
       end;
     mkdtemp := fun n => "/tmp/tmp" +:+ pretty n +:+ ".mount";
     io_error := fun _ => false;
     realpath := fun p => p;
     pick := fun _ => 0;
     repr := fun _ => "" |}.

Definition vector_instance : instance :=
  {| klass := Technique.FixedDriveAcquisitionVector;
     dict :=
       <["parameters" := PDict (list_to_map
           [("technique.vector.filename", PStr "/srv/vector.qcow2");
            ("technique.vector.partition", PInt 1);
            ("technique.vector.tag", PStr "VECTOR");
            ("technique.vector.image", PStr "memory.dd")])]>
       (<["output" := PDict {[ "memory.acquired" := PStr "/tmp/tmpA.memory" ]}]> ∅) |}.

Definition analyst_instance : instance :=
  {| klass := FileSystemAnalyst;
     dict :=
       <["parameters" := PDict (list_to_map
           [("analyst.file-system.image", PStr "/srv/vector.qcow2");
            ("analyst.file-system.partition", PInt 1);
            ("analyst.file-system.output", PStr "/srv/out-")])]> ∅ |}.

End Volume.

(** ** pypette/agent.py *)

Module Agent.

(** [Reply] and [Error] *)
Inductive response : Type :=
| Reply (command parameters : pyvalue)
| Error (source description : pyvalue).

(** The console: its buffer, and its socket, which is the data that arrives,
    in the order and the pieces it arrives in, whether the peer closes the
    stream after it, whether sending works, what was sent (most recent
    first) and the timeout set. *)
Record console : Type := {
  buffer : string;
  incoming : list string;
  peer_closed : bool;
  writable : bool;
  sent : list string;
  sock_timeout : option Z
}.

Definition REQUEST_TIMEOUT : Z := 5.

Definition newline : ascii := "010"%char.

(** ["\n" in s] *)
Fixpoint has_newline (s : string) : bool :=
  match s with
  | EmptyString => false
  | String c s' => Ascii.eqb c newline || has_newline s'
  end.

(** [s.split("\n", 1)] for an [s] that holds a newline. *)
Fixpoint split_line (s : string) : option (string * string) :=
  match s with
  | EmptyString => None
  | String c s' =>
      if Ascii.eqb c newline then Some (EmptyString, s')
      else
        match split_line s' with
        | Some (line, rest) => Some (String c line, rest)
        | None => None
        end
  end.

Fixpoint str_take (n : nat) (s : string) : string :=
  match n, s with
  | S n', String c s' => String c (str_take n' s')
  | _, _ => EmptyString
  end.

Fixpoint str_drop (n : nat) (s : string) : string :=
  match n, s with
  | S n', String _ s' => str_drop n' s'
  | _, _ => s
  end.

Definition str_concat (l : list string) : string :=
  foldr String.app EmptyString l.

(** [socket.settimeout(t)] *)
Definition settimeout (t : option Z) : M console unit :=
  fun c =>
    (Ok tt, {| buffer := buffer c; incoming := incoming c;
               peer_closed := peer_closed c; writable := writable c;
               sent := sent c; sock_timeout := t |}).

(** [socket.recv(bufsize)]: at most [bufsize] bytes of the data that has
    arrived; with none, the empty string if the peer closed the stream, a
    timeout if one is set, and no return otherwise. *)
Definition recv (bufsize : nat) : M console string :=
  fun c =>
    match incoming c with
    | data :: later =>
        (Ok (str_take bufsize data),
         {| buffer := buffer c;
            incoming := if String.length data <=? bufsize then later
                        else str_drop bufsize data :: later;
            peer_closed := peer_closed c; writable := writable c;
            sent := sent c; sock_timeout := sock_timeout c |})
    | [] =>
        if peer_closed c then (Ok EmptyString, c)
        else
          match sock_timeout c with
          | Some _ => (Raise SocketTimeout, c)
          | None => (NoReturn, c)
          end
    end.

(** [socket.sendall(data)] *)
Definition sendall (data : string) : M console unit :=
  fun c =>
    if writable c then
      (Ok tt, {| buffer := buffer c; incoming := incoming c;
                 peer_closed := peer_closed c; writable := writable c;
                 sent := data :: sent c; sock_timeout := sock_timeout c |})
    else (Raise SocketError, c).

Definition set_buffer (b : string) : M console unit :=
  fun c =>
    (Ok tt, {| buffer := b; incoming := incoming c;
               peer_closed := peer_closed c; writable := writable c;
               sent := sent c; sock_timeout := sock_timeout c |}).

(** [while not "\n" in self.buffer: self.buffer += self.socket.recv(1024)],
    on fuel, one unit per turn. *)
Fixpoint fill (fuel : nat) : M console unit :=
  fun c =>
    if has_newline (buffer c) then (Ok tt, c)
    else
      match fuel with
      | O => (NoReturn, c)
      | S fuel' =>
          (data <- recv 1024 ;;
           (fun c' => set_buffer (buffer c' +:+ data) c') ;;;
           fill fuel') c
      end.

(** [line, self.buffer = self.buffer.split("\n", 1)] *)
Definition take_line : M console string :=
  fun c =>
    match split_line (buffer c) with
    | Some (line, rest) => (set_buffer rest ;;; ret line) c
    | None => (Raise ValueError, c)
    end.

(** What [receive] makes of a decoded line. *)
Definition interpret (message : pyvalue) : outcome response :=
  and_then (contains "reply" message) (fun is_reply =>
  if is_reply : bool then
    and_then (getitem message "reply") (fun reply =>
    and_then (getitem reply "command") (fun command =>
    and_then (getitem message "reply") (fun reply' =>
    and_then (getitem reply' "parameters") (fun parameters =>
    Ok (Reply command parameters)))))
  else
    and_then (contains "error" message) (fun is_error =>
    if is_error : bool then
      and_then (getitem message "error") (fun error =>
      and_then (getitem error "source") (fun source =>
      and_then (getitem message "error") (fun error' =>
      and_then (getitem error' "message") (fun description =>
      Ok (Error source description)))))
    else Raise (RuntimeError "Console received unexpected message"))).

(** The [except] clauses of [receive]. *)
Definition malformed (e : exn) : bool :=
  match e with
  | TypeError | ValueError | KeyError => true
  | _ => false
  end.

Section Console.

(** [json.loads] ([None] for the [ValueError] it raises), [json.dumps] and
    how the interpreter prints values other than text and integers. *)
Variable json_loads : string -> option pyvalue.
Variable json_dumps : pyvalue -> string.
Variable repr : pyvalue -> string.

Definition loads (line : string) : outcome pyvalue :=
  match json_loads line with
  | Some v => Ok v
  | None => Raise ValueError
  end.

(** [Console.receive] *)
Definition receive (fuel : nat) (timeout : option Z) : M console response :=
  try_finally
    (try_catch
       (settimeout timeout ;;;
        fill fuel ;;;
        line <- take_line ;;
        message <- lift (loads line) ;;
        lift (interpret message))
       malformed
       (fun _ => raise (RuntimeError "Console received malformed message")))
    (settimeout None).

(** The document [request] sends. *)
Definition request_document (command : string) (parameters : pyvalue)
  : pyvalue :=
  PDict {[ "request" :=
             PDict (<["command" := PStr command]>
                      {[ "parameters" := parameters ]}) ]}.

(** [Console.request] *)
Definition request (command : string) (parameters : pyvalue) : M console unit :=
  let message := json_dumps (request_document command parameters) in
  try_finally
    (settimeout (Some REQUEST_TIMEOUT) ;;;
     sendall message ;;;
     sendall (String newline EmptyString))
    (settimeout None).

(** [Console.call] *)
Definition call (fuel : nat) (command : string) (parameters : pyvalue)
    (timeout : option Z) : M console pyvalue :=
  request command parameters ;;;
  result <- receive fuel timeout ;;
  match result with
  | Reply _ parameters' => ret parameters'
  | Error source description =>
      raise (RuntimeError ("Guest agent error in " +:+ str_ repr source
                           +:+ ": " +:+ str_ repr description))
  end.

End Console.



(** What [receive] returns or raises for a line, by the [except] clauses. *)
Definition decode (json_loads : string -> option pyvalue) (line : string)
  : outcome response :=
  match and_then (loads json_loads line) interpret with
  | Raise e =>
      if malformed e
      then Raise (RuntimeError "Console received malformed message")
      else Raise e
  | r => r
  end.

(** The bytes the console has yet to consume: its buffer, then what the
    socket holds. *)
Definition pending (c : console) : string :=
  buffer c +:+ str_concat (incoming c).

(** A bound on the turns the loop of [receive] can take. *)
Definition deliveries (c : console) : nat :=
  length (incoming c) + String.length (str_concat (incoming c)).

(** Everything of a console but how its pending bytes are distributed over
    the buffer and the socket. *)
Definition same_socket (c c' : console) : Prop :=
  pending c' = pending c /\ sent c' = sent c /\ writable c' = writable c
  /\ peer_closed c' = peer_closed c /\ sock_timeout c' = sock_timeout c.

End Agent.

(** ** A JSON codec for the examples

    [json.loads] and [json.dumps] belong to the interpreter's library; the
    facts about the console hold for any decoder and encoder.  This codec,
    for JSON without floats and without [\u] escapes, stands for them where
    an example needs a wire line decoded. *)

Module Json.

Definition quote : ascii := "034"%char.
Definition backslash : ascii := "092"%char.

Definition is_space (c : ascii) : bool :=
  Ascii.eqb c " " || Ascii.eqb c "009" || Ascii.eqb c "010"
  || Ascii.eqb c "013".

Fixpoint skip_ws (s : string) : string :=
  match s with
  | String c s' => if is_space c then skip_ws s' else s
  | EmptyString => EmptyString
  end.

Definition unescape (c : ascii) : option ascii :=
  if Ascii.eqb c quote then Some quote
  else if Ascii.eqb c backslash then Some backslash
  else if Ascii.eqb c "/" then Some "/"%char
  else if Ascii.eqb c "n" then Some "010"%char
  else if Ascii.eqb c "t" then Some "009"%char
  else if Ascii.eqb c "r" then Some "013"%char
  else None.

(** The characters of a string literal, after its opening quote. *)
Fixpoint parse_chars (s : string) : option (string * string) :=
  match s with
  | EmptyString => None
  | String c s' =>
      if Ascii.eqb c quote then Some (EmptyString, s')
      else if Ascii.eqb c backslash then
        match s' with
        | String e s'' =>
            match unescape e, parse_chars s'' with
            | Some c', Some (t, r) => Some (String c' t, r)
            | _, _ => None
            end
        | EmptyString => None
        end
      else
        match parse_chars s' with
        | Some (t, r) => Some (String c t, r)
        | None => None
        end
  end.

Fixpoint parse_digits (acc : Z) (s : string) : Z * string :=
  match s with
  | String c s' =>
      if Volume.is_digit c
      then parse_digits (10 * acc + Z.of_nat (nat_of_ascii c) - 48)%Z s'
      else (acc, s)
  | EmptyString => (acc, EmptyString)
  end.

Definition starts_number (s : string) : bool :=
  match s with
  | String c _ => Volume.is_digit c
  | EmptyString => false
  end.

Definition parse_number (s : string) : option (pyvalue * string) :=
  match s with
  | String c s' =>
      if Ascii.eqb c "-" then
        if starts_number s'
        then let '(n, r) := parse_digits 0 s' in Some (PInt (- n), r)
        else None
      else if starts_number s
      then let '(n, r) := parse_digits 0 s in Some (PInt n, r)
      else None
  | EmptyString => None
  end.

Definition keyword (k : string) (v : pyvalue) (s : string)
  : option (pyvalue * string) :=
  if String.prefix k s
  then Some (v, Agent.str_drop (String.length k) s)
  else None.

Fixpoint parse_value (fuel : nat) (s : string) : option (pyvalue * string) :=
  match fuel with
  | O => None
  | S fuel' =>
      match skip_ws s with
      | EmptyString => None
      | String c s' =>
          if Ascii.eqb c "{" then
            match skip_ws s' with
            | String d r =>
                if Ascii.eqb d "}" then Some (PDict ∅, r)
                else parse_members fuel' s' ∅
            | EmptyString => None
            end
          else if Ascii.eqb c "[" then
            match skip_ws s' with
            | String d r =>
                if Ascii.eqb d "]" then Some (PList [], r)
                else parse_elements fuel' s' []
            | EmptyString => None
            end
          else if Ascii.eqb c quote then
            match parse_chars s' with
            | Some (t, r) => Some (PStr t, r)
            | None => None
            end
          else if Ascii.eqb c "t" then keyword "true" (PBool true) (String c s')
          else if Ascii.eqb c "f" then keyword "false" (PBool false) (String c s')
          else if Ascii.eqb c "n" then keyword "null" PNone (String c s')
          else parse_number (String c s')
      end
  end
with parse_members (fuel : nat) (s : string) (acc : gmap string pyvalue)
  : option (pyvalue * string) :=
  match fuel with
  | O => None
  | S fuel' =>
      match skip_ws s with
      | String q s1 =>
          if Ascii.eqb q quote then
            match parse_chars s1 with
            | Some (k, s2) =>
                match skip_ws s2 with
                | String colon s3 =>
                    if Ascii.eqb colon ":" then
                      match parse_value fuel' s3 with
                      | Some (v, s4) =>
                          match skip_ws s4 with
                          | String d s5 =>
                              if Ascii.eqb d "," then
                                parse_members fuel' s5 (<[k := v]> acc)
                              else if Ascii.eqb d "}" then
                                Some (PDict (<[k := v]> acc), s5)
                              else None
                          | EmptyString => None
                          end
                      | None => None
                      end
                    else None
                | EmptyString => None
                end
            | None => None
            end
          else None
      | EmptyString => None
      end
  end
with parse_elements (fuel : nat) (s : string) (acc : list pyvalue)
  : option (pyvalue * string) :=
  match fuel with
  | O => None
  | S fuel' =>
      match parse_value fuel' s with
      | Some (v, s1) =>
          match skip_ws s1 with
          | String d s2 =>
              if Ascii.eqb d "," then parse_elements fuel' s2 (acc ++ [v])
              else if Ascii.eqb d "]" then Some (PList (acc ++ [v]), s2)
              else None
          | EmptyString => None
          end
      | None => None
      end
  end.

Definition loads (s : string) : option pyvalue :=
  match parse_value (2 * String.length s + 2) s with
  | Some (v, r) =>
      match skip_ws r with
      | EmptyString => Some v
      | _ => None
      end
  | None => None
  end.

Fixpoint escape (s : string) : string :=
  match s with
  | EmptyString => EmptyString
  | String c s' =>
      if Ascii.eqb c quote || Ascii.eqb c backslash
      then String backslash (String c (escape s'))
      else String c (escape s')
  end.

Definition literal (s : string) : string :=
  String quote (escape s) +:+ String quote EmptyString.

Fixpoint join (l : list string) : string :=
  match l with
  | [] => EmptyString
  | [x] => x
  | x :: l' => x +:+ ", " +:+ join l'
  end.

Fixpoint dumps (v : pyvalue) : string :=
  match v with
  | PNone => "null"
  | PBool true => "true"
  | PBool false => "false"
  | PInt z => pretty z
  | PFloat r => r
  | PStr s => literal s
  | PList l => "[" +:+ join (map dumps l) +:+ "]"
  | PDict m =>
      "{" +:+ join (map (fun kv => literal (fst kv) +:+ ": " +:+ snd kv)
                      (map_to_list (dumps <$> m))) +:+ "}"
  end.

Definition repr (v : pyvalue) : string := dumps v.

(** *** Example consoles *)



Definition empty_reply : string :=
  "{" +:+ literal "reply" +:+ ":{" +:+ literal "command" +:+ ":"
  +:+ literal "status" +:+ "," +:+ literal "parameters" +:+ ":{}}}".

Definition nl : string := String Agent.newline EmptyString.

(** A console whose socket has received [pieces]. *)
Definition console_with (pieces : list string) : Agent.console :=
  {| Agent.buffer := EmptyString; Agent.incoming := pieces;
     Agent.peer_closed := false; Agent.writable := true;
     Agent.sent := []; Agent.sock_timeout := None |}.

End Json.

(** ** pypette/experiment.py *)

Module Experiment.

(** A UUID, as its 128-bit integer value; Python orders UUIDs by it. *)
Definition UUID : Type := Z.

(** [ComponentDefinition]: a component name and its parameter dictionary. *)
Record ComponentDefinition : Type := {
  name : string;
  parameters : pyvalue
}.

(** [Definition]: the parsed experiment document. *)
Record ExperimentDefinition : Type := {
  executions : Z;
  technique : ComponentDefinition;
  analysts : list ComponentDefinition
}.

(** The calls [conduct] makes on its collaborators, in the order made.  [pos]
    is the position of the identity in [identities] that the loop is at;
    [a] is the index of an analyst in the list [get_analysts] built. *)
Inductive event : Type :=
| Uuid4 (u : UUID)
| NewAnalyst (a : nat)
| GetTechnique (pos : nat)
| Allocate (pos : nat)
| Sample (pos : nat)
| Analyse (a : nat) (pos : nat) (execution : UUID)
| LogException (pos : nat)
| Discard (a : nat) (pos : nat) (execution : UUID)
| Release (pos : nat)
| Collate (a : nat).

(** What the technique and the analysts do during the loop body at one
    position: for each call, [None] when it returns and [Some e] when it
    raises [e]. *)
Record attempt : Type := {
  on_construct : option exn;
  on_allocate : option exn;
  on_sample : option exn;
  on_analyse : nat -> option exn;
  on_discard : nat -> option exn;
  on_release : option exn
}.

(** The collaborators of one run: the UUID source (its [n]-th draw), the
    analyst constructors, the behaviour at each position, and [collate]. *)
Record world : Type := {
  uuid4 : nat -> UUID;
  on_new_analyst : nat -> option exn;
  script : nat -> attempt;
  on_collate : nat -> option exn
}.

(** The calls made so far, most recent first, and the number of UUIDs drawn. *)
Record state : Type := {
  trace : list event;
  draws : nat
}.

Definition initial : state := {| trace := []; draws := 0 |}.

(** One call on a collaborator. *)
Definition call (e : event) (r : option exn) : M state unit :=
  fun st =>
    (match r with None => Ok tt | Some x => Raise x end,
     {| trace := e :: trace st; draws := draws st |}).

(** [uuid.uuid4()] *)
Definition mint (w : world) : M state UUID :=
  fun st =>
    let u := uuid4 w (draws st) in
    (Ok u, {| trace := Uuid4 u :: trace st; draws := S (draws st) |}).

(** [[uuid.uuid4() for i in range(n)]] *)
Fixpoint mint_many (w : world) (n : nat) : M state (list UUID) :=
  match n with
  | O => ret []
  | S n' => u <- mint w ;; us <- mint_many w n' ;; ret (u :: us)
  end.

(** [get_analysts]: one instance per analyst definition, in order; the
    analysts are referred to by their index from then on. *)
Definition get_analysts (w : world) (definition : ExperimentDefinition)
  : M state (list nat) :=
  let container := seq 0 (length (analysts definition)) in
  for_each container (fun a => call (NewAnalyst a) (on_new_analyst w a)) ;;;
  ret container.

(** The body of the loop of [conduct] for [execution = identities[pos]];
    returns [identities] as the body leaves it. *)
Definition execute (w : world) (analysts : list nat) (pos : nat)
    (execution : UUID) (identities : list UUID) : M state (list UUID) :=
  let s := script w pos in
  call (GetTechnique pos) (on_construct s) ;;;
  try_finally
    (try_except
       (call (Allocate pos) (on_allocate s) ;;;
        call (Sample pos) (on_sample s) ;;;
        for_each analysts
          (fun a => call (Analyse a pos execution) (on_analyse s a)) ;;;
        ret identities)
       (fun _ =>
        call (LogException pos) None ;;;
        for_each analysts
          (fun a => call (Discard a pos execution) (on_discard s a)) ;;;
        u <- mint w ;;
        ret (identities ++ [u])))
    (call (Release pos) (on_release s)).

(** [for execution in identities:] where the body appends to [identities]:
    the list iterator keeps an index and stops when it reaches the current
    length.  The loop has no bound of its own, so it runs on fuel, one unit
    per iteration. *)
Fixpoint conduct_loop (fuel : nat) (w : world) (analysts : list nat)
    (pos : nat) (identities : list UUID) : M state unit :=
  match identities !! pos with
  | None => ret tt
  | Some execution =>
      match fuel with
      | O => no_return
      | S fuel' =>
          identities' <- execute w analysts pos execution identities ;;
          conduct_loop fuel' w analysts (S pos) identities'
      end
  end.

Definition conduct (fuel : nat) (w : world) (definition : ExperimentDefinition)
  : M state unit :=
  identities <- mint_many w (Z.to_nat (executions definition)) ;;
  analysts <- get_analysts w definition ;;
  conduct_loop fuel w analysts 0 identities ;;;
  for_each analysts (fun a => call (Collate a) (on_collate w a)).

(** *** Reading a trace *)

Definition count (P : event -> bool) (tr : list event) : nat :=
  length (List.filter P tr).


Definition is_analyse_at (a pos : nat) (e : event) : bool :=
  match e with Analyse a' p _ => Nat.eqb a' a && Nat.eqb p pos | _ => false end.


Definition is_collate (a : nat) (e : event) : bool :=
  match e with Collate a' => Nat.eqb a' a | _ => false end.

Definition is_allocate (pos : nat) (e : event) : bool :=
  match e with Allocate p => Nat.eqb p pos | _ => false end.

Definition is_release (pos : nat) (e : event) : bool :=
  match e with Release p => Nat.eqb p pos | _ => false end.

Definition is_uuid4 (e : event) : bool :=
  match e with Uuid4 _ => true | _ => false end.



(** The identities minted, oldest first. *)
Definition minted (tr : list event) : list UUID :=
  omap (fun e => match e with Uuid4 u => Some u | _ => None end) (rev tr).

(** The identity each call of [analyse] or [discard] was given, with the
    position it was given at. *)
Definition used (tr : list event) : list (nat * UUID) :=
  omap (fun e =>
          match e with
          | Analyse _ p u | Discard _ p u => Some (p, u)
          | _ => None
          end) tr.

(** *** What a script does at a position *)





(** *** Predicates used to state and prove the facts of Part II *)

(** [emits c Q]: [c] returns or raises, and only adds events satisfying [Q]. *)
Definition emits {A} (c : M state A) (Q : event -> Prop) : Prop :=
  forall st, exists evs,
    trace (snd (c st)) = evs ++ trace st /\ Forall Q evs
    /\ fst (c st) <> NoReturn.

(** An event that is neither [allocate] nor [release]. *)
Definition neutral (e : event) : Prop :=
  match e with Allocate _ | Release _ => False | _ => True end.

(** [keeps J c]: [c] preserves the invariant [J], however it ends. *)
Definition keeps {A} (J : state -> Prop) (c : M state A) : Prop :=
  forall st, J st -> J (snd (c st)).

(** The state after one more call. *)
Definition push (e : event) (st : state) : state :=
  {| trace := e :: trace st; draws := draws st |}.

(** The events of the loop body at position [pos] for identity [u]. *)
Definition at_position (pos : nat) (u : UUID) (e : event) : Prop :=
  match e with
  | GetTechnique p | Allocate p | Sample p | LogException p | Release p => p = pos
  | Analyse _ p u' | Discard _ p u' => p = pos /\ u' = u
  | _ => False
  end.

(** The identities minted so far are the draws of the UUID source, in order. *)
Definition fresh (w : world) (st : state) : Prop :=
  minted (trace st) = map (uuid4 w) (seq 0 (draws st)).

(** Every identity handed to an analyst at a position is the draw of that
    number. *)
Definition used_ok (w : world) (st : state) : Prop :=
  forall p u, (p, u) ∈ used (trace st) -> u = uuid4 w p.

Definition identities_ok (w : world) (st : state) : Prop :=
  fresh w st /\ used_ok w st.

(** Each identity is below the next one. *)
Definition increasing (l : list UUID) : bool :=
  forallb (fun '(u, v) => (u <? v)%Z) (zip l (tail l)).





(** *** Example worlds *)

Definition quiet : attempt :=
  {| on_construct := None; on_allocate := None; on_sample := None;
     on_analyse := fun _ => None; on_discard := fun _ => None;
     on_release := None |}.

Definition sample_raises : attempt :=
  {| on_construct := None; on_allocate := None;
     on_sample := Some (RuntimeError "Console received malformed message");
     on_analyse := fun _ => None; on_discard := fun _ => None;
     on_release := None |}.


Definition component (n : string) : ComponentDefinition :=
  {| name := n; parameters := PDict ∅ |}.

Definition two_analysts (n : Z) : ExperimentDefinition :=
  {| executions := n;
     technique := component "initial-state";
     analysts := [component "compress"; component "metadata"] |}.

(** The first position fails in [sample], every later one succeeds. *)
Definition world_sample_fails_once : world :=
  {| uuid4 := fun n => Z.of_nat (100 + n);
     on_new_analyst := fun _ => None;
     script := fun p => if Nat.eqb p 0 then sample_raises else quiet;
     on_collate := fun _ => None |}.


(** Nothing fails; the UUID source happens to draw decreasing values. *)
Definition world_descending : world :=
  {| uuid4 := fun n => (1000 - Z.of_nat n)%Z;
     on_new_analyst := fun _ => None;
     script := fun _ => quiet;
     on_collate := fun _ => None |}.

End Experiment.

(** ** pypette/agent.py: the commands of the guest agent *)

Module Guest.
Import Agent.

Definition EXECUTE_TIMEOUT : option Z := None.
Definition MONITOR_TIMEOUT : option Z := None.
Definition FIND_TIMEOUT : option Z := Some 30%Z.
Definition EJECT_TIMEOUT : option Z := Some 30%Z.
Definition FLUSH_TIMEOUT : option Z := Some 30%Z.
Definition STATUS_TIMEOUT : option Z := Some 30%Z.

Section Agent.

Variable json_loads : string -> option pyvalue.
Variable json_dumps : pyvalue -> string.
Variable repr : pyvalue -> string.

(** [Agent.execute] *)
Definition execute (fuel : nat) (command shell cwd : pyvalue)
  : M console pyvalue :=
  call json_loads json_dumps repr fuel "execute"
    (PDict (<["command" := command]>
              (<["shell" := shell]> {[ "cwd" := cwd ]})))
    EXECUTE_TIMEOUT.

(** [Agent.monitor] *)
Definition monitor (fuel : nat) (command interval cwd : pyvalue)
  : M console pyvalue :=
  call json_loads json_dumps repr fuel "monitor"
    (PDict (<["command" := command]>
              (<["interval" := interval]> {[ "cwd" := cwd ]})))
    MONITOR_TIMEOUT.

(** [Agent.find] *)
Definition find (fuel : nat) (tag : pyvalue) : M console pyvalue :=
  call json_loads json_dumps repr fuel "find" (PDict {[ "tag" := tag ]})
    FIND_TIMEOUT.

(** [Agent.eject] *)
Definition eject (fuel : nat) (tag : pyvalue) : M console pyvalue :=
  call json_loads json_dumps repr fuel "eject" (PDict {[ "tag" := tag ]})
    EJECT_TIMEOUT.

(** [Agent.flush] *)
Definition flush (fuel : nat) (tag : pyvalue) : M console pyvalue :=
  call json_loads json_dumps repr fuel "flush" (PDict {[ "tag" := tag ]})
    FLUSH_TIMEOUT.

(** [Agent.status] *)
Definition status (fuel : nat) : M console pyvalue :=
  call json_loads json_dumps repr fuel "status" (PDict ∅) STATUS_TIMEOUT.

End Agent.

(** *** Example lines *)

(** A message with a reply and an error. *)
Definition reply_and_error : string :=
  "{" +:+ Json.literal "error" +:+ ":{" +:+ Json.literal "source" +:+ ":"
  +:+ Json.literal "x" +:+ "," +:+ Json.literal "message" +:+ ":"
  +:+ Json.literal "y" +:+ "}," +:+ Json.literal "reply" +:+ ":{"
  +:+ Json.literal "command" +:+ ":" +:+ Json.literal "status" +:+ ","
  +:+ Json.literal "parameters" +:+ ":{}}}".

(** A console that nothing reaches. *)
Definition silent : console :=
  {| buffer := EmptyString; incoming := []; peer_closed := false;
     writable := true; sent := []; sock_timeout := None |}.

End Guest.

(** ** pypette/volume.py: reading the host and its log *)

Module Host.
Import Interface Volume.

(** The partitions that [attached_partitions] finds at the [n]-th reading
    of [/proc/partitions]. *)
Definition partitions_at (h : host) (n : nat) : gset string :=
  list_to_set (findall_nbd_partition (proc_partitions h n)).

(** A computation that adds to the log only actions that [P] accepts. *)
Definition only {A} (P : action -> bool) (c : M state A) : Prop :=
  forall st, exists new,
    log (snd (c st)) = new ++ log st /\ forallb P new = true.

(** The exception of a [detach] whose command failed. *)
Definition detach_failed (e : exn) : bool :=
  match e with
  | CalledProcessError _ ("qemu-nbd" :: "-d" :: _) => true
  | _ => false
  end.

(** The actions that neither attach nor detach a device. *)
Definition harmless (a : action) : bool := negb (is_attach a) && negb (is_detach a).

(** A computation that, when it raises something else than the failure of
    a [detach], has added nothing but [harmless] actions to the log. *)
Definition leaves_attached {A} (c : M state A) : Prop :=
  forall st e st',
    c st = (Raise e, st') -> detach_failed e = false ->
    exists new, log st' = new ++ log st /\ forallb harmless new = true.

(** *** Example hosts *)

(** Every node of the pool is attached. *)
Definition host_exhausted : host :=
  {| glob_nbd := ["/dev/nbd0"; "/dev/nbd1"];
     proc_partitions := fun _ => "  43  0  nbd0
  43  32 nbd1
";
     exit_status := fun _ _ => 0%Z;
     mkdtemp := fun n => "/tmp/tmp" +:+ pretty n +:+ ".mount";
     io_error := fun _ => false;
     realpath := fun p => p;
     pick := fun _ => 0;
     repr := fun _ => EmptyString |}.

(** The partition of [nbd1] shows up at the third reading. *)
Definition host_slow_partition : host :=
  {| glob_nbd := ["/dev/nbd0"; "/dev/nbd1"];
     proc_partitions := fun n =>
       if n <? 2 then "  43  32 nbd1
"
       else "  43  32 nbd1
  43  33 nbd1p1
";
     exit_status := fun _ _ => 0%Z;
     mkdtemp := fun n => "/tmp/tmp" +:+ pretty n +:+ ".mount";
     io_error := fun _ => false;
     realpath := fun p => p;
     pick := fun _ => 0;
     repr := fun _ => EmptyString |}.

(** The copy out of the mounted volume fails. *)
Definition host_copy_fails : host :=
  {| glob_nbd := ["/dev/nbd0"; "/dev/nbd1"];
     proc_partitions := fun n =>
       if Nat.eqb n 0 then "  43  0  nbd0
"
       else "  43  0  nbd0
  43  32 nbd1
  43  33 nbd1p1
";
     exit_status := fun _ _ => 0%Z;
     mkdtemp := fun n => "/tmp/tmp" +:+ pretty n +:+ ".mount";
     io_error := fun _ => true;
     realpath := fun p => p;
     pick := fun _ => 0;
     repr := fun _ => EmptyString |}.

End Host.

(** ** pypette/experiment.py: what leaves the loop body *)

Module Conductor.
Import Experiment.





(** *** Example worlds *)


(** [release] raises after a sample that failed. *)
Definition release_raises : attempt :=
  {| on_construct := None; on_allocate := None;
     on_sample := Some (OtherError "libvirtError");
     on_analyse := fun _ => None; on_discard := fun _ => None;
     on_release := Some (OtherError "OSError") |}.

(** The second position fails in [sample] and then in [release]. *)
Definition world_release_raises : world :=
  {| uuid4 := fun n => Z.of_nat (100 + n);
     on_new_analyst := fun _ => None;
     script := fun p => if Nat.eqb p 1 then release_raises else quiet;
     on_collate := fun _ => None |}.


End Conductor.

(** ** pypette/technique: initial.py and control.py, with the calls they
    make on pypette/emulator.py *)

Module Lifecycle.
Import Interface Technique.

(** What a technique does to the virtualisation platform and to the files
    of the host, in the order done: [Open] is [Emulator(address, name)],
    [Close] is [domain.close()]. *)
Inductive op : Type :=
| Mktemp (path : string)
| Open (address name : pyvalue)
| Revert (snapshot : pyvalue)
| Resume
| Idle
| Suspend
| SaveMemory (filename : pyvalue)
| Close
| Unlink (path : string).

(** The platform as the technique finds it: the name [tempfile.mktemp]
    returns as the [n]-th operation, and the exception the [n]-th operation
    raises, if it does. *)
Record platform : Type := {
  mktemp : nat -> string;
  refuses : nat -> op -> option exn
}.

(** The technique object, the files that exist, and the operations so far,
    most recent first. *)
Record state : Type := {
  self : instance;
  files : gset string;
  ops : list op
}.

Definition OSError : exn := OtherError "OSError".

(** What an operation that succeeds does to the files: saving memory
    creates the image, unlinking removes the file. *)
Definition effect (o : op) (fs : gset string) : gset string :=
  match o with
  | SaveMemory (PStr path) => fs ∪ {[ path ]}
  | Unlink path => fs ∖ {[ path ]}
  | _ => fs
  end.

Definition perform (p : platform) (o : op) : M state unit :=
  fun st =>
    match refuses p (length (ops st)) o with
    | Some e =>
        (Raise e, {| self := self st; files := files st; ops := o :: ops st |})
    | None =>
        (Ok tt, {| self := self st; files := effect o (files st);
                   ops := o :: ops st |})
    end.

(** [tempfile.mktemp(".memory")]: a name, no file. *)
Definition fresh_name (p : platform) : M state string :=
  fun st =>
    let path := mktemp p (length (ops st)) in
    (Ok path, {| self := self st; files := files st;
                 ops := Mktemp path :: ops st |}).

(** [os.unlink(path)]: [OSError] when there is no such file. *)
Definition unlink (p : platform) (path : string) : M state unit :=
  fun st =>
    if bool_decide (path ∈ files st) then perform p (Unlink path) st
    else (Raise OSError,
          {| self := self st; files := files st;
             ops := Unlink path :: ops st |}).

(** [os.path.exists(path)] *)
Definition exists_ (path : string) : M state bool :=
  fun st => (Ok (bool_decide (path ∈ files st)), st).

(** [self.attr] and [self.attr = value] *)
Definition get (attr : string) : M state pyvalue :=
  fun st => (fst (getattr attr (self st)), st).

Definition set (attr : string) (value : pyvalue) : M state unit :=
  fun st =>
    let '(o, obj) := setattr attr value (self st) in
    (o, {| self := obj; files := files st; ops := ops st |}).

(** [self.idle()]: the method the class of [self] resolves [idle] to.  The
    ones of delay.py read their duration and sleep: one [Idle] operation,
    which raises what reading or sleeping raises. *)
Definition idle (p : platform) : M state unit :=
  fun st =>
    match type_lookup (klass (self st)) "idle" with
    | Some (_, Method Unimplemented) => (Raise NotImplementedError, st)
    | Some (_, Method Pass) => (Ok tt, st)
    | Some (_, Method Implemented) => perform p Idle st
    | _ => (Raise (AttributeError "idle"), st)
    end.

(** initial.py *)
Definition InitialStateTechnique : pyclass :=
  class_ "InitialStateTechnique" [Interface.Technique]
    [("domain_host", ParameterDescriptor "technique.domain.host");
     ("domain_name", ParameterDescriptor "technique.domain.name");
     ("domain_snapshot", ParameterDescriptor "technique.domain.snapshot");
     ("image", SlotDescriptor "memory.image");
     ("allocate", Method Implemented);
     ("sample", Method Implemented);
     ("release", Method Implemented)].

(** [InitialStateTechnique.allocate] and [ControlTechnique.allocate] *)
Definition allocate (p : platform) : M state unit :=
  path <- fresh_name p ;;
  set "image" (PStr path).

(** [InitialStateTechnique.sample] *)
Definition initial_sample (p : platform) : M state unit :=
  address <- get "domain_host" ;;
  name <- get "domain_name" ;;
  perform p (Open address name) ;;;
  snapshot <- get "domain_snapshot" ;;
  perform p (Revert snapshot) ;;;
  image <- get "image" ;;
  perform p (SaveMemory image) ;;;
  perform p Close.

(** [InitialStateTechnique.release] *)
Definition initial_release (p : platform) : M state unit :=
  image <- get "image" ;;
  path <- lift (as_text image) ;;
  unlink p path.

(** [ControlTechnique.sample] *)
Definition control_sample (p : platform) : M state unit :=
  address <- get "domain_host" ;;
  name <- get "domain_name" ;;
  perform p (Open address name) ;;;
  try_finally
    (snapshot <- get "domain_snapshot" ;;
     perform p (Revert snapshot) ;;;
     perform p Resume ;;;
     idle p ;;;
     perform p Suspend ;;;
     image <- get "image" ;;
     perform p (SaveMemory image))
    (perform p Close).

(** [ControlTechnique.release] *)
Definition control_release (p : platform) : M state unit :=
  image <- get "image" ;;
  path <- lift (as_text image) ;;
  present <- exists_ path ;;
  if present : bool then unlink p path else ret tt.

(** A technique object that has not run yet, on a host with [fs]. *)
Definition start (obj : instance) (fs : gset string) : state :=
  {| self := obj; files := fs; ops := [] |}.

(** The operations that succeeded in opening a domain, and the calls of
    [domain.close()]. *)
Definition is_open (o : op) : bool :=
  match o with Open _ _ => true | _ => false end.

Definition is_close (o : op) : bool :=
  match o with Close => true | _ => false end.

(** A computation that returns or raises, leaves the technique object as
    it is, and performs only operations that [P] accepts. *)
Definition adds {A} (P : op -> Prop) (c : M state A) : Prop :=
  forall st, exists new,
    ops (snd (c st)) = new ++ ops st /\ Forall P new
    /\ fst (c st) <> NoReturn /\ self (snd (c st)) = self st.

(** *** Example platforms *)

Definition domain_parameters : pyvalue :=
  PDict (list_to_map
    [("technique.domain.host", PStr "qemu:///system");
     ("technique.domain.name", PStr "guest");
     ("technique.domain.snapshot", PStr "clean");
     ("technique.behaviour.delay", PStr "fixed");
     ("technique.duration", PInt 60)]).

(** The snapshot does not exist. *)
Definition platform_without_snapshot : platform :=
  {| mktemp := fun n => "/tmp/tmp" +:+ pretty n +:+ ".memory";
     refuses := fun _ o =>
       match o with
       | Revert _ => Some (OtherError "libvirtError")
       | _ => None
       end |}.

Definition initial_technique : instance :=
  match new InitialStateTechnique domain_parameters with
  | Ok obj => obj
  | _ => {| klass := object_; dict := ∅ |}
  end.

Definition control_technique : instance :=
  match control_technique_factory domain_parameters with
  | Ok obj => obj
  | _ => {| klass := object_; dict := ∅ |}
  end.

End Lifecycle.

(** ** pypette/analyst/metadata.py: the experiment metadata analyst *)

Module Metadata.
Import Experiment.

(** [self.table] holds the sample recorded for each execution identity: it
    is a [gmap Z pyvalue]. *)





(** [ExperimentMetadataAnalyst.collate]: the table it hands to [yaml.dump]
    for the output file. *)
Definition collate : M (gmap Z pyvalue) (gmap Z pyvalue) := fun t => (Ok t, t).




End Metadata.

(** ** pypette/analyst/storage.py: reading a file in blocks *)

Module Storage.
Import Py.

Definition IOError : exn := OtherError "IOError".
Definition OverflowError : exn := OtherError "OverflowError".
Definition MemoryError : exn := OtherError "MemoryError".

(** The interpreter the code runs on: [sys.maxint], the largest C long, and
    whether a string of a given number of bytes can be allocated. *)
Record interpreter : Type := {
  maxint : Z;
  allocates : Z -> bool
}.

(** The buffer [handle.read(size)] allocates before it reads: [size] bytes,
    and room for all that is left of the file when [size] is negative. *)
Definition buffer_size (size : Z) (rest : list Byte.byte) : Z :=
  if (size <? 0)%Z then Z.of_nat (length rest) else size.

(** [handle.read(size)] on what is left of the file.  A size that does not
    fit a C long is an [OverflowError], a buffer that cannot be allocated a
    [MemoryError]; otherwise [size] bytes are read, or what is left when
    that is less, and all of it when [size] is negative.  The bytes read,
    and what is left after them. *)
Definition read (py : interpreter) (size : Z) (rest : list Byte.byte)
  : outcome (list Byte.byte * list Byte.byte) :=
  if ((size <? - maxint py - 1) || (maxint py <? size))%Z
  then Raise OverflowError
  else if allocates py (buffer_size size rest) then
    if (size <? 0)%Z then Ok (rest, [])
    else Ok (take (Z.to_nat size) rest, drop (Z.to_nat size) rest)
  else Raise MemoryError.

(** [while block: yield block; block = handle.read(block_size)]: the blocks
    a consumer gets that asks until the generator is exhausted or raises,
    and how the generator ends. *)
Fixpoint blocks_loop (fuel : nat) (py : interpreter) (block_size : Z)
    (block rest : list Byte.byte) : list (list Byte.byte) * outcome unit :=
  match fuel with
  | O => ([], NoReturn)
  | S fuel' =>
      match block with
      | [] => ([], Ok tt)
      | _ :: _ =>
          match read py block_size rest with
          | Ok (block', rest') =>
              let '(bs, end_) :=
                blocks_loop fuel' py block_size block' rest' in
              (block :: bs, end_)
          | Raise e => ([block], Raise e)
          | NoReturn => ([block], NoReturn)
          end
      end
  end.

(** [blocks(filename, block_size)] on a host with [files]: [open] raises
    [IOError] when there is no such file. *)
Definition blocks (py : interpreter) (files : gmap string (list Byte.byte))
    (fuel : nat) (filename : string) (block_size : Z)
  : list (list Byte.byte) * outcome unit :=
  match files !! filename with
  | None => ([], Raise IOError)
  | Some content =>
      match read py block_size content with
      | Ok (block, rest) => blocks_loop fuel py block_size block rest
      | Raise e => ([], Raise e)
      | NoReturn => ([], NoReturn)
      end
  end.

(** *** Example: a file of five bytes, on a 64-bit interpreter that can
    allocate a gigabyte at once *)

Definition five_bytes : list Byte.byte :=
  [Byte.x00; Byte.x01; Byte.x02; Byte.x03; Byte.x04].

Definition host_files : gmap string (list Byte.byte) :=
  {[ "/tmp/image" := five_bytes ]}.

Definition cpython64 : interpreter :=
  {| maxint := 9223372036854775807;
     allocates := fun n => (n <=? 1073741824)%Z |}.

End Storage.

(* ===================================================================== *)
(** * Part II: facts *)
(* ===================================================================== *)

(** Closes [lhs = rhs] between closed terms by evaluating both sides. *)
Ltac vm_refl :=
  match goal with |- _ = ?r => vm_cast_no_check (@eq_refl _ r) end.

Module InterfaceFacts.
Import Interface Technique.

(** C10.  Assigning to attributes that the class of an object declares with
    [Parameter(...)] raises [AttributeError] each time and leaves the object
    as it was: its class, its [parameters] dictionary and everything else it
    holds. *)
Theorem parameter_assignment_is_refused :
  forall (obj : instance) (assignments : list (string * pyvalue)),
    Forall (fun av => is_parameter obj (fst av)) assignments ->
    assign_all assignments obj
    = (Ok (map (fun _ => Raise (AttributeError "Parameter dictionary is read-only"))
             assignments),
       obj)
    /\ dict (snd (assign_all assignments obj)) !! "parameters"
       = dict obj !! "parameters".
Proof.
  intros obj assignments H.
  assert (Hrun : assign_all assignments obj
    = (Ok (map (fun _ => Raise (AttributeError "Parameter dictionary is read-only"))
             assignments), obj)).
  { induction H as [|[attr value] l Hattr _ IH]; [done|].
    unfold is_parameter in Hattr. simpl in *. unfold setattr.
    destruct (type_lookup (klass obj) attr) as [[owner [b|name|name]]|];
      try done.
    unfold Parameter_set, raise. by rewrite IH. }
  by rewrite Hrun.
Qed.

Lemma parameter_assignment_is_refused_witness :
  assign_all [("domain_host", PStr "elsewhere"); ("vector_tag", PInt 7)]
    example_technique
  = (Ok [Raise (AttributeError "Parameter dictionary is read-only");
         Raise (AttributeError "Parameter dictionary is read-only")],
     example_technique)
  /\ dict example_technique !! "parameters" = Some acquisition_parameters.
Proof.
  split.
  - apply (parameter_assignment_is_refused example_technique
             [("domain_host", PStr "elsewhere"); ("vector_tag", PInt 7)]).
    apply Forall_cons_2; [|apply Forall_cons_2; [|apply Forall_nil_2]];
      vm_compute; exact I.
  - vm_refl.
Defined.

End InterfaceFacts.

Module TechniqueFacts.
Import Interface Technique.

(** Dispatch takes the first class of a list that defines the name. *)
Lemma find_in_app l1 l2 attr :
  find_in (l1 ++ l2) attr
  = match find_in l1 attr with
    | Some r => Some r
    | None => find_in l2 attr
    end.
Proof.
  induction l1 as [|n l1 IH]; [done|]. simpl.
  by destruct (cdict n !! attr).
Qed.

Lemma find_in_first l1 n l2 attr m :
  Forall (fun c => cdict c !! attr = None) l1 ->
  cdict n !! attr = Some m ->
  find_in (l1 ++ n :: l2) attr = Some (n, m).
Proof.
  intros H Hn. induction H as [|c l1 Hc _ IH]; simpl.
  - by rewrite Hn.
  - by rewrite Hc.
Qed.

(** What a successful selection of a behaviour tells. *)
Lemma behaviour_Ok table parameters key c :
  behaviour table parameters key = Ok c ->
  exists items s,
    parameters = PDict items /\ items !! key = Some (PStr s)
    /\ table !! s = Some c.
Proof.
  unfold behaviour, getitem. destruct parameters as [| | | | | |items]; try done.
  destruct (items !! key) as [v|] eqn:Hv; [|done]. simpl.
  destruct v as [| | | |s| |]; try done. simpl.
  destruct (table !! s) as [c'|] eqn:Hs; [|done].
  intros [= <-]. by exists items, s.
Qed.

(** A selection that fails does so with [KeyError], unless the parameters
    are not a dict or hold an unhashable value under the key. *)
Lemma behaviour_Raise table parameters key e :
  behaviour table parameters key = Raise e ->
  e = KeyError
  \/ (e = TypeError
      /\ forall items, parameters = PDict items ->
           exists v, items !! key = Some v /\ hashable v = false).
Proof.
  unfold behaviour, getitem.
  destruct parameters as [| | | | | |items]; simpl;
    try (intros [= <-]; right; split; [done|]; by intros items').
  destruct (items !! key) as [v|] eqn:Hv; simpl; [|intros [= <-]; by left].
  destruct v as [| | | |s| |]; simpl; try (intros [= <-]; by left).
  - destruct (table !! s); [done|]. intros [= <-]. by left.
  - intros [= <-]. right. split; [done|]. intros items' [= <-]. eauto.
  - intros [= <-]. right. split; [done|]. intros items' [= <-]. eauto.
Qed.

Lemma behaviour_returns table parameters key :
  behaviour table parameters key <> NoReturn.
Proof.
  unfold behaviour, getitem. destruct parameters as [| | | | | |items]; try done.
  destruct (items !! key) as [v|]; [|done]. simpl.
  destruct v as [| | | |s| |]; try done. simpl. by destruct (table !! s).
Qed.

Lemma acquisition_behaviours_Ok parameters ivb tkb vcb :
  acquisition_behaviours parameters = Ok (ivb, tkb, vcb) ->
  tkb = OpticalAcquisitionToolkit /\ vcb = FixedDriveAcquisitionVector
  /\ (ivb = ExecuteInterventionBehaviour \/ ivb = MonitorInterventionBehaviour).
Proof.
  unfold acquisition_behaviours.
  destruct (behaviour TOOLKIT_BEHAVIOURS _ _) as [t| |] eqn:Ht; try done.
  destruct (behaviour VECTOR_BEHAVIOURS _ _) as [v| |] eqn:Hv; try done.
  destruct (behaviour INTERVENTION_BEHAVIOURS _ _) as [i| |] eqn:Hi; try done.
  simpl. intros [= <- <- <-].
  apply behaviour_Ok in Ht as (? & s1 & _ & _ & H1).
  apply behaviour_Ok in Hv as (? & s2 & _ & _ & H2).
  apply behaviour_Ok in Hi as (? & s3 & _ & _ & H3).
  unfold TOOLKIT_BEHAVIOURS in H1. unfold VECTOR_BEHAVIOURS in H2.
  unfold INTERVENTION_BEHAVIOURS in H3.
  apply lookup_singleton_Some in H1 as [_ <-].
  apply lookup_singleton_Some in H2 as [_ <-].
  apply lookup_insert_Some in H3 as [[_ <-]|[_ H3]]; [auto|].
  apply lookup_singleton_Some in H3 as [_ <-]. auto.
Qed.

Lemma not_names_hashable parameters key keys :
  key ∈ keys ->
  (forall items, parameters = PDict items ->
     exists v, items !! key = Some v /\ hashable v = false) ->
  ~ names_hashable parameters keys.
Proof.
  intros Hkey Hbad (items & -> & Hall).
  destruct (Hbad items eq_refl) as (v & Hv & Hh).
  rewrite (Hall key v Hkey Hv) in Hh. done.
Qed.

Lemma acquisition_behaviours_Raise parameters e :
  acquisition_behaviours parameters = Raise e ->
  e = KeyError
  \/ (e = TypeError
      /\ ~ names_hashable parameters
             [TOOLKIT_BEHAVIOUR_KEY; VECTOR_BEHAVIOUR_KEY;
              INTERVENTION_BEHAVIOUR_KEY]).
Proof.
  unfold acquisition_behaviours.
  destruct (behaviour TOOLKIT_BEHAVIOURS _ _) as [t|e1|] eqn:Ht; simpl.
  2: { intros [= <-]. apply behaviour_Raise in Ht as [->|[-> Hbad]]; [by left|].
       right. split; [done|]. eapply not_names_hashable; [|exact Hbad].
       set_solver. }
  2: done.
  destruct (behaviour VECTOR_BEHAVIOURS _ _) as [v|e2|] eqn:Hv; simpl.
  2: { intros [= <-]. apply behaviour_Raise in Hv as [->|[-> Hbad]]; [by left|].
       right. split; [done|]. eapply not_names_hashable; [|exact Hbad].
       set_solver. }
  2: done.
  destruct (behaviour INTERVENTION_BEHAVIOURS _ _) as [i|e3|] eqn:Hi; simpl;
    try done.
  intros [= <-]. apply behaviour_Raise in Hi as [->|[-> Hbad]]; [by left|].
  right. split; [done|]. eapply not_names_hashable; [|exact Hbad]. set_solver.
Qed.

Lemma acquisition_behaviours_returns parameters :
  acquisition_behaviours parameters <> NoReturn.
Proof.
  unfold acquisition_behaviours.
  pose proof (behaviour_returns TOOLKIT_BEHAVIOURS parameters
                TOOLKIT_BEHAVIOUR_KEY).
  pose proof (behaviour_returns VECTOR_BEHAVIOURS parameters
                VECTOR_BEHAVIOUR_KEY).
  pose proof (behaviour_returns INTERVENTION_BEHAVIOURS parameters
                INTERVENTION_BEHAVIOUR_KEY).
  destruct (behaviour TOOLKIT_BEHAVIOURS _ _); try done.
  destruct (behaviour VECTOR_BEHAVIOURS _ _); try done.
  by destruct (behaviour INTERVENTION_BEHAVIOURS _ _).
Qed.

Lemma new_technique k parameters :
  type_lookup k "__init__" = Some (body_of Technique, Method Implemented) ->
  new k parameters
  = Ok {| klass := k;
          dict := <["output" := PDict ∅]> (<["parameters" := parameters]> ∅) |}.
Proof. intros H. unfold new. by rewrite H. Qed.

(** The class [type(...)] builds from the selected behaviours. *)
Lemma type_dynamic_acquisition ivb :
  ivb = ExecuteInterventionBehaviour \/ ivb = MonitorInterventionBehaviour ->
  type_ "DynamicAcquisitionTechnique"
    [ivb; OpticalAcquisitionToolkit; FixedDriveAcquisitionVector;
     AcquisitionTechnique] ∅
  = Ok {| body_of := {| cname := "DynamicAcquisitionTechnique"; cdict := ∅ |};
          ancestors :=
            [body_of ivb; body_of OpticalAcquisitionToolkit;
             body_of FixedDriveAcquisitionVector; body_of Behaviour;
             body_of AcquisitionTechnique; body_of Technique;
             body_of object_] |}.
Proof. intros [->| ->]; vm_refl. Qed.

Lemma type_dynamic_control db :
  db = FixedDelayBehaviour \/ db = RandomDelayBehaviour ->
  type_ "DynamicControlTechnique" [db; ControlTechnique] ∅
  = Ok {| body_of := {| cname := "DynamicControlTechnique"; cdict := ∅ |};
          ancestors :=
            [body_of db; body_of Behaviour; body_of ControlTechnique;
             body_of Technique; body_of object_] |}.
Proof. intros [->| ->]; vm_refl. Qed.

(** The object made from it. *)
Lemma dynamic_acquisition_technique ivb parameters :
  ivb = ExecuteInterventionBehaviour \/ ivb = MonitorInterventionBehaviour ->
  and_then
    (type_ "DynamicAcquisitionTechnique"
       [ivb; OpticalAcquisitionToolkit; FixedDriveAcquisitionVector;
        AcquisitionTechnique] ∅)
    (fun klass => new klass parameters)
  = Ok {| klass :=
            {| body_of := {| cname := "DynamicAcquisitionTechnique";
                             cdict := ∅ |};
               ancestors :=
                 [body_of ivb; body_of OpticalAcquisitionToolkit;
                  body_of FixedDriveAcquisitionVector; body_of Behaviour;
                  body_of AcquisitionTechnique; body_of Technique;
                  body_of object_] |};
          dict := <["output" := PDict ∅]> (<["parameters" := parameters]> ∅) |}.
Proof.
  intros Hivb. rewrite (type_dynamic_acquisition ivb Hivb). cbn [and_then].
  apply new_technique.
  destruct Hivb as [->| ->];
    vm_refl.
Qed.

Lemma dynamic_control_technique db parameters :
  db = FixedDelayBehaviour \/ db = RandomDelayBehaviour ->
  and_then
    (type_ "DynamicControlTechnique" [db; ControlTechnique] ∅)
    (fun klass => new klass parameters)
  = Ok {| klass :=
            {| body_of := {| cname := "DynamicControlTechnique"; cdict := ∅ |};
               ancestors :=
                 [body_of db; body_of Behaviour; body_of ControlTechnique;
                  body_of Technique; body_of object_] |};
          dict := <["output" := PDict ∅]> (<["parameters" := parameters]> ∅) |}.
Proof.
  intros Hdb. rewrite (type_dynamic_control db Hdb). cbn [and_then].
  apply new_technique.
  destruct Hdb as [->| ->];
    vm_refl.
Qed.

Ltac hook_resolved := vm_compute; discriminate.

(** C4, as amended.  Neither factory ever returns a technique with a
    required hook left on a [raise NotImplementedError()] stub: a factory
    either returns an object on whose class every required hook resolves to
    an implementation, or fails at construction time.  The failure is the
    composition error whenever the parameters are a dict whose behaviour
    names can be hashed; otherwise it can be the [TypeError] of the lookup,
    which the factories do not catch. *)
Theorem factory_never_returns_unresolved_hook :
  forall parameters,
    factory_sound acquisition_technique_factory acquisition_hooks
      [TOOLKIT_BEHAVIOUR_KEY; VECTOR_BEHAVIOUR_KEY; INTERVENTION_BEHAVIOUR_KEY]
      parameters
    /\ factory_sound control_technique_factory control_hooks
         [DELAY_BEHAVIOUR_KEY] parameters.
Proof.
  intros parameters. split.
  - unfold factory_sound, acquisition_technique_factory.
    destruct (acquisition_behaviours parameters) as [[[ivb tkb] vcb]|e|] eqn:Hb.
    + apply acquisition_behaviours_Ok in Hb as (-> & -> & Hivb).
      cbv zeta. rewrite (dynamic_acquisition_technique ivb parameters Hivb).
      cbn [klass]. unfold acquisition_hooks.
      destruct Hivb as [->| ->];
        repeat (apply Forall_cons_2; [hook_resolved|]); apply Forall_nil_2.
    + apply acquisition_behaviours_Raise in Hb as [->|[-> Hbad]]; auto.
    + by apply acquisition_behaviours_returns in Hb.
  - unfold factory_sound, control_technique_factory.
    destruct (behaviour DELAY_BEHAVIOURS parameters DELAY_BEHAVIOUR_KEY)
      as [db|e|] eqn:Hb.
    + apply behaviour_Ok in Hb as (? & s & _ & _ & Hs).
      unfold DELAY_BEHAVIOURS in Hs.
      assert (Hdb : db = FixedDelayBehaviour \/ db = RandomDelayBehaviour).
      { apply lookup_insert_Some in Hs as [[_ <-]|[_ Hs]]; [auto|].
        apply lookup_singleton_Some in Hs as [_ <-]. auto. }
      cbv zeta. rewrite (dynamic_control_technique db parameters Hdb).
      cbn [klass]. unfold control_hooks.
      destruct Hdb as [->| ->];
        repeat (apply Forall_cons_2; [hook_resolved|]); apply Forall_nil_2.
    + apply behaviour_Raise in Hb as [->|[-> Hbad]]; [by left|].
      right. split; [done|]. eapply not_names_hashable; [|exact Hbad].
      set_solver.
    + by apply behaviour_returns in Hb.
Qed.

(** No toolkit is selected by a name that is a list, no delay by a name
    that is a list or from parameters that are [None]: construction fails,
    with the [TypeError] of the lookup and not with the composition error,
    since the factories catch [KeyError] only. *)
Lemma factory_fails_with_type_error :
  acquisition_technique_factory toolkit_named_by_list = Raise TypeError
  /\ control_technique_factory delay_named_by_list = Raise TypeError
  /\ control_technique_factory parameters_left_empty = Raise TypeError
  /\ acquisition_technique_factory parameters_left_empty = Raise TypeError
  /\ TypeError <> CompositionError.
Proof. repeat split; [vm_refl..|discriminate]. Qed.

(** Every name [Behaviour] defines, the fixed-drive vector defines too. *)
Lemma Behaviour_shadowed attr m :
  cdict (body_of Behaviour) !! attr = Some m ->
  is_Some (cdict (body_of FixedDriveAcquisitionVector) !! attr).
Proof.
  assert (HB : cdict (body_of Behaviour)
               = <["allocate_behaviour" := Method Pass]>
                   (<["release_behaviour" := Method Pass]> ∅))
    by vm_refl.
  assert (Ha : cdict (body_of FixedDriveAcquisitionVector)
               !! "allocate_behaviour" = Some (Method Implemented))
    by vm_refl.
  assert (Hr : cdict (body_of FixedDriveAcquisitionVector)
               !! "release_behaviour" = Some (Method Implemented))
    by vm_refl.
  rewrite HB. intros H.
  apply lookup_insert_Some in H as [[<- _]|[_ H]]; [by rewrite Ha|].
  apply lookup_insert_Some in H as [[<- _]|[_ H]]; [by rewrite Hr|].
  by rewrite lookup_empty in H.
Qed.

(** C5.  When the three behaviours are selected, the factory returns an
    object whose class resolves names through the intervention, the toolkit,
    the vector and the base technique in that order: a name that one of the
    four defines is served by the first of them that defines it. *)
Theorem hook_served_by_first_provider :
  forall parameters ivb tkb vcb,
    acquisition_behaviours parameters = Ok (ivb, tkb, vcb) ->
    exists obj,
      acquisition_technique_factory parameters = Ok obj
      /\ map cname (mro (klass obj))
         = ["DynamicAcquisitionTechnique"; cname (body_of ivb);
            cname (body_of tkb); cname (body_of vcb); "Behaviour";
            "AcquisitionTechnique"; "Technique"; "object"]
      /\ forall hook provider m,
           first_provider [ivb; tkb; vcb; AcquisitionTechnique] hook
           = Some (provider, m) ->
           type_lookup (klass obj) hook = Some (provider, m).
Proof.
  intros parameters ivb tkb vcb Hb.
  unfold acquisition_technique_factory. rewrite Hb.
  apply acquisition_behaviours_Ok in Hb as (-> & -> & Hivb).
  cbv zeta. rewrite (dynamic_acquisition_technique ivb parameters Hivb).
  eexists. split; [reflexivity|]. cbn [klass]. split.
  { destruct Hivb as [->| ->]; vm_refl. }
  intros hook provider m. unfold first_provider, type_lookup, mro.
  cbn [body_of ancestors map find_in cdict]. rewrite lookup_empty.
  destruct (cdict (body_of ivb) !! hook); [done|].
  destruct (cdict (body_of OpticalAcquisitionToolkit) !! hook); [done|].
  destruct (cdict (body_of FixedDriveAcquisitionVector) !! hook) eqn:Hv;
    [done|].
  destruct (cdict (body_of Behaviour) !! hook) eqn:HB.
  - apply Behaviour_shadowed in HB. rewrite Hv in HB. by destruct HB.
  - by destruct (cdict (body_of AcquisitionTechnique) !! hook).
Qed.

Lemma hook_served_by_first_provider_witness :
  exists obj,
    acquisition_technique_factory acquisition_parameters = Ok obj
    /\ option_map (fun r => cname (fst r)) (type_lookup (klass obj) "acquire")
       = Some "ExecuteInterventionBehaviour".
Proof.
  destruct (hook_served_by_first_provider acquisition_parameters
              ExecuteInterventionBehaviour OpticalAcquisitionToolkit
              FixedDriveAcquisitionVector) as (obj & Hobj & _ & Hserve).
  - vm_refl.
  - exists obj. split; [exact Hobj|].
    rewrite (Hserve "acquire" (body_of ExecuteInterventionBehaviour)
               (Method Implemented)).
    + vm_refl.
    + vm_refl.
Defined.

End TechniqueFacts.

Module VolumeFacts.
Import Interface Volume.

Lemma set_pop_Ok h (s : gset string) x : set_pop h s = Ok x -> x ∈ s.
Proof.
  unfold set_pop.
  destruct (elements s !! _) as [y|] eqn:Hy; [|done].
  intros [= <-]. apply elem_of_elements. by eapply list_elem_of_lookup_2.
Qed.

Lemma set_pop_nonempty h (s : gset string) :
  s <> ∅ -> exists x, set_pop h s = Ok x.
Proof.
  intros Hs. unfold set_pop.
  assert (Hlen : length (elements s) <> 0).
  { intros Hl. apply Hs. apply leibniz_equiv, elements_empty_inv.
    by apply nil_length_inv. }
  destruct (lookup_lt_is_Some_2 (elements s)
              (pick h s mod length (elements s))) as [x Hx].
  { by apply Nat.mod_upper_bound. }
  exists x. by rewrite Hx.
Qed.

(** Every match of ["nbd[0-9]"] is [nbd] followed by one digit. *)
Lemma findall_nbd_elem n : forall s,
  String.length s <= n ->
  forall x, x ∈ findall_nbd s ->
  exists d, x = String "n" (String "b" (String "d" (String d "")))
            /\ is_digit d = true.
Proof.
  induction n as [|n IH]; intros s Hlen x Hx.
  - destruct s; simpl in *; [by apply elem_of_nil in Hx|lia].
  - destruct s as [|c0 [|c1 [|c2 [|c3 rest]]]];
      try (by apply elem_of_nil in Hx).
    cbn [findall_nbd] in Hx.
    destruct (Ascii.eqb c0 "n" && Ascii.eqb c1 "b" && Ascii.eqb c2 "d"
              && is_digit c3) eqn:Hc.
    + apply elem_of_cons in Hx as [->|Hx].
      * apply andb_true_iff in Hc as [Hc Hd].
        apply andb_true_iff in Hc as [Hc H2].
        apply andb_true_iff in Hc as [H0 H1].
        apply Ascii.eqb_eq in H0, H1, H2. subst. by exists c3.
      * apply (IH rest); [simpl in Hlen; lia|done].
    + apply (IH (String c1 (String c2 (String c3 rest))));
        [simpl in *; lia|done].
Qed.

Lemma path_join_dev device : exists t, path_join "/dev" device = String "/" t.
Proof.
  unfold path_join. destruct device as [|c t]; [by eexists|].
  destruct c as [[] [] [] [] [] [] [] []]; by eexists.
Qed.

Lemma path_join_dev_not_attached device h st :
  path_join "/dev" device ∉ attached_at h st.
Proof.
  intros Hin. apply elem_of_list_to_set in Hin.
  destruct (findall_nbd_elem _ _ (le_n _) _ Hin) as (d & Heq & _).
  destruct (path_join_dev device) as (t & Ht). congruence.
Qed.

(** C8.  When some node of the pool is not in the attached set read from
    [/proc/partitions], the node [attach] selects is in the pool and not in
    that set; [attach] returns its path under [/dev], which is not in the
    set either, when [qemu-nbd] exits with status 0, and raises otherwise. *)
Theorem attach_selects_unattached_device :
  forall h filename st,
    device_nodes h ∖ attached_at h st <> ∅ ->
    exists device,
      fst (available_device_node h st) = Ok device
      /\ device ∈ device_nodes h ∖ attached_at h st
      /\ (device ∉ attached_at h st)
      /\ match fst (attach h filename st) with
         | Ok target =>
             target = path_join "/dev" device /\ target ∉ attached_at h st
         | Raise e =>
             exists rc,
               e = CalledProcessError rc
                     ["qemu-nbd"; "-n"; "-c"; path_join "/dev" device;
                      realpath h filename]
               /\ rc <> 0%Z
         | NoReturn => False
         end.
Proof.
  intros h filename st Hfree.
  destruct (set_pop_nonempty h _ Hfree) as [device Hpop].
  pose proof (set_pop_Ok h _ _ Hpop) as Hin.
  exists device.
  unfold attach, available_device_node, attached_device_nodes,
    read_partitions, bind, lift, ret, check_call, act.
  cbn [fst snd reads log]. fold (attached_at h st).
  rewrite Hpop. cbn [fst snd reads log].
  split; [done|]. split; [done|].
  split; [by apply elem_of_difference in Hin as [_ ?]|].
  destruct (Z.eqb_spec (exit_status h (length (log st))
              ["qemu-nbd"; "-n"; "-c"; path_join "/dev" device;
               realpath h filename]) 0) as [Hrc|Hrc]; cbn [fst].
  - split; [done|]. apply path_join_dev_not_attached.
  - eexists. by split.
Qed.

Lemma attach_selects_unattached_device_witness :
  exists device,
    fst (available_device_node host_mount_fails initial) = Ok device
    /\ device ∉ attached_at host_mount_fails initial.
Proof.
  destruct (attach_selects_unattached_device host_mount_fails
              "/srv/vector.qcow2" initial) as (device & Hsel & _ & Hout & _).
  - intros Hempty.
    assert (Hin : "nbd1" ∈ device_nodes host_mount_fails
                           ∖ attached_at host_mount_fails initial).
    { apply elem_of_difference. split.
      - apply elem_of_list_to_set. vm_compute. apply list_elem_of_In. simpl. auto.
      - intros Hin. apply elem_of_list_to_set in Hin.
        vm_compute in Hin. apply list_elem_of_In in Hin. simpl in Hin.
        by destruct Hin as [?|[]]. }
    rewrite Hempty in Hin. by apply not_elem_of_empty in Hin.
  - exists device. split; [exact Hsel|exact Hout].
Defined.

(** C3, at the run where the code departs from it: [mount] fails after a
    successful [attach]; [transfer_acquired_image] raises what [mount]
    raised, one device was attached, and [detach] is never invoked. *)
Lemma transfer_leaks_device_when_mount_fails :
  transfer_acquired_image 5 host_mount_fails vector_instance initial
  = (Raise (CalledProcessError 32
              ["mount"; "-o"; "ro,force"; "/dev/nbd1p1"; "/tmp/tmp1.mount"]),
     {| reads := 2;
        log := [Run ["mount"; "-o"; "ro,force"; "/dev/nbd1p1";
                     "/tmp/tmp1.mount"];
                Mkdtemp "/tmp/tmp1.mount";
                Run ["qemu-nbd"; "-n"; "-c"; "/dev/nbd1";
                     "/srv/vector.qcow2"]] |})
  /\ attaches
       (log (snd (transfer_acquired_image 5 host_mount_fails vector_instance
                    initial))) = 1
  /\ detaches
       (log (snd (transfer_acquired_image 5 host_mount_fails vector_instance
                    initial))) = 0.
Proof. repeat split; vm_refl. Qed.

(** The same run through [FileSystemAnalyst.analyse], whose [finally]
    detaches the device. *)
Lemma analyse_detaches_when_mount_fails :
  fst (FileSystemAnalyst_analyse 5 host_mount_fails analyst_instance "id"
         initial)
  = Raise (CalledProcessError 32
             ["mount"; "-o"; "ro,force"; "/dev/nbd1p1"; "/tmp/tmp1.mount"])
  /\ attaches
       (log (snd (FileSystemAnalyst_analyse 5 host_mount_fails
                    analyst_instance "id" initial))) = 1
  /\ detaches
       (log (snd (FileSystemAnalyst_analyse 5 host_mount_fails
                    analyst_instance "id" initial))) = 1.
Proof. repeat split; vm_refl. Qed.

End VolumeFacts.

Module AgentFacts.
Import Agent.

(** *** Strings *)

Lemma str_app_cons x (a b : string) : String x a +:+ b = String x (a +:+ b).
Proof. reflexivity. Qed.

Lemma str_app_nil (b : string) : EmptyString +:+ b = b.
Proof. reflexivity. Qed.

Lemma str_app_assoc (a b c : string) : (a +:+ b) +:+ c = a +:+ (b +:+ c).
Proof.
  induction a as [|x a IH]; [done|]. rewrite !str_app_cons. by f_equal.
Qed.

Lemma str_length_app (a b : string) :
  String.length (a +:+ b) = String.length a + String.length b.
Proof.
  induction a as [|x a IH]; [done|]. rewrite str_app_cons. simpl. by f_equal.
Qed.

Lemma has_newline_app (a b : string) :
  has_newline (a +:+ b) = has_newline a || has_newline b.
Proof.
  induction a as [|x a IH]; [done|]. rewrite str_app_cons. simpl.
  by rewrite IH, orb_assoc.
Qed.

Lemma str_take_drop n : forall s, str_take n s +:+ str_drop n s = s.
Proof.
  induction n as [|n IH]; intros [|c s]; try done.
  simpl. rewrite str_app_cons. by f_equal.
Qed.

Lemma str_take_all n : forall s, String.length s <= n -> str_take n s = s.
Proof.
  induction n as [|n IH]; intros [|c s]; simpl; try done; [lia|].
  intros H. rewrite IH; [done|lia].
Qed.

Lemma str_length_drop n : forall s,
  String.length (str_drop n s) = String.length s - n.
Proof. induction n as [|n IH]; intros [|c s]; simpl; try done. Qed.

(** The first newline decides where the line ends. *)
Lemma split_line_first line rest :
  has_newline line = false ->
  split_line (line +:+ String newline rest) = Some (line, rest).
Proof.
  induction line as [|c line IH].
  - intros _. reflexivity.
  - rewrite str_app_cons. simpl. intros [Hc Hl]%orb_false_iff.
    by rewrite Hc, IH.
Qed.

Lemma split_line_app a b line rest :
  split_line a = Some (line, rest) ->
  split_line (a +:+ b) = Some (line, rest +:+ b).
Proof.
  revert line. induction a as [|c a IH]; intros line; [done|].
  rewrite str_app_cons. simpl.
  destruct (Ascii.eqb c newline); [by intros [= <- <-]|].
  destruct (split_line a) as [[l r]|]; [|done].
  intros [= <- <-]. by rewrite (IH l eq_refl).
Qed.

Lemma split_line_some a :
  has_newline a = true -> exists line rest, split_line a = Some (line, rest).
Proof.
  induction a as [|c a IH]; simpl; [done|].
  destruct (Ascii.eqb c newline); [by eauto|]. simpl. intros H.
  destruct (IH H) as (l & r & ->). eauto.
Qed.

(** *** The loop of [receive] *)

Lemma fill_spec fuel : forall c,
  has_newline (pending c) = true -> deliveries c <= fuel ->
  exists c',
    fill fuel c = (Ok tt, c') /\ has_newline (buffer c') = true
    /\ same_socket c c'.
Proof.
  induction fuel as [|fuel IH]; intros c Hnl Hfuel.
  - destruct (has_newline (buffer c)) eqn:Hb.
    + exists c. simpl. rewrite Hb. by repeat split.
    + exfalso. unfold pending in Hnl. rewrite has_newline_app, Hb in Hnl.
      unfold deliveries in Hfuel. destruct (incoming c); [done|].
      simpl in Hfuel. lia.
  - destruct (has_newline (buffer c)) eqn:Hb.
    + exists c. simpl. rewrite Hb. by repeat split.
    + cbn [fill]. rewrite Hb. unfold bind, recv, set_buffer.
      assert (Hn : 0 < 1024) by lia. revert Hn. generalize 1024. intros n Hn.
      unfold pending in Hnl. rewrite has_newline_app, Hb in Hnl.
      destruct (incoming c) as [|data later] eqn:Hin; [done|].
      cbn [buffer incoming].
      change (str_concat (data :: later))
        with (data +:+ str_concat later) in Hnl.
      rewrite orb_false_l, has_newline_app in Hnl.
      match goal with |- context [fill fuel ?c1] =>
        destruct (IH c1) as (c' & Hfill & Hnl' & Hp & Hs & Hw & Hpc & Ht)
      end.
      * unfold pending. cbn [buffer incoming].
        rewrite !has_newline_app, Hb, orb_false_l.
        destruct (Nat.leb_spec (String.length data) n) as [Hle|Hgt];
          cbv iota.
        -- by rewrite (str_take_all _ _ Hle).
        -- change (str_concat (str_drop n data :: later))
             with (str_drop n data +:+ str_concat later).
           rewrite has_newline_app, orb_assoc, <- has_newline_app.
           by rewrite str_take_drop.
      * unfold deliveries in *. cbn [incoming]. rewrite Hin in Hfuel.
        change (str_concat (data :: later))
          with (data +:+ str_concat later) in Hfuel.
        rewrite str_length_app in Hfuel. cbn [length] in Hfuel.
        destruct (Nat.leb_spec (String.length data) n) as [Hle|Hgt];
          cbv iota.
        -- lia.
        -- change (str_concat (str_drop n data :: later))
             with (str_drop n data +:+ str_concat later).
           rewrite str_length_app, str_length_drop. cbn [length]. lia.
      * exists c'. split; [exact Hfill|]. split; [done|].
        unfold same_socket. cbn [sent writable peer_closed sock_timeout] in *.
        repeat split; try done.
        rewrite Hp. unfold pending. cbn [buffer incoming]. rewrite Hin.
        rewrite str_app_assoc. f_equal.
        change (str_concat (data :: later)) with (data +:+ str_concat later).
        destruct (Nat.leb_spec (String.length data) n) as [Hle|Hgt];
          cbv iota.
        -- by rewrite (str_take_all _ _ Hle).
        -- change (str_concat (str_drop n data :: later))
             with (str_drop n data +:+ str_concat later).
           by rewrite <- str_app_assoc, str_take_drop.
Qed.

(** [receive] takes exactly the first line off the pending bytes and
    decodes it, however the bytes were delivered. *)
Lemma receive_spec json_loads fuel timeout c line rest :
  has_newline line = false ->
  pending c = line +:+ String newline rest ->
  deliveries c <= fuel ->
  exists c',
    receive json_loads fuel timeout c = (decode json_loads line, c')
    /\ pending c' = rest /\ sent c' = sent c /\ writable c' = writable c.
Proof.
  intros Hline Hpend Hfuel.
  unfold receive, try_finally, try_catch.
  unfold bind at 1. unfold settimeout at 1.
  set (c0 := {| buffer := buffer c; incoming := incoming c;
                peer_closed := peer_closed c; writable := writable c;
                sent := sent c; sock_timeout := timeout |}).
  destruct (fill_spec fuel c0) as (c1 & Hfill & Hnl & Hp & Hs & Hw & _).
  { change (pending c0) with (pending c). rewrite Hpend, has_newline_app.
    simpl. apply orb_true_r. }
  { exact Hfuel. }
  unfold bind at 1. rewrite Hfill.
  destruct (split_line_some _ Hnl) as (l & r & Hsplit).
  assert (Hlr : l = line /\ r +:+ str_concat (incoming c1) = rest).
  { pose proof (split_line_app _ (str_concat (incoming c1)) _ _ Hsplit) as H1.
    fold (pending c1) in H1. rewrite Hp in H1.
    change (pending c0) with (pending c) in H1.
    rewrite Hpend, (split_line_first _ _ Hline) in H1.
    by injection H1 as <- <-. }
  destruct Hlr as [-> Hrest].
  unfold bind at 1, take_line. rewrite Hsplit.
  unfold bind, set_buffer, ret, lift, decode, settimeout, raise.
  cbn [buffer incoming peer_closed writable sent sock_timeout].
  destruct (loads json_loads line) as [message|e|]; cbn [and_then].
  - destruct (interpret message) as [r'|e|]; [| |];
      try destruct (malformed e);
      eexists; (split; [reflexivity|]); unfold pending;
      cbn [buffer incoming sent writable]; by repeat split.
  - destruct (malformed e);
      eexists; (split; [reflexivity|]); unfold pending;
      cbn [buffer incoming sent writable]; by repeat split.
  - eexists; (split; [reflexivity|]); unfold pending;
      cbn [buffer incoming sent writable]; by repeat split.
Qed.

(** C7.  Two consoles whose pending bytes are the same, a line, its newline
    and whatever follows, however those bytes are spread over the buffer and
    over any number of deliveries on the socket: [receive] gives the same
    result on both, the decoding of that line, and leaves what follows the
    newline pending on both. *)
Theorem receive_independent_of_delivery :
  forall json_loads timeout1 timeout2 fuel1 fuel2 c1 c2 line rest,
    has_newline line = false ->
    pending c1 = line +:+ String newline rest ->
    pending c2 = pending c1 ->
    deliveries c1 <= fuel1 -> deliveries c2 <= fuel2 ->
    fst (receive json_loads fuel1 timeout1 c1) = decode json_loads line
    /\ fst (receive json_loads fuel2 timeout2 c2) = decode json_loads line
    /\ pending (snd (receive json_loads fuel1 timeout1 c1)) = rest
    /\ pending (snd (receive json_loads fuel2 timeout2 c2)) = rest.
Proof.
  intros json_loads timeout1 timeout2 fuel1 fuel2 c1 c2 line rest
    Hline Hp1 Hp2 Hf1 Hf2.
  rewrite Hp1 in Hp2.
  destruct (receive_spec json_loads fuel1 timeout1 c1 line rest Hline Hp1 Hf1)
    as (c1' & -> & Hr1 & _).
  destruct (receive_spec json_loads fuel2 timeout2 c2 line rest Hline Hp2 Hf2)
    as (c2' & -> & Hr2 & _).
  done.
Qed.

(** The reply to a status request, delivered in two pieces that split it
    inside the command name, and delivered whole. *)
Lemma receive_independent_of_delivery_witness :
  fst (receive Json.loads 100 None
         (Json.console_with
            [str_take 22 Json.empty_reply;
             str_drop 22 Json.empty_reply +:+ Json.nl]))
  = Ok (Reply (PStr "status") (PDict ∅))
  /\ fst (receive Json.loads 100 None
            (Json.console_with [Json.empty_reply +:+ Json.nl]))
     = Ok (Reply (PStr "status") (PDict ∅))
  /\ pending (snd (receive Json.loads 100 None
                     (Json.console_with
                        [str_take 22 Json.empty_reply;
                         str_drop 22 Json.empty_reply +:+ Json.nl])))
     = EmptyString.
Proof.
  destruct (receive_independent_of_delivery Json.loads None None 100 100
              (Json.console_with
                 [str_take 22 Json.empty_reply;
                  str_drop 22 Json.empty_reply +:+ Json.nl])
              (Json.console_with [Json.empty_reply +:+ Json.nl])
              Json.empty_reply EmptyString) as (H1 & H2 & H3 & _).
  - vm_refl.
  - vm_refl.
  - vm_refl.
  - vm_compute. lia.
  - vm_compute. lia.
  - rewrite H1, H2, H3. repeat split; vm_refl.
Defined.

(** [request] sends the encoded document and then a newline. *)
Lemma request_spec json_dumps command parameters c :
  writable c = true ->
  request json_dumps command parameters c
  = (Ok tt,
     {| buffer := buffer c; incoming := incoming c;
        peer_closed := peer_closed c; writable := writable c;
        sent := String newline EmptyString
                :: json_dumps (request_document command parameters)
                :: sent c;
        sock_timeout := None |}).
Proof.
  intros Hw. unfold request, try_finally, bind, settimeout, sendall.
  cbn [writable]. by rewrite Hw.
Qed.




End AgentFacts.

Module ExperimentFacts.
Import Experiment.

(** *** Counting in traces *)

Lemma count_app P (l1 l2 : list event) :
  count P (l1 ++ l2) = count P l1 + count P l2.
Proof. unfold count. by rewrite List.filter_app, length_app. Qed.

Lemma count_cons P e (l : list event) :
  count P (e :: l) = (if P e then 1 else 0) + count P l.
Proof. unfold count. simpl. by destruct (P e). Qed.

Lemma count_nil P : count P [] = 0.
Proof. done. Qed.

Lemma count_none P (l : list event) :
  Forall (fun e => P e = false) l -> count P l = 0.
Proof.
  induction 1 as [|e l He _ IH]; [done|].
  by rewrite count_cons, He, IH.
Qed.


(** *** Which events a statement adds to the trace *)

Lemma emits_ret {A} (a : A) Q : emits (ret a) Q.
Proof. intros st. by exists []. Qed.

Lemma emits_call e r (Q : event -> Prop) : Q e -> emits (call e r) Q.
Proof.
  intros He st. exists [e]. split; [done|]. split; [by constructor|].
  by destruct r.
Qed.

Lemma emits_mint w (Q : event -> Prop) : (forall u, Q (Uuid4 u)) -> emits (mint w) Q.
Proof.
  intros HQ st. exists [Uuid4 (uuid4 w (draws st))].
  split; [done|]. split; [by constructor|done].
Qed.

Lemma emits_bind {A B} (c : M state A) (k : A -> M state B) Q :
  emits c Q -> (forall a, emits (k a) Q) -> emits (bind c k) Q.
Proof.
  intros Hc Hk st. unfold bind.
  destruct (Hc st) as (evs & Htr & Hevs & Hnr).
  destruct (c st) as [[a| |] st1]; simpl in Htr, Hnr; try by exists evs.
  destruct (Hk a st1) as (evs' & Htr' & Hevs' & Hnr').
  exists (evs' ++ evs). rewrite Htr', Htr, app_assoc. split; [done|].
  split; [by apply Forall_app|done].
Qed.

Lemma emits_try_except {A} (c : M state A) h Q :
  emits c Q -> (forall e, emits (h e) Q) -> emits (try_except c h) Q.
Proof.
  intros Hc Hh st. unfold try_except.
  destruct (Hc st) as (evs & Htr & Hevs & Hnr).
  destruct (c st) as [[a|e|] st1]; simpl in Htr, Hnr; try by exists evs.
  destruct (Hh e st1) as (evs' & Htr' & Hevs' & Hnr').
  exists (evs' ++ evs). rewrite Htr', Htr, app_assoc. split; [done|].
  split; [by apply Forall_app|done].
Qed.

Lemma emits_for_each {X} (l : list X) (body : X -> M state unit) Q :
  (forall x, emits (body x) Q) -> emits (for_each l body) Q.
Proof.
  intros Hb. induction l as [|x l IH]; simpl.
  - apply emits_ret.
  - apply emits_bind; [apply Hb|]. by intros _.
Qed.

Lemma emits_mint_many w n (Q : event -> Prop) :
  (forall u, Q (Uuid4 u)) -> emits (mint_many w n) Q.
Proof.
  intros HQ. induction n as [|n IH]; simpl; [apply emits_ret|].
  apply emits_bind; [by apply emits_mint|]. intros u.
  apply emits_bind; [done|]. intros us. apply emits_ret.
Qed.

(** *** [release] against [allocate] *)

Lemma neutral_count evs p :
  Forall neutral evs ->
  count (is_allocate p) evs = 0 /\ count (is_release p) evs = 0.
Proof.
  intros H. split; apply count_none; eapply Forall_impl; try exact H;
    by intros [].
Qed.

(** The [try]/[except] part of the loop body calls [allocate] first, adds
    nothing but neutral events after it, and hands over to [finally]. *)
Lemma guarded_block_trace {A} pos r (rest : M state A) h st :
  emits rest neutral -> (forall e, emits (h e) neutral) ->
  exists evs,
    trace (snd (try_except (call (Allocate pos) r ;;; rest) h st))
      = evs ++ Allocate pos :: trace st
    /\ Forall neutral evs
    /\ fst (try_except (call (Allocate pos) r ;;; rest) h st) <> NoReturn.
Proof.
  intros Hrest Hh. unfold try_except, bind, call.
  set (st1 := {| trace := Allocate pos :: trace st; draws := draws st |}).
  destruct r as [x|].
  - destruct (Hh x st1) as (evs & Htr & Hevs & Hnr). by exists evs.
  - destruct (Hrest st1) as (evs & Htr & Hevs & Hnr).
    destruct (rest st1) as [[a|e|] st2]; simpl in Htr, Hnr; try by exists evs.
    destruct (Hh e st2) as (evs' & Htr' & Hevs' & Hnr').
    exists (evs' ++ evs). rewrite Htr', Htr, <- app_assoc. split; [done|].
    split; [by apply Forall_app|done].
Qed.

(** The loop body calls [allocate] and [release] once each at its own
    position, or neither when the technique cannot be constructed. *)
Lemma execute_balanced w l pos u ids st :
  exists evs,
    trace (snd (execute w l pos u ids st)) = evs ++ trace st
    /\ (forall p, count (is_release p) evs = count (is_allocate p) evs)
    /\ (forall p, count (is_allocate p) evs <= 1)
    /\ (forall p, p <> pos -> count (is_allocate p) evs = 0).
Proof.
  unfold execute. unfold bind at 1. unfold call at 1.
  destruct (on_construct (script w pos)) as [x|].
  { exists [GetTechnique pos]. repeat split; intros; cbn; lia. }
  set (st1 := {| trace := GetTechnique pos :: trace st; draws := draws st |}).
  unfold try_finally.
  match goal with |- context [try_except ?c ?h st1] =>
    destruct (guarded_block_trace pos (on_allocate (script w pos))
                (call (Sample pos) (on_sample (script w pos)) ;;;
                 for_each l (fun a => call (Analyse a pos u)
                                        (on_analyse (script w pos) a)) ;;;
                 ret ids)
                h st1) as (evs & Htr & Hevs & Hnr)
  end.
  { apply emits_bind; [by apply emits_call|]. intros _.
    apply emits_bind; [|intros; apply emits_ret].
    apply emits_for_each. intros a. by apply emits_call. }
  { intros e. apply emits_bind; [by apply emits_call|]. intros _.
    apply emits_bind; [apply emits_for_each; intros a; by apply emits_call|].
    intros _. apply emits_bind; [by apply emits_mint|]. intros; apply emits_ret. }
  match type of Htr with trace (snd ?X) = _ => destruct X as [o st2] end.
  simpl in Htr, Hnr.
  assert (Hfinal : exists o',
    (match o with
     | NoReturn => (NoReturn, st2)
     | _ => match call (Release pos) (on_release (script w pos)) st2 with
            | (Ok _, st'') => (o, st'')
            | (Raise e, st'') => (Raise e, st'')
            | (NoReturn, st'') => (NoReturn, st'')
            end
     end) = (o', {| trace := Release pos :: trace st2; draws := draws st2 |})).
  { unfold call. destruct o; try done; destruct (on_release _); eauto. }
  destruct Hfinal as (o' & ->). simpl. rewrite Htr.
  exists (Release pos :: evs ++ [Allocate pos; GetTechnique pos]).
  split; [subst st1; simpl; by rewrite <- app_assoc|].
  pose proof (fun p => neutral_count evs p Hevs) as Hn.
  repeat split; intros p; try intros Hp;
    rewrite ?count_cons, ?count_app, ?count_cons, ?count_nil;
    destruct (Hn p) as [Ha Hr]; rewrite ?Ha, ?Hr; simpl;
    destruct (Nat.eqb_spec pos p); try lia; congruence.
Qed.

(** The loop keeps [release] calls level with [allocate] calls, position by
    position, whichever way it ends. *)
Lemma conduct_loop_balanced w l fuel : forall pos ids st,
  (forall p, count (is_release p) (trace st) = count (is_allocate p) (trace st)) ->
  (forall p, count (is_allocate p) (trace st) <= 1) ->
  (forall p, pos <= p -> count (is_allocate p) (trace st) = 0) ->
  forall p,
    count (is_release p) (trace (snd (conduct_loop fuel w l pos ids st)))
    = count (is_allocate p) (trace (snd (conduct_loop fuel w l pos ids st)))
    /\ count (is_allocate p)
         (trace (snd (conduct_loop fuel w l pos ids st))) <= 1.
Proof.
  induction fuel as [|fuel IH]; intros pos ids st Hbal Hone Hfresh p; simpl;
    destruct (ids !! pos) as [u|]; simpl; try by split.
  unfold bind.
  destruct (execute_balanced w l pos u ids st) as (evs & Htr & Hb & H1 & H0).
  assert (Hstep :
    (forall q, count (is_release q) (evs ++ trace st)
               = count (is_allocate q) (evs ++ trace st))
    /\ (forall q, count (is_allocate q) (evs ++ trace st) <= 1)
    /\ (forall q, S pos <= q -> count (is_allocate q) (evs ++ trace st) = 0)).
  { repeat split; intros q; try intros Hq; rewrite !count_app.
    - by rewrite Hb, Hbal.
    - destruct (decide (q = pos)) as [->|Hne].
      + rewrite (Hfresh pos); [|lia]. specialize (H1 pos). lia.
      + rewrite (H0 q Hne). specialize (Hone q). lia.
    - rewrite H0, Hfresh; lia. }
  rewrite <- Htr in Hstep. destruct Hstep as (Hb' & H1' & H0').
  destruct (execute w l pos u ids st) as [[ids'|e|] st1]; simpl in *.
  - by apply IH.
  - by split.
  - by split.
Qed.

Lemma conduct_balanced fuel w definition :
  exists tr,
    trace (snd (conduct fuel w definition initial)) = tr
    /\ forall pos, count (is_release pos) tr = count (is_allocate pos) tr
                   /\ count (is_allocate pos) tr <= 1.
Proof.
  unfold conduct.
  set (n := Z.to_nat (executions definition)).
  unfold bind at 1.
  destruct (emits_mint_many w n neutral (fun _ => I) initial)
    as (evs0 & Htr0 & Hevs0 & Hnr0).
  rewrite app_nil_r in Htr0.
  destruct (mint_many w n initial) as [[ids|e|] st0]; simpl in Htr0, Hnr0;
    try (eexists; split; [reflexivity|]; intros pos; simpl; rewrite Htr0;
         destruct (neutral_count evs0 pos Hevs0) as [-> ->]; split; [done|lia]).
  unfold bind at 1.
  assert (Ha : emits (get_analysts w definition) neutral).
  { unfold get_analysts. apply emits_bind; [|intros; apply emits_ret].
    apply emits_for_each. intros a. by apply emits_call. }
  destruct (Ha st0) as (evs1 & Htr1 & Hevs1 & Hnr1).
  assert (Hpre : forall p, count (is_allocate p) (evs1 ++ trace st0) = 0
                           /\ count (is_release p) (evs1 ++ trace st0) = 0).
  { intros p. rewrite Htr0, !count_app.
    destruct (neutral_count evs0 p Hevs0) as [-> ->].
    by destruct (neutral_count evs1 p Hevs1) as [-> ->]. }
  destruct (get_analysts w definition st0) as [[l|e|] st1];
    simpl in Htr1, Hnr1;
    try (eexists; split; [reflexivity|]; intros pos; simpl; rewrite Htr1;
         destruct (Hpre pos) as [-> ->]; split; [done|lia]).
  unfold bind.
  assert (Hinv : forall p,
    count (is_release p) (trace (snd (conduct_loop fuel w l 0 ids st1)))
    = count (is_allocate p) (trace (snd (conduct_loop fuel w l 0 ids st1)))
    /\ count (is_allocate p)
         (trace (snd (conduct_loop fuel w l 0 ids st1))) <= 1).
  { apply conduct_loop_balanced; intros p; try intros _; rewrite Htr1;
      destruct (Hpre p) as [Hpa Hpr]; rewrite ?Hpa, ?Hpr; lia. }
  destruct (conduct_loop fuel w l 0 ids st1) as [[[]|e|] st2];
    simpl in Hinv; try (eexists; split; [reflexivity|]; apply Hinv).
  assert (Hc : emits (for_each l (fun a => call (Collate a) (on_collate w a)))
                 neutral).
  { apply emits_for_each. intros a. by apply emits_call. }
  destruct (Hc st2) as (evs3 & Htr3 & Hevs3 & _).
  eexists; split; [reflexivity|]. intros pos.
  rewrite Htr3, !count_app.
  destruct (neutral_count evs3 pos Hevs3) as [-> ->]. apply Hinv.
Qed.

(** C2.  In every run of [conduct], however it ends (normally, by an
    exception that escapes the loop, or still running when the fuel is
    spent) and whatever raises in [allocate], [sample], [analyse] or
    [discard], each technique instance has had [release] invoked exactly as
    often as [allocate], and at most once. *)
Theorem release_once_per_allocate :
  forall fuel w definition pos,
    let tr := trace (snd (conduct fuel w definition initial)) in
    count (is_release pos) tr = count (is_allocate pos) tr
    /\ count (is_allocate pos) tr <= 1.
Proof.
  intros fuel w definition pos tr.
  destruct (conduct_balanced fuel w definition) as (tr' & Heq & H).
  subst tr. rewrite Heq. apply H.
Qed.

(** *** The identities minted *)

Lemma keeps_ret {A} J (a : A) : keeps J (ret a).
Proof. by intros st. Qed.

Lemma keeps_call J e r : (forall st, J st -> J (push e st)) -> keeps J (call e r).
Proof. intros H st Hst. by apply H. Qed.

Lemma keeps_bind {A B} J (c : M state A) (k : A -> M state B) :
  keeps J c -> (forall a, keeps J (k a)) -> keeps J (bind c k).
Proof.
  intros Hc Hk st Hst. unfold bind. specialize (Hc st Hst).
  destruct (c st) as [[a|e|] st1]; simpl in *; try done. by apply Hk.
Qed.

Lemma keeps_try_except {A} J (c : M state A) h :
  keeps J c -> (forall e, keeps J (h e)) -> keeps J (try_except c h).
Proof.
  intros Hc Hh st Hst. unfold try_except. specialize (Hc st Hst).
  destruct (c st) as [[a|e|] st1]; simpl in *; try done. by apply Hh.
Qed.

Lemma keeps_try_finally {A} J (c : M state A) f :
  keeps J c -> keeps J f -> keeps J (try_finally c f).
Proof.
  intros Hc Hf st Hst. unfold try_finally. specialize (Hc st Hst).
  destruct (c st) as [[a|e|] st1]; simpl in *; try done;
    specialize (Hf st1 Hc); by destruct (f st1) as [[[]|e'|] st2].
Qed.

Lemma keeps_for_each {X} J (l : list X) (body : X -> M state unit) :
  (forall x, keeps J (body x)) -> keeps J (for_each l body).
Proof.
  intros Hb. induction l as [|x l IH]; simpl; [apply keeps_ret|].
  apply keeps_bind; [apply Hb|]. by intros _.
Qed.

Lemma keeps_execute J w l pos u ids :
  (forall e st, at_position pos u e -> J st -> J (push e st)) ->
  keeps J (mint w) ->
  keeps J (execute w l pos u ids).
Proof.
  intros Hev Hmint. unfold execute.
  apply keeps_bind; [by apply keeps_call; intros; apply Hev|]. intros _.
  apply keeps_try_finally; [|by apply keeps_call; intros; apply Hev].
  apply keeps_try_except.
  - apply keeps_bind; [by apply keeps_call; intros; apply Hev|]. intros _.
    apply keeps_bind; [by apply keeps_call; intros; apply Hev|]. intros _.
    apply keeps_bind; [|intros; apply keeps_ret].
    apply keeps_for_each. intros a. by apply keeps_call; intros; apply Hev.
  - intros _.
    apply keeps_bind; [by apply keeps_call; intros; apply Hev|]. intros _.
    apply keeps_bind.
    { apply keeps_for_each. intros a. by apply keeps_call; intros; apply Hev. }
    intros _. apply keeps_bind; [done|]. intros; apply keeps_ret.
Qed.

Lemma minted_cons e tr :
  minted (e :: tr) = minted tr ++ match e with Uuid4 u => [u] | _ => [] end.
Proof. unfold minted. simpl. rewrite omap_app. by destruct e. Qed.

Lemma fresh_push w e st : is_uuid4 e = false -> fresh w st -> fresh w (push e st).
Proof.
  unfold fresh, push. cbn [trace draws]. intros He <-. rewrite minted_cons.
  destruct e; try done; by rewrite app_nil_r.
Qed.

Lemma fresh_mint w : keeps (fresh w) (mint w).
Proof.
  intros st Hst. unfold fresh, mint in *. cbn [snd trace draws].
  by rewrite minted_cons, Hst, seq_S, map_app.
Qed.

Lemma used_ok_push w pos e st :
  at_position pos (uuid4 w pos) e -> used_ok w st -> used_ok w (push e st).
Proof.
  intros He Hst p u. unfold used. simpl.
  destruct e; simpl in *; try apply Hst; destruct He as [-> ->];
    rewrite elem_of_cons; (intros [[= -> ->]|Hin]; [done|by apply Hst]).
Qed.

Lemma used_ok_mint w : keeps (used_ok w) (mint w).
Proof. intros st Hst p u. simpl. apply Hst. Qed.

Lemma keeps_draws {X} d (E : X -> event) r (l : list X) :
  keeps (fun st => draws st = d) (for_each l (fun a => call (E a) (r a))).
Proof. apply keeps_for_each. intros a. by apply keeps_call. Qed.

(** The loop body leaves [identities] alone, or appends the next draw. *)
Lemma execute_identities w l pos u ids st ids' st' :
  execute w l pos u ids st = (Ok ids', st') ->
  (ids' = ids /\ draws st' = draws st)
  \/ (ids' = ids ++ [uuid4 w (draws st)] /\ draws st' = S (draws st)).
Proof.
  unfold execute.
  set (loopA := for_each l (fun a => call (Analyse a pos u)
                                       (on_analyse (script w pos) a))).
  set (loopD := for_each l (fun a => call (Discard a pos u)
                                       (on_discard (script w pos) a))).
  assert (Hd : forall st0, draws (snd (loopD st0)) = draws st0).
  { intros st0. by apply (keeps_draws (draws st0)). }
  assert (Ha : forall st0, draws (snd (loopA st0)) = draws st0).
  { intros st0. by apply (keeps_draws (draws st0)). }
  clearbody loopA loopD.
  unfold bind, try_finally, try_except, mint, ret, call.
  destruct (on_construct (script w pos)); [done|].
  assert (Hhandler : forall s0 ids0 st0,
    (let (r, st1) :=
       let (o, st1) := loopD s0 in
       match o with
       | Ok _ => (Ok (ids ++ [uuid4 w (draws st1)]),
                  {| trace := Uuid4 (uuid4 w (draws st1)) :: trace st1;
                     draws := S (draws st1) |})
       | Raise e0 => (Raise e0, st1)
       | NoReturn => (NoReturn, st1)
       end in
     match r with
     | NoReturn => (NoReturn, st1)
     | _ => match match on_release (script w pos) with
                  | Some x => Raise x
                  | None => Ok ()
                  end with
            | Ok _ => (r, {| trace := Release pos :: trace st1; draws := draws st1 |})
            | Raise e1 => (Raise e1, {| trace := Release pos :: trace st1; draws := draws st1 |})
            | NoReturn => (NoReturn, {| trace := Release pos :: trace st1; draws := draws st1 |})
            end
     end) = (Ok ids0, st0) ->
    ids0 = ids ++ [uuid4 w (draws s0)] /\ draws st0 = S (draws s0)).
  { intros s0 ids0 st0. specialize (Hd s0).
    destruct (loopD s0) as [[[]|e'|] st3]; simpl in *;
      destruct (on_release (script w pos)); intros [= <- <-]; simpl;
      split; congruence. }
  destruct (on_allocate (script w pos)); [|destruct (on_sample (script w pos))];
    simpl.
  - intros H. right. by apply Hhandler in H.
  - intros H. right. by apply Hhandler in H.
  - match goal with |- context [loopA ?s] =>
      specialize (Ha s); destruct (loopA s) as [[[]|e|] st2]
    end; simpl in *.
    + destruct (on_release (script w pos)); intros [= <- <-]; simpl; auto.
    + intros H. right. apply Hhandler in H. simpl in H. by rewrite <- Ha.
    + done.
Qed.

(** The loop keeps minting in step with the UUID source and hands each
    position the draw of its own number. *)
Lemma conduct_loop_identities w l fuel : forall pos ids st,
  ids = map (uuid4 w) (seq 0 (draws st)) ->
  fresh w st /\ used_ok w st ->
  fresh w (snd (conduct_loop fuel w l pos ids st))
  /\ used_ok w (snd (conduct_loop fuel w l pos ids st)).
Proof.
  induction fuel as [|fuel IH]; intros pos ids st Hids [Hf Hu]; simpl;
    destruct (ids !! pos) as [u|] eqn:Hpos; simpl; try done.
  assert (Hu_pos : u = uuid4 w pos).
  { rewrite Hids, list_lookup_fmap in Hpos.
    destruct (seq 0 (draws st) !! pos) as [q|] eqn:Hq; [|done].
    apply lookup_seq in Hq as [-> _]. simpl in Hpos. congruence. }
  subst u. unfold bind.
  pose proof (keeps_execute (fresh w) w l pos (uuid4 w pos) ids) as Hkf.
  pose proof (keeps_execute (used_ok w) w l pos (uuid4 w pos) ids) as Hku.
  specialize (Hkf (fun e st0 He => fresh_push w e st0
                     ltac:(by destruct e)) (fresh_mint w) st Hf).
  specialize (Hku (fun e st0 He => used_ok_push w pos e st0 He)
                  (used_ok_mint w) st Hu).
  pose proof (execute_identities w l pos (uuid4 w pos) ids st) as Hids'.
  destruct (execute w l pos (uuid4 w pos) ids st) as [[ids'|e|] st1];
    simpl in *; try done.
  apply IH; try done.
  destruct (Hids' ids' st1 eq_refl) as [[-> ->]|[-> ->]]; [done|].
  by rewrite seq_S, map_app, <- Hids.
Qed.

Lemma mint_many_identities w n : forall st,
  identities_ok w st ->
  identities_ok w (snd (mint_many w n st))
  /\ forall ids, fst (mint_many w n st) = Ok ids ->
       map (uuid4 w) (seq 0 (draws st)) ++ ids
       = map (uuid4 w) (seq 0 (draws (snd (mint_many w n st)))).
Proof.
  induction n as [|n IH]; intros st [Hf Hu]; simpl.
  - split; [done|]. intros ids [= <-]. by rewrite app_nil_r.
  - unfold bind, mint. cbn beta iota.
    set (st1 := {| trace := Uuid4 (uuid4 w (draws st)) :: trace st;
                   draws := S (draws st) |}).
    destruct (IH st1) as (Hok & Hids).
    { split; [by apply (fresh_mint w st)|by apply (used_ok_mint w st)]. }
    destruct (mint_many w n st1) as [[us|e|] st2]; cbn [fst snd] in *;
      try done.
    split; [done|]. intros ids [= <-].
    change (draws (snd (ret (uuid4 w (draws st) :: us) st2))) with (draws st2).
    rewrite <- (Hids us eq_refl). subst st1. cbn [draws].
    by rewrite seq_S, map_app, <- app_assoc.
Qed.

Lemma identities_ok_push w e st :
  match e with NewAnalyst _ | Collate _ => True | _ => False end ->
  identities_ok w st -> identities_ok w (push e st).
Proof.
  intros He [Hf Hu]. split.
  - apply fresh_push; [by destruct e|done].
  - intros p u Hin. apply Hu. by destruct e.
Qed.

Lemma conduct_identities fuel w definition :
  identities_ok w (snd (conduct fuel w definition initial)).
Proof.
  unfold conduct.
  set (n := Z.to_nat (executions definition)).
  unfold bind at 1.
  destruct (mint_many_identities w n initial) as (Hok0 & Hids0).
  { split; [done|]. intros p u Hin. inversion Hin. }
  destruct (mint_many w n initial) as [[ids|e|] st0]; simpl in *; try done.
  specialize (Hids0 ids eq_refl).
  unfold bind at 1.
  assert (Ha : keeps (fun st => ids = map (uuid4 w) (seq 0 (draws st))
                                /\ identities_ok w st)
                 (get_analysts w definition)).
  { unfold get_analysts. apply keeps_bind; [|intros; apply keeps_ret].
    apply keeps_for_each. intros a. apply keeps_call.
    intros st (? & ?). split; [done|]. by apply identities_ok_push. }
  specialize (Ha st0 (conj Hids0 Hok0)).
  destruct (get_analysts w definition st0) as [[l|e|] st1];
    simpl in Ha; destruct Ha as (Hids1 & Hf1 & Hu1); try done.
  unfold bind.
  pose proof (conduct_loop_identities w l fuel 0 ids st1 Hids1
                (conj Hf1 Hu1)) as Hok2.
  destruct (conduct_loop fuel w l 0 ids st1) as [[[]|e|] st2];
    simpl in *; try done.
  assert (Hc : keeps (identities_ok w)
                 (for_each l (fun a => call (Collate a) (on_collate w a)))).
  { apply keeps_for_each. intros a. apply keeps_call.
    intros st. by apply identities_ok_push. }
  by apply (Hc st2).
Qed.

(** C9, as amended.  The identities [conduct] mints are the successive draws
    of [uuid.uuid4()], and the analysts are handed, at each position of the
    queue, the draw of that number; so when the UUID source never repeats a
    value, no identity is used at two positions and none is minted twice.
    Nothing orders the draws. *)
Theorem identities_unique_in_minting_order :
  forall fuel w definition,
    (forall i j, uuid4 w i = uuid4 w j -> i = j) ->
    let st := snd (conduct fuel w definition initial) in
    minted (trace st) = map (uuid4 w) (seq 0 (draws st))
    /\ NoDup (minted (trace st))
    /\ (forall p u, (p, u) ∈ used (trace st) -> u = uuid4 w p)
    /\ (forall p q u, (p, u) ∈ used (trace st) -> (q, u) ∈ used (trace st) ->
                      p = q).
Proof.
  intros fuel w definition Hinj st.
  destruct (conduct_identities fuel w definition) as [Hf Hu].
  fold st in Hf, Hu. split; [exact Hf|]. split; [|split; [exact Hu|]].
  - rewrite Hf. apply NoDup_fmap_2; [|apply NoDup_seq].
    intros i j. apply Hinj.
  - intros p q u Hp Hq. apply Hinj.
    by rewrite <- (Hu p u Hp), <- (Hu q u Hq).
Qed.

Lemma identities_unique_in_minting_order_witness :
  let st := snd (conduct 5 world_sample_fails_once (two_analysts 1) initial) in
  minted (trace st) = [100%Z; 101%Z] /\ NoDup (minted (trace st)).
Proof.
  destruct (identities_unique_in_minting_order 5 world_sample_fails_once
              (two_analysts 1)) as (_ & H & _).
  - intros i j Hij. cbn [uuid4 world_sample_fails_once] in Hij. lia.
  - split; [vm_compute; reflexivity|exact H].
Defined.

(** A run in which nothing fails and the two identities minted are not in
    increasing order. *)
Lemma identities_not_increasing :
  fst (conduct 5 world_descending (two_analysts 2) initial) = Ok tt
  /\ minted (trace (snd (conduct 5 world_descending (two_analysts 2) initial)))
     = [1000%Z; 999%Z]
  /\ increasing
       (minted (trace (snd (conduct 5 world_descending (two_analysts 2)
                                   initial)))) = false.
Proof. vm_compute. auto. Qed.

(** *** Failures and their replacements *)






(** A loop of calls none of which raises makes them all, in order. *)
Lemma for_each_call_ok {X} (E : X -> event) r (l : list X) : forall st,
  (forall a, a ∈ l -> r a = None) ->
  for_each l (fun a => call (E a) (r a)) st
  = (Ok tt, {| trace := rev (map E l) ++ trace st; draws := draws st |}).
Proof.
  induction l as [|x l IH]; intros st Hr; simpl.
  - by destruct st.
  - unfold bind, call at 1. rewrite (Hr x) by apply list_elem_of_here.
    rewrite IH by (intros a Ha; apply Hr; by apply list_elem_of_further).
    simpl. by rewrite <- app_assoc.
Qed.





(** *** Counting the calls of one loop body *)



(** Among calls made once for each analyst of [l], one is for [a]. *)
Lemma count_calls (E : nat -> event) P a (l : list nat) :
  (forall a', P (E a') = Nat.eqb a' a) -> NoDup l ->
  count P (map E l) = if bool_decide (a ∈ l) then 1 else 0.
Proof.
  intros HP. induction 1 as [|x l Hx Hnd IH]; [done|].
  simpl. rewrite count_cons, HP, IH.
  destruct (Nat.eqb_spec x a) as [->|Hne].
  - rewrite (bool_decide_eq_false_2 _ Hx).
    by rewrite bool_decide_eq_true_2 by apply list_elem_of_here.
  - destruct (bool_decide_reflect (a ∈ l)) as [Hin|Hin].
    + by rewrite bool_decide_eq_true_2 by by apply list_elem_of_further.
    + rewrite bool_decide_eq_false_2; [done|].
      intros [?|?]%elem_of_cons; congruence.
Qed.

Lemma count_calls_le (E : nat -> event) P a (l : list nat) :
  (forall a', P (E a') = Nat.eqb a' a) -> NoDup l -> count P (map E l) <= 1.
Proof.
  intros HP Hnd. rewrite (count_calls E P a l HP Hnd).
  destruct (bool_decide (a ∈ l)); lia.
Qed.


Lemma Forall_rev_map {X} (Q : event -> Prop) (E : X -> event) (l : list X) :
  (forall a, Q (E a)) -> Forall Q (rev (map E l)).
Proof.
  intros HQ. apply List.Forall_forall. intros e Hin.
  apply in_rev, in_map_iff in Hin as (a & <- & _). apply HQ.
Qed.




(** The list comprehension draws [n] identities. *)
Lemma mint_many_spec w n : forall st,
  mint_many w n st
  = (Ok (map (uuid4 w) (seq (draws st) n)),
     {| trace := rev (map (fun d => Uuid4 (uuid4 w d)) (seq (draws st) n))
                 ++ trace st;
        draws := draws st + n |}).
Proof.
  induction n as [|n IH]; intros st; simpl.
  - unfold ret. rewrite Nat.add_0_r. by destruct st.
  - unfold bind, mint. rewrite IH. simpl.
    by rewrite <- app_assoc, Nat.add_succ_r.
Qed.




End ExperimentFacts.

Module ConsoleFacts.
Import Agent AgentFacts.

Lemma str_app_nil_r (a : string) : a +:+ EmptyString = a.
Proof.
  induction a as [|x a IH]; [done|]. by rewrite str_app_cons, IH.
Qed.

(** One turn of the loop of [receive]: what [recv] returned is appended to
    the buffer. *)
Lemma recv_turn n c :
  0 < n ->
  match recv n c with
  | (Ok data, c') =>
      buffer c' = buffer c
      /\ (buffer c' +:+ data) +:+ str_concat (incoming c') = pending c
      /\ sent c' = sent c /\ writable c' = writable c
      /\ peer_closed c' = peer_closed c /\ sock_timeout c' = sock_timeout c
      /\ match incoming c with
         | [] => peer_closed c = true /\ data = EmptyString /\ incoming c' = []
         | _ :: _ => deliveries c' < deliveries c
         end
  | (Raise e, c') =>
      e = SocketTimeout /\ c' = c /\ incoming c = []
      /\ peer_closed c = false /\ is_Some (sock_timeout c)
  | (NoReturn, c') =>
      c' = c /\ incoming c = [] /\ peer_closed c = false
      /\ sock_timeout c = None
  end.
Proof.
  intros Hn. unfold recv, pending, deliveries.
  destruct (incoming c) as [|data later] eqn:Hin.
  - destruct (peer_closed c) eqn:Hpc.
    + rewrite Hin. by rewrite str_app_nil_r.
    + destruct (sock_timeout c) eqn:Ht; by eauto 10.
  - cbn [buffer incoming sent writable peer_closed sock_timeout].
    change (str_concat (data :: later)) with (data +:+ str_concat later).
    repeat split; try done.
    + rewrite str_app_assoc. f_equal.
      destruct (Nat.leb_spec (String.length data) n) as [Hle|Hgt]; cbv iota.
      * by rewrite (str_take_all _ _ Hle).
      * change (str_concat (str_drop n data :: later))
          with (str_drop n data +:+ str_concat later).
        by rewrite <- str_app_assoc, str_take_drop.
    + rewrite str_length_app. cbn [length].
      destruct (Nat.leb_spec (String.length data) n) as [Hle|Hgt]; cbv iota.
      * lia.
      * change (str_concat (str_drop n data :: later))
          with (str_drop n data +:+ str_concat later).
        rewrite str_length_app, str_length_drop. cbn [length]. lia.
Qed.

(** The loop of [receive] moves bytes from the socket to the buffer and
    does nothing else, however it ends. *)
Lemma fill_frame fuel : forall c,
  same_socket c (snd (fill fuel c))
  /\ deliveries (snd (fill fuel c)) <= deliveries c.
Proof.
  induction fuel as [|fuel IH]; intros c.
  - simpl. destruct (has_newline (buffer c)); by repeat split.
  - cbn [fill]. destruct (has_newline (buffer c)) eqn:Hb;
      [by repeat split|].
    unfold bind.
    assert (Hn : 0 < 1024) by lia. revert Hn. generalize 1024. intros n Hn.
    pose proof (recv_turn n c Hn) as Hturn.
    destruct (recv n c) as [[data|e|] c1].
    + destruct Hturn as (Hbuf & Hp & Hs & Hw & Hpc & Ht & Hin).
      unfold set_buffer at 1.
      match goal with |- context [fill fuel ?c2] =>
        destruct (IH c2) as [(Hp' & Hs' & Hw' & Hpc' & Ht') Hd']
      end.
      cbn [sent writable peer_closed sock_timeout] in *.
      split.
      * unfold same_socket. rewrite Hp', Hs', Hw', Hpc', Ht'.
        unfold pending at 1. cbn [buffer incoming]. by rewrite Hp.
      * etrans; [exact Hd'|]. unfold deliveries at 1. cbn [incoming].
        fold (deliveries c1).
        destruct (incoming c) eqn:Hc.
        -- destruct Hin as (_ & _ & Hi). unfold deliveries.
           rewrite Hi. simpl. lia.
        -- lia.
    + destruct Hturn as (_ & -> & _). by repeat split.
    + destruct Hturn as (-> & _). by repeat split.
Qed.

(** Without a newline among the pending bytes the loop does not end by
    itself: it stops on the timeout of the socket, which takes an open
    stream and a timeout, or not at all. *)
Lemma fill_no_line fuel : forall c,
  has_newline (pending c) = false ->
  fst (fill fuel c) = NoReturn
  \/ (fst (fill fuel c) = Raise SocketTimeout
      /\ peer_closed c = false /\ is_Some (sock_timeout c)
      /\ incoming (snd (fill fuel c)) = []).
Proof.
  induction fuel as [|fuel IH]; intros c Hnl.
  - assert (Hb : has_newline (buffer c) = false).
    { unfold pending in Hnl. rewrite has_newline_app in Hnl.
      by apply orb_false_iff in Hnl as [? _]. }
    simpl. rewrite Hb. by left.
  - assert (Hb : has_newline (buffer c) = false).
    { unfold pending in Hnl. rewrite has_newline_app in Hnl.
      by apply orb_false_iff in Hnl as [? _]. }
    cbn [fill]. rewrite Hb. unfold bind.
    assert (Hn : 0 < 1024) by lia. revert Hn. generalize 1024. intros n Hn.
    pose proof (recv_turn n c Hn) as Hturn.
    destruct (recv n c) as [[data|e|] c1].
    + destruct Hturn as (Hbuf & Hp & Hs & Hw & Hpc & Ht & Hin).
      unfold set_buffer at 1.
      match goal with |- context [fill fuel ?c2] =>
        destruct (IH c2) as [Hno|(Hto & Hpc' & Ht' & Hi')]
      end.
      * unfold pending. cbn [buffer incoming]. by rewrite Hp.
      * by left.
      * right. cbn [peer_closed sock_timeout] in *.
        by rewrite <- Hpc, <- Ht.
    + destruct Hturn as (-> & -> & Hi & Hpc & Ht). by right.
    + by left.
Qed.

(** With an open stream, a timeout and fuel for every delivery, the loop
    ends on the timeout. *)
Lemma fill_times_out fuel : forall c,
  has_newline (pending c) = false -> peer_closed c = false ->
  is_Some (sock_timeout c) -> deliveries c < fuel ->
  fst (fill fuel c) = Raise SocketTimeout.
Proof.
  induction fuel as [|fuel IH]; intros c Hnl Hopen Hto Hfuel; [lia|].
  assert (Hb : has_newline (buffer c) = false).
  { unfold pending in Hnl. rewrite has_newline_app in Hnl.
    by apply orb_false_iff in Hnl as [? _]. }
  cbn [fill]. rewrite Hb. unfold bind.
  assert (Hn : 0 < 1024) by lia. revert Hn. generalize 1024. intros n Hn.
  pose proof (recv_turn n c Hn) as Hturn.
  destruct (recv n c) as [[data|e|] c1].
  - destruct Hturn as (Hbuf & Hp & Hs & Hw & Hpc & Ht & Hin).
    unfold set_buffer at 1. apply IH.
    + unfold pending. cbn [buffer incoming]. by rewrite Hp.
    + cbn [peer_closed]. congruence.
    + cbn [sock_timeout]. by rewrite Ht.
    + unfold deliveries at 1. cbn [incoming]. fold (deliveries c1).
      destruct (incoming c); [|lia].
      destruct Hin as (Hc & _). congruence.
  - by destruct Hturn as (-> & _).
  - destruct Hturn as (_ & _ & _ & Ht). rewrite Ht in Hto.
    by destruct Hto.
Qed.


Lemma no_newline_buffer c :
  has_newline (pending c) = false -> has_newline (buffer c) = false.
Proof.
  unfold pending. rewrite has_newline_app.
  by intros [? _]%orb_false_iff.
Qed.

(** The console after [settimeout]. *)
Lemma settimeout_frame t c :
  pending (snd (settimeout t c)) = pending c
  /\ deliveries (snd (settimeout t c)) = deliveries c
  /\ peer_closed (snd (settimeout t c)) = peer_closed c
  /\ sent (snd (settimeout t c)) = sent c
  /\ writable (snd (settimeout t c)) = writable c
  /\ sock_timeout (snd (settimeout t c)) = t.
Proof. by repeat split. Qed.

(** [receive] when its loop does not end well. *)
Lemma receive_fill_raise json_loads fuel timeout c c1 :
  fill fuel {| buffer := buffer c; incoming := incoming c;
               peer_closed := peer_closed c; writable := writable c;
               sent := sent c; sock_timeout := timeout |}
  = (Raise SocketTimeout, c1) ->
  receive json_loads fuel timeout c
  = (Raise SocketTimeout,
     {| buffer := buffer c1; incoming := incoming c1;
        peer_closed := peer_closed c1; writable := writable c1;
        sent := sent c1; sock_timeout := None |}).
Proof.
  intros H. unfold receive, try_finally, try_catch.
  unfold bind at 1. unfold settimeout at 1. cbv beta iota.
  unfold bind at 1. rewrite H. reflexivity.
Qed.

Lemma receive_fill_no_return json_loads fuel timeout c c1 :
  fill fuel {| buffer := buffer c; incoming := incoming c;
               peer_closed := peer_closed c; writable := writable c;
               sent := sent c; sock_timeout := timeout |}
  = (NoReturn, c1) ->
  receive json_loads fuel timeout c = (NoReturn, c1).
Proof.
  intros H. unfold receive, try_finally, try_catch.
  unfold bind at 1. unfold settimeout at 1. cbv beta iota.
  unfold bind at 1. rewrite H. reflexivity.
Qed.

(** [receive] without a complete line: it does not return, or it raises
    the timeout of the socket, and then the bytes that arrived stay in the
    buffer. *)
Lemma receive_no_line json_loads fuel timeout c :
  has_newline (pending c) = false ->
  fst (receive json_loads fuel timeout c) = NoReturn
  \/ (peer_closed c = false /\ is_Some timeout
      /\ exists c',
           receive json_loads fuel timeout c = (Raise SocketTimeout, c')
           /\ buffer c' = pending c /\ incoming c' = []
           /\ sock_timeout c' = None /\ sent c' = sent c
           /\ writable c' = writable c /\ peer_closed c' = peer_closed c).
Proof.
  intros Hnl.
  set (c0 := {| buffer := buffer c; incoming := incoming c;
                peer_closed := peer_closed c; writable := writable c;
                sent := sent c; sock_timeout := timeout |}).
  assert (Hnl0 : has_newline (pending c0) = false) by exact Hnl.
  pose proof (fill_no_line fuel c0 Hnl0) as Hfill.
  pose proof (fill_frame fuel c0) as [(Hp & Hs & Hw & Hpc & Ht) _].
  destruct (fill fuel c0) as [o c1] eqn:Hrun. cbn [fst snd] in *.
  destruct Hfill as [->|(-> & Hopen & Hto & Hin)].
  - left. by rewrite (receive_fill_no_return _ _ _ _ _ Hrun).
  - right. split; [exact Hopen|]. split; [exact Hto|].
    rewrite (receive_fill_raise _ _ _ _ _ Hrun).
    eexists. split; [reflexivity|].
    cbn [buffer incoming sock_timeout sent writable peer_closed].
    repeat split; try done.
    unfold pending in Hp at 1. rewrite Hin in Hp. simpl in Hp.
    by rewrite str_app_nil_r in Hp.
Qed.

(** A silent guest and a timeout: the frame of the state [receive] leaves
    when it raises. *)
Lemma receive_silent json_loads fuel t c :
  has_newline (pending c) = false -> peer_closed c = false ->
  deliveries c < fuel ->
  exists c',
    receive json_loads fuel (Some t) c = (Raise SocketTimeout, c')
    /\ buffer c' = pending c /\ incoming c' = []
    /\ sock_timeout c' = None /\ sent c' = sent c
    /\ writable c' = writable c /\ peer_closed c' = false.
Proof.
  intros Hnl Hopen Hfuel.
  destruct (receive_no_line json_loads fuel (Some t) c Hnl)
    as [Hno|(_ & _ & c' & Hr & Hb & Hi & Ht & Hs & Hw & Hpc)].
  2: { exists c'. rewrite Hpc. done. }
  exfalso.
  set (c0 := {| buffer := buffer c; incoming := incoming c;
                peer_closed := peer_closed c; writable := writable c;
                sent := sent c; sock_timeout := Some t |}).
  assert (Hto : fst (fill fuel c0) = Raise SocketTimeout).
  { apply fill_times_out; try done. }
  destruct (fill fuel c0) as [o c1] eqn:Hrun. cbn [fst] in Hto. subst o.
  by rewrite (receive_fill_raise _ _ _ _ _ Hrun) in Hno.
Qed.

(** When the guest stays silent, [receive] with a timeout raises the
    timeout of the socket and keeps the bytes of the incomplete line in the
    buffer, with the socket back to blocking. *)
Theorem receive_times_out :
  forall json_loads fuel t c,
    has_newline (pending c) = false -> peer_closed c = false ->
    deliveries c < fuel ->
    exists c',
      receive json_loads fuel (Some t) c = (Raise SocketTimeout, c')
      /\ buffer c' = pending c /\ incoming c' = []
      /\ sock_timeout c' = None /\ sent c' = sent c.
Proof.
  intros json_loads fuel t c Hnl Hopen Hfuel.
  destruct (receive_silent json_loads fuel t c Hnl Hopen Hfuel)
    as (c' & Hr & Hb & Hi & Ht & Hs & _).
  by exists c'.
Qed.

(** The guest went silent after half a line. *)
Lemma receive_times_out_witness :
  exists c',
    receive Json.loads 5 (Some 30%Z) (Json.console_with ["{"; "}"])
    = (Raise SocketTimeout, c')
    /\ buffer c' = "{}" /\ incoming c' = []
    /\ sock_timeout c' = None /\ sent c' = [].
Proof.
  apply (receive_times_out Json.loads 5 30%Z (Json.console_with ["{"; "}"]));
    [reflexivity|reflexivity|vm_compute; lia].
Defined.

(** Once the peer has closed the stream in the middle of a line, [receive]
    neither returns nor raises, with or without a timeout: [recv] keeps
    returning the empty string and the loop keeps asking. *)
Theorem receive_spins_on_closed_stream :
  forall json_loads fuel timeout c,
    has_newline (pending c) = false -> peer_closed c = true ->
    fst (receive json_loads fuel timeout c) = NoReturn.
Proof.
  intros json_loads fuel timeout c Hnl Hclosed.
  destruct (receive_no_line json_loads fuel timeout c Hnl)
    as [H|(Hopen & _)]; [exact H|congruence].
Qed.

Lemma receive_spins_on_closed_stream_witness :
  fst (receive Json.loads 1000 (Some 30%Z)
         {| buffer := "{"; incoming := []; peer_closed := true;
            writable := true; sent := []; sock_timeout := None |})
  = NoReturn.
Proof.
  apply receive_spins_on_closed_stream; reflexivity.
Defined.


(** What the lookups of [receive] can raise. *)
Lemma interpret_cases message :
  (exists r, interpret message = Ok r)
  \/ interpret message = Raise KeyError
  \/ interpret message = Raise TypeError
  \/ interpret message
     = Raise (RuntimeError "Console received unexpected message").
Proof.
  unfold interpret.
  destruct message as [| | | |s|l|items]; cbn [contains and_then];
    try (by right; right; left).
  - destruct (bool_decide _); cbn [getitem and_then];
      [by right; right; left|].
    destruct (bool_decide _); cbn [getitem and_then];
      [by right; right; left|by right; right; right].
  - destruct (existsb _ l); cbn [getitem and_then];
      [by right; right; left|].
    destruct (existsb _ l); cbn [getitem and_then];
      [by right; right; left|by right; right; right].
  - destruct (items !! "reply") as [reply|] eqn:Hreply.
    + rewrite bool_decide_eq_true_2 by by eexists.
      cbn [getitem and_then]. rewrite Hreply. cbn [and_then].
      destruct reply as [| | | | | |fields]; cbn [getitem and_then];
        try (by right; right; left).
      destruct (fields !! "command"); cbn [and_then];
        [|by right; left].
      destruct (fields !! "parameters"); cbn [and_then];
        [by left; eexists|by right; left].
    + rewrite bool_decide_eq_false_2 by by intros [? ?].
      destruct (items !! "error") as [error|] eqn:Herror.
      * rewrite bool_decide_eq_true_2 by by eexists.
        cbn [getitem and_then]. rewrite Herror. cbn [and_then].
        destruct error as [| | | | | |fields]; cbn [getitem and_then];
          try (by right; right; left).
        destruct (fields !! "source"); cbn [and_then];
          [|by right; left].
        destruct (fields !! "message"); cbn [and_then];
          [by left; eexists|by right; left].
      * rewrite bool_decide_eq_false_2 by by intros [? ?].
        by right; right; right.
Qed.

(** Whatever a line holds, [receive] returns a message or raises one of
    its two protocol errors: the [TypeError], [ValueError] and [KeyError]
    of decoding and of the lookups never reach the caller. *)
Theorem receive_raises_protocol_errors_only :
  forall json_loads fuel timeout c line rest,
    has_newline line = false ->
    pending c = line +:+ String newline rest ->
    deliveries c <= fuel ->
    (exists r, fst (receive json_loads fuel timeout c) = Ok r)
    \/ fst (receive json_loads fuel timeout c)
       = Raise (RuntimeError "Console received malformed message")
    \/ fst (receive json_loads fuel timeout c)
       = Raise (RuntimeError "Console received unexpected message").
Proof.
  intros json_loads fuel timeout c line rest Hline Hpend Hfuel.
  destruct (receive_spec json_loads fuel timeout c line rest Hline Hpend Hfuel)
    as (c' & -> & _).
  cbn [fst]. unfold decode, loads.
  destruct (json_loads line) as [message|]; cbn [and_then malformed];
    [|by right; left].
  destruct (interpret_cases message) as [ [r ->] | [ -> | [ -> | -> ] ] ];
    cbn [malformed]; eauto.
Qed.

(** An empty JSON object is no message. *)
Lemma receive_raises_protocol_errors_only_witness :
  (exists r,
     fst (receive Json.loads 10 None (Json.console_with ["{}" +:+ Json.nl]))
     = Ok r)
  \/ fst (receive Json.loads 10 None (Json.console_with ["{}" +:+ Json.nl]))
     = Raise (RuntimeError "Console received malformed message")
  \/ fst (receive Json.loads 10 None (Json.console_with ["{}" +:+ Json.nl]))
     = Raise (RuntimeError "Console received unexpected message").
Proof.
  apply (receive_raises_protocol_errors_only Json.loads 10 None
           (Json.console_with ["{}" +:+ Json.nl]) "{}" EmptyString);
    [reflexivity|reflexivity|vm_compute; lia].
Defined.

(** A message that has a ["reply"] entry is read as a reply, whatever else
    it holds: an ["error"] entry beside it is not looked at, and a reply
    without its command or its parameters is malformed. *)
Theorem receive_reply_takes_precedence :
  forall json_loads fuel timeout c line rest items reply,
    has_newline line = false ->
    pending c = line +:+ String newline rest ->
    deliveries c <= fuel ->
    json_loads line = Some (PDict items) ->
    items !! "reply" = Some reply ->
    fst (receive json_loads fuel timeout c)
    = match reply with
      | PDict fields =>
          match fields !! "command", fields !! "parameters" with
          | Some command, Some parameters => Ok (Reply command parameters)
          | _, _ => Raise (RuntimeError "Console received malformed message")
          end
      | _ => Raise (RuntimeError "Console received malformed message")
      end.
Proof.
  intros json_loads fuel timeout c line rest items reply
    Hline Hpend Hfuel Hloads Hreply.
  destruct (receive_spec json_loads fuel timeout c line rest Hline Hpend Hfuel)
    as (c' & -> & _).
  cbn [fst]. unfold decode, loads. rewrite Hloads. cbn [and_then].
  unfold interpret. cbn [contains].
  rewrite bool_decide_eq_true_2 by by eexists.
  cbn [getitem and_then]. rewrite Hreply. cbn [and_then].
  destruct reply as [| | | | | |fields]; cbn [getitem and_then malformed];
    try done.
  destruct (fields !! "command"); cbn [and_then malformed]; [|done].
  by destruct (fields !! "parameters").
Qed.


Lemma receive_reply_takes_precedence_witness :
  fst (receive Json.loads 200 None
         (Json.console_with [Guest.reply_and_error +:+ Json.nl]))
  = Ok (Reply (PStr "status") (PDict ∅)).
Proof.
  etrans;
    [apply (receive_reply_takes_precedence Json.loads 200 None
              (Json.console_with [Guest.reply_and_error +:+ Json.nl])
              Guest.reply_and_error EmptyString
              (<["error" := PDict (<["source" := PStr "x"]>
                                     {[ "message" := PStr "y" ]})]>
                 {[ "reply" := PDict (<["command" := PStr "status"]>
                                        {[ "parameters" := PDict ∅ ]}) ]})
              (PDict (<["command" := PStr "status"]>
                        {[ "parameters" := PDict ∅ ]})));
     try vm_refl; vm_compute; lia
    |vm_refl].
Defined.

(** [receive] takes no bytes off the socket that it does not keep. *)
Lemma receive_deliveries json_loads fuel timeout c :
  deliveries (snd (receive json_loads fuel timeout c)) <= deliveries c.
Proof.
  unfold receive, try_finally, try_catch.
  unfold bind at 1. unfold settimeout at 1. cbv beta iota.
  set (c0 := {| buffer := buffer c; incoming := incoming c;
                peer_closed := peer_closed c; writable := writable c;
                sent := sent c; sock_timeout := timeout |}).
  pose proof (fill_frame fuel c0) as [_ Hd].
  change (deliveries c0) with (deliveries c) in Hd.
  unfold bind at 1.
  destruct (fill fuel c0) as [[[]|e|] c1]; cbn [snd] in Hd.
  - unfold bind at 1, take_line.
    destruct (split_line (buffer c1)) as [[l r]|].
    + unfold bind, set_buffer, ret, lift, settimeout, raise.
      destruct (loads json_loads l) as [message|e|].
      * by destruct (interpret message) as [?|e|]; [| destruct (malformed e) |].
      * by destruct (malformed e).
      * done.
    + done.
  - by destruct (malformed e).
  - done.
Qed.

(** Two lines are read in the order they arrived, one by each [receive]:
    whatever the first one holds, a message or not, it is consumed, and the
    second [receive] decodes the line that follows it. *)
Theorem receive_reads_lines_in_order :
  forall json_loads fuel1 fuel2 timeout1 timeout2 c line1 line2 rest,
    has_newline line1 = false -> has_newline line2 = false ->
    pending c
    = line1 +:+ String newline (line2 +:+ String newline rest) ->
    deliveries c <= fuel1 -> deliveries c <= fuel2 ->
    exists c1 c2,
      receive json_loads fuel1 timeout1 c = (decode json_loads line1, c1)
      /\ receive json_loads fuel2 timeout2 c1 = (decode json_loads line2, c2)
      /\ pending c2 = rest.
Proof.
  intros json_loads fuel1 fuel2 timeout1 timeout2 c line1 line2 rest
    Hl1 Hl2 Hpend Hf1 Hf2.
  pose proof (receive_deliveries json_loads fuel1 timeout1 c) as Hd.
  destruct (receive_spec json_loads fuel1 timeout1 c line1 _ Hl1 Hpend Hf1)
    as (c1 & Hr1 & Hp1 & _).
  rewrite Hr1 in Hd. cbn [snd] in Hd.
  destruct (receive_spec json_loads fuel2 timeout2 c1 line2 rest Hl2 Hp1)
    as (c2 & Hr2 & Hp2 & _); [lia|].
  by exists c1, c2.
Qed.

(** Something that is no JSON, then a reply, in one delivery. *)
Lemma receive_reads_lines_in_order_witness :
  exists c1 c2,
    receive Json.loads 100 None
      (Json.console_with ["status" +:+ Json.nl +:+ Json.empty_reply +:+ Json.nl])
    = (decode Json.loads "status", c1)
    /\ receive Json.loads 100 (Some 30%Z) c1
       = (decode Json.loads Json.empty_reply, c2)
    /\ pending c2 = EmptyString.
Proof.
  apply (receive_reads_lines_in_order Json.loads 100 100 None (Some 30%Z)
           (Json.console_with
              ["status" +:+ Json.nl +:+ Json.empty_reply +:+ Json.nl])
           "status" Json.empty_reply EmptyString);
    try vm_refl; vm_compute; lia.
Defined.

(** [request] leaves the socket blocking, whether it sent or not. *)
Lemma request_timeout json_dumps command parameters c o c' :
  request json_dumps command parameters c = (o, c') ->
  sock_timeout c' = None /\ o <> NoReturn.
Proof.
  unfold request, try_finally, bind, settimeout, sendall.
  cbn [writable]. destruct (writable c); by intros [= <- <-].
Qed.

Lemma receive_timeout json_loads fuel timeout c o c' :
  receive json_loads fuel timeout c = (o, c') ->
  o <> NoReturn -> sock_timeout c' = None.
Proof.
  unfold receive, try_finally, try_catch.
  unfold bind at 1. unfold settimeout at 1. cbv beta iota.
  set (c0 := {| buffer := buffer c; incoming := incoming c;
                peer_closed := peer_closed c; writable := writable c;
                sent := sent c; sock_timeout := timeout |}).
  unfold bind at 1.
  destruct (fill fuel c0) as [[[]|e|] c1].
  - unfold bind at 1, take_line.
    destruct (split_line (buffer c1)) as [[l r]|].
    + unfold bind, set_buffer, ret, lift, settimeout, raise.
      destruct (loads json_loads l) as [message|e|].
      * destruct (interpret message) as [?|e|]; [| destruct (malformed e) |];
          by intros [= <- <-].
      * destruct (malformed e); by intros [= <- <-].
      * by intros [= <- <-].
    + cbn [malformed]. unfold raise, settimeout. by intros [= <- <-].
  - unfold raise, settimeout. destruct (malformed e); by intros [= <- <-].
  - by intros [= <- <-].
Qed.

(** Whenever [call] returns or raises, the socket is back to blocking:
    neither the timeout of the request nor that of the reply outlives the
    call. *)
Theorem call_restores_blocking_socket :
  forall json_loads json_dumps repr fuel command parameters timeout c,
    fst (call json_loads json_dumps repr fuel command parameters timeout c)
    <> NoReturn ->
    sock_timeout
      (snd (call json_loads json_dumps repr fuel command parameters timeout c))
    = None.
Proof.
  intros json_loads json_dumps repr fuel command parameters timeout c.
  unfold call, bind.
  destruct (request json_dumps command parameters c) as [o1 c1] eqn:Hreq.
  apply request_timeout in Hreq as [Ht Ho].
  destruct o1 as [[]|e|]; [|done|done].
  destruct (receive json_loads fuel timeout c1) as [o2 c2] eqn:Hrecv.
  pose proof (receive_timeout _ _ _ _ _ _ Hrecv) as Hr.
  destruct o2 as [[]|e|]; cbn [fst snd]; intros H; by apply Hr.
Qed.

Lemma call_restores_blocking_socket_witness :
  sock_timeout
    (snd (call Json.loads Json.dumps Json.repr 10 "status" (PDict ∅)
            (Some 30%Z) Guest.silent))
  = None.
Proof.
  apply call_restores_blocking_socket. vm_compute. discriminate.
Defined.


(** *** The commands of the agent *)

(** A call that is not answered. *)
Lemma call_unanswered json_loads json_dumps repr fuel command parameters
    timeout c :
  writable c = true -> has_newline (pending c) = false ->
  peer_closed c = false ->
  match timeout with
  | Some _ =>
      deliveries c < fuel ->
      fst (call json_loads json_dumps repr fuel command parameters timeout c)
      = Raise SocketTimeout
  | None =>
      fst (call json_loads json_dumps repr fuel command parameters timeout c)
      = NoReturn
  end.
Proof.
  intros Hw Hnl Hopen.
  assert (Hnl1 : has_newline
            (pending {| buffer := buffer c; incoming := incoming c;
                        peer_closed := peer_closed c; writable := writable c;
                        sent := String newline EmptyString
                                :: json_dumps
                                     (request_document command parameters)
                                :: sent c;
                        sock_timeout := None |}) = false) by exact Hnl.
  destruct timeout as [t|]; [intros Hfuel|];
    unfold call; unfold bind at 1; rewrite (request_spec _ _ _ _ Hw);
    unfold bind.
  - destruct (receive_silent json_loads fuel t _ Hnl1 Hopen Hfuel)
      as (c2 & -> & _). reflexivity.
  - destruct (receive_no_line json_loads fuel None _ Hnl1)
      as [Hno|(_ & [? [=]] & _)].
    match goal with |- context [receive ?a ?b ?d ?e] =>
      destruct (receive a b d e) as [o c2] end.
    cbn [fst] in Hno. subst o. reflexivity.
Qed.

(** When the guest does not answer, [find], [eject], [flush] and [status]
    give up with the timeout of the socket, while [execute] and [monitor],
    which wait without a timeout, never come back. *)
Theorem commands_on_silent_guest :
  forall json_loads json_dumps repr fuel c command shell interval cwd tag,
    writable c = true -> has_newline (pending c) = false ->
    peer_closed c = false -> deliveries c < fuel ->
    fst (Guest.find json_loads json_dumps repr fuel tag c)
    = Raise SocketTimeout
    /\ fst (Guest.eject json_loads json_dumps repr fuel tag c)
       = Raise SocketTimeout
    /\ fst (Guest.flush json_loads json_dumps repr fuel tag c)
       = Raise SocketTimeout
    /\ fst (Guest.status json_loads json_dumps repr fuel c)
       = Raise SocketTimeout
    /\ fst (Guest.execute json_loads json_dumps repr fuel command shell cwd c)
       = NoReturn
    /\ fst (Guest.monitor json_loads json_dumps repr fuel command interval
              cwd c)
       = NoReturn.
Proof.
  intros json_loads json_dumps repr fuel c command shell interval cwd tag
    Hw Hnl Hopen Hfuel.
  unfold Guest.find, Guest.eject, Guest.flush, Guest.status, Guest.execute,
    Guest.monitor.
  repeat split;
    first [ by apply (call_unanswered json_loads json_dumps repr fuel _ _
                        (Some 30%Z) c Hw Hnl Hopen)
          | by apply (call_unanswered json_loads json_dumps repr fuel _ _
                        None c Hw Hnl Hopen) ].
Qed.

Lemma commands_on_silent_guest_witness :
  fst (Guest.find Json.loads Json.dumps Json.repr 1 (PStr "cd") Guest.silent)
  = Raise SocketTimeout
  /\ fst (Guest.eject Json.loads Json.dumps Json.repr 1 (PStr "cd")
            Guest.silent)
     = Raise SocketTimeout
  /\ fst (Guest.flush Json.loads Json.dumps Json.repr 1 (PStr "cd")
            Guest.silent)
     = Raise SocketTimeout
  /\ fst (Guest.status Json.loads Json.dumps Json.repr 1 Guest.silent)
     = Raise SocketTimeout
  /\ fst (Guest.execute Json.loads Json.dumps Json.repr 1 (PStr "ls")
            (PBool false) PNone Guest.silent)
     = NoReturn
  /\ fst (Guest.monitor Json.loads Json.dumps Json.repr 1 (PStr "ls")
            (PInt 5) PNone Guest.silent)
     = NoReturn.
Proof.
  apply (commands_on_silent_guest Json.loads Json.dumps Json.repr 1
           Guest.silent (PStr "ls") (PBool false) (PInt 5) PNone (PStr "cd"));
    [reflexivity|reflexivity|reflexivity|vm_compute; lia].
Defined.

End ConsoleFacts.

Module HostFacts.
Import Interface Volume VolumeFacts Host.

(** *** The matches of the two patterns *)

(** Wherever [nbd] and a digit stand in the text, ["nbd[0-9]"] finds
    them: no match can hide another, since none starts inside another. *)
Lemma findall_nbd_complete d : is_digit d = true ->
  forall n pre post,
    String.length pre <= n ->
    String "n" (String "b" (String "d" (String d "")))
    ∈ findall_nbd (pre +:+ String "n" (String "b" (String "d" (String d post)))).
Proof.
  intros Hd. induction n as [|n IH]; intros pre post Hlen.
  - destruct pre; [|simpl in Hlen; lia].
    rewrite AgentFacts.str_app_nil. cbn [findall_nbd]. simpl Ascii.eqb.
    rewrite Hd. simpl. apply elem_of_cons; by left.
  - destruct pre as [|c0 pre].
    { apply (IH EmptyString post). simpl. lia. }
    rewrite AgentFacts.str_app_cons.
    assert (Htl : forall tl, tl = pre +:+ String "n" (String "b" (String "d" (String d post))) ->
             exists c1 c2 c3 rest, tl = String c1 (String c2 (String c3 rest))).
    { intros tl ->. destruct pre as [|p1 [|p2 [|p3 pre]]];
        rewrite ?AgentFacts.str_app_cons, ?AgentFacts.str_app_nil; by eauto. }
    destruct (Htl _ eq_refl) as (c1 & c2 & c3 & rest & Heq).
    cbn [findall_nbd]. rewrite Heq.
    destruct (Ascii.eqb c0 "n" && Ascii.eqb c1 "b" && Ascii.eqb c2 "d"
              && is_digit c3) eqn:Hc.
    + apply andb_true_iff in Hc as [Hc Hd3].
      apply andb_true_iff in Hc as [Hc H2].
      apply andb_true_iff in Hc as [H0 H1].
      apply Ascii.eqb_eq in H0, H1, H2. subst c0 c1 c2.
      destruct pre as [|p1 [|p2 [|p3 pre]]];
        rewrite ?AgentFacts.str_app_cons, ?AgentFacts.str_app_nil in Heq.
      * by injection Heq.
      * by injection Heq.
      * injection Heq as _ _ <- _. by vm_compute in Hd3.
      * injection Heq as _ _ _ <-.
        apply elem_of_cons; right. apply (IH pre post).
        simpl in Hlen. lia.
    + rewrite <- Heq. apply (IH pre post). simpl in Hlen. lia.
Qed.

(** Every match of ["nbd[0-9]p[0-9]"] has six characters. *)
Lemma findall_nbd_partition_length n : forall s,
  String.length s <= n ->
  forall x, x ∈ findall_nbd_partition s -> String.length x = 6.
Proof.
  induction n as [|n IH]; intros s Hlen x Hx.
  - destruct s; simpl in *; [by apply elem_of_nil in Hx|lia].
  - destruct s as [|c0 [|c1 [|c2 [|c3 [|c4 [|c5 rest]]]]]];
      try (by apply elem_of_nil in Hx).
    cbn [findall_nbd_partition] in Hx.
    destruct (Ascii.eqb c0 "n" && Ascii.eqb c1 "b" && Ascii.eqb c2 "d"
              && is_digit c3 && Ascii.eqb c4 "p" && is_digit c5).
    + apply elem_of_cons in Hx as [->|Hx]; [done|].
      apply (IH rest); [simpl in Hlen; lia|done].
    + apply (IH (String c1 (String c2 (String c3 (String c4 (String c5 rest))))));
        [simpl in *; lia|done].
Qed.


(** *** Selecting a device *)

(** A device that [/proc/partitions] names anywhere in its text is never
    the one [attach] selects: the node it passes to [qemu-nbd] is in the
    pool and is not that device. *)
Theorem attach_skips_listed_device :
  forall h filename st d pre post target st',
    is_digit d = true ->
    proc_partitions h (reads st)
    = pre +:+ String "n" (String "b" (String "d" (String d post))) ->
    attach h filename st = (Ok target, st') ->
    exists device,
      target = path_join "/dev" device
      /\ device ∈ device_nodes h
      /\ device <> String "n" (String "b" (String "d" (String d "")))
      /\ log st' = Run ["qemu-nbd"; "-n"; "-c"; target; realpath h filename]
                   :: log st.
Proof.
  intros h filename st d pre post target st' Hd Htable.
  unfold attach, available_device_node, attached_device_nodes,
    read_partitions, bind, lift, ret, check_call, act.
  cbn [fst snd reads log]. fold (attached_at h st).
  destruct (set_pop h (device_nodes h ∖ attached_at h st)) as [device| |]
    eqn:Hpop; [|done|done].
  apply set_pop_Ok in Hpop. apply elem_of_difference in Hpop as [Hpool Hfree].
  destruct (Z.eqb _ 0); [|done]. intros [= <- <-].
  exists device. split; [done|]. split; [done|]. split; [|done].
  intros ->. apply Hfree. unfold attached_at. rewrite Htable.
  apply elem_of_list_to_set. by apply (findall_nbd_complete d Hd (String.length pre) pre post).
Qed.

Lemma attach_skips_listed_device_witness :
  exists device,
    "/dev/nbd1" = path_join "/dev" device
    /\ device ∈ device_nodes host_mount_fails
    /\ device <> "nbd0"
    /\ log {| reads := 1;
              log := [Run ["qemu-nbd"; "-n"; "-c"; "/dev/nbd1";
                           "/srv/vector.qcow2"]] |}
       = Run ["qemu-nbd"; "-n"; "-c"; "/dev/nbd1";
              realpath host_mount_fails "/srv/vector.qcow2"]
         :: log initial.
Proof.
  apply (attach_skips_listed_device host_mount_fails "/srv/vector.qcow2"
           initial "0"%char "   8  0  sda
  43  0  " "
");
    vm_refl.
Defined.

(** With every node of the pool attached, [attach] raises the [KeyError]
    of taking from an empty set, and runs no command. *)
Theorem attach_raises_when_pool_is_exhausted :
  forall h filename st,
    device_nodes h ⊆ attached_at h st ->
    attach h filename st
    = (Raise KeyError, {| reads := S (reads st); log := log st |}).
Proof.
  intros h filename st Hsub.
  unfold attach, available_device_node, attached_device_nodes,
    read_partitions, bind, lift, ret.
  cbn [fst snd reads log]. fold (attached_at h st).
  assert (Hempty : device_nodes h ∖ attached_at h st = ∅).
  { apply leibniz_equiv. apply elem_of_equiv_empty. intros x Hx.
    apply elem_of_difference in Hx as [Hin Hout]. apply Hout, Hsub, Hin. }
  rewrite Hempty. unfold set_pop. by rewrite elements_empty.
Qed.

Lemma attach_raises_when_pool_is_exhausted_witness :
  attach host_exhausted "/srv/vector.qcow2" initial
  = (Raise KeyError, {| reads := 1; log := [] |}).
Proof.
  apply (attach_raises_when_pool_is_exhausted host_exhausted
           "/srv/vector.qcow2" initial).
  intros x Hx. apply elem_of_list_to_set in Hx.
  vm_compute in Hx. apply list_elem_of_In in Hx. simpl in Hx.
  apply elem_of_list_to_set. vm_compute. apply list_elem_of_In. simpl.
  destruct Hx as [<-|[<-|[]]]; auto.
Defined.

(** *** Waiting for a partition *)

Lemma wait_for_partition_step fuel h device st :
  wait_for_partition fuel h device st
  = if bool_decide (basename device ∈ partitions_at h (reads st))
    then (Ok tt, {| reads := S (reads st); log := log st |})
    else match fuel with
         | O => (NoReturn, {| reads := S (reads st); log := log st |})
         | S fuel' =>
             wait_for_partition fuel' h device
               {| reads := S (reads st); log := Sleep :: log st |}
         end.
Proof.
  destruct fuel; cbn [wait_for_partition];
    unfold attached_partitions, read_partitions, ret, no_return, act, bind;
    cbn [fst snd reads log]; fold (partitions_at h (reads st));
    by destruct (bool_decide _).
Qed.

(** [wait_for_partition] sleeps once for every reading of
    [/proc/partitions] that does not list the partition, and returns at the
    first that does. *)
Theorem wait_for_partition_polls_until_listed :
  forall k fuel h device st,
    k <= fuel ->
    (forall i, i < k -> basename device ∉ partitions_at h (reads st + i)) ->
    basename device ∈ partitions_at h (reads st + k) ->
    wait_for_partition fuel h device st
    = (Ok tt, {| reads := reads st + k + 1;
                 log := replicate k Sleep ++ log st |}).
Proof.
  induction k as [|k IH]; intros fuel h device st Hfuel Hnot Hin.
  - rewrite wait_for_partition_step.
    rewrite Nat.add_0_r in Hin. rewrite bool_decide_eq_true_2 by done.
    simpl. do 2 f_equal. lia.
  - rewrite wait_for_partition_step.
    rewrite bool_decide_eq_false_2
      by (specialize (Hnot 0); rewrite Nat.add_0_r in Hnot; apply Hnot; lia).
    destruct fuel as [|fuel]; [lia|].
    rewrite (IH fuel h device); cbn [reads log].
    + f_equal. f_equal; [lia|].
      change (Sleep :: log st) with ([Sleep] ++ log st).
      rewrite app_assoc. f_equal.
      change (replicate (S k) Sleep) with ([Sleep] ++ replicate k Sleep).
      clear. induction k as [|k IHk]; [done|]. simpl. by rewrite IHk.
    + lia.
    + intros i Hi. replace (S (reads st) + i) with (reads st + S i) by lia.
      apply Hnot. lia.
    + by replace (S (reads st) + k) with (reads st + S k) by lia.
Qed.

Lemma wait_for_partition_polls_until_listed_witness :
  wait_for_partition 10 host_slow_partition "/dev/nbd1p1" initial
  = (Ok tt, {| reads := 3; log := [Sleep; Sleep] |}).
Proof.
  apply (wait_for_partition_polls_until_listed 2 10 host_slow_partition
           "/dev/nbd1p1" initial).
  - lia.
  - intros i Hi Hin. apply elem_of_list_to_set in Hin.
    destruct i as [|[|i]]; [| |lia];
      vm_compute in Hin; by apply elem_of_nil in Hin.
  - apply elem_of_list_to_set. vm_compute. apply elem_of_cons. by left.
Defined.

(** A partition whose node name is not [nbd], a digit, [p] and a digit,
    as that of a tenth partition, is never seen: [wait_for_partition] does
    not return, whatever [/proc/partitions] lists. *)
Theorem wait_for_partition_never_sees_longer_names :
  forall fuel h device st,
    String.length (basename device) <> 6 ->
    wait_for_partition fuel h device st
    = (NoReturn, {| reads := reads st + fuel + 1;
                    log := replicate fuel Sleep ++ log st |}).
Proof.
  intros fuel h device. induction fuel as [|fuel IH]; intros st Hlen;
    rewrite wait_for_partition_step;
    (rewrite bool_decide_eq_false_2;
     [|intros Hin; apply elem_of_list_to_set in Hin;
       by apply (findall_nbd_partition_length _ _ (le_n _)) in Hin]).
  - simpl. do 2 f_equal. lia.
  - rewrite IH by done. cbn [reads log]. f_equal. f_equal; [lia|].
    change (Sleep :: log st) with ([Sleep] ++ log st).
    rewrite app_assoc. f_equal.
    change (replicate (S fuel) Sleep) with ([Sleep] ++ replicate fuel Sleep).
    clear. induction fuel as [|k IHk]; [done|]. simpl. by rewrite IHk.
Qed.

Lemma wait_for_partition_never_sees_longer_names_witness :
  wait_for_partition 7 host_slow_partition "/dev/nbd1p10" initial
  = (NoReturn, {| reads := 8; log := replicate 7 Sleep |}).
Proof.
  apply (wait_for_partition_never_sees_longer_names 7 host_slow_partition
           "/dev/nbd1p10" initial).
  vm_compute. lia.
Defined.


(** *** What the steps add to the log *)

Lemma only_ret {A} P (a : A) : only P (ret a).
Proof. intros st. by exists []. Qed.

Lemma only_lift {A} P (o : outcome A) : only P (lift o).
Proof. intros st. by exists []. Qed.

Lemma only_bind {A B} P (c : M state A) (k : A -> M state B) :
  only P c -> (forall a, only P (k a)) -> only P (bind c k).
Proof.
  intros Hc Hk st. unfold bind.
  destruct (Hc st) as (new1 & Hl1 & Hp1).
  destruct (c st) as [[a|e|] st1]; cbn [snd] in *.
  - destruct (Hk a st1) as (new2 & Hl2 & Hp2).
    exists (new2 ++ new1). rewrite Hl2, Hl1, app_assoc. split; [done|].
    by rewrite forallb_app, Hp2, Hp1.
  - by exists new1.
  - by exists new1.
Qed.

Lemma only_act P a o : P a = true -> only P (act a o).
Proof.
  intros Ha st. exists [a]. split; [done|]. simpl. by rewrite Ha.
Qed.

Lemma only_check_call P h argv : P (Run argv) = true -> only P (check_call h argv).
Proof.
  intros Ha st. exists [Run argv]. split; [done|]. simpl. by rewrite Ha.
Qed.

Lemma only_io P h a : P a = true -> only P (io h a).
Proof.
  intros Ha st. exists [a]. split; [done|]. simpl. by rewrite Ha.
Qed.

Lemma only_attribute P self attr : only P (attribute self attr).
Proof. apply only_lift. Qed.

Lemma only_text_attribute P self attr : only P (text_attribute self attr).
Proof.
  apply only_bind; [apply only_attribute|]. intros v. apply only_lift.
Qed.

Lemma only_mount h device : only harmless (mount h device).
Proof.
  intros st. unfold mount.
  match goal with |- context [bind ?c ?k] =>
    assert (H : only harmless (bind c k)) end.
  { apply only_bind; [by apply only_act|]. intros _.
    apply only_bind; [by apply only_check_call|]. intros _. apply only_ret. }
  apply H.
Qed.

Lemma only_unmount h path : only harmless (unmount h path).
Proof.
  apply only_bind; [by apply only_check_call|]. intros _. by apply only_act.
Qed.

Lemma only_wait_for_partition h device fuel :
  only harmless (wait_for_partition fuel h device).
Proof.
  induction fuel as [|fuel IH]; intros st; rewrite wait_for_partition_step;
    destruct (bool_decide _); try (by exists []).
  destruct (IH {| reads := S (reads st); log := Sleep :: log st |})
    as (new & Hl & Hp).
  exists (new ++ [Sleep]). cbn [log] in Hl. rewrite Hl, <- app_assoc.
  split; [done|]. by rewrite forallb_app, Hp.
Qed.

Lemma leaves_attached_bind {A B} (c : M state A) (k : A -> M state B) :
  only harmless c -> (forall a, leaves_attached (k a)) ->
  leaves_attached (bind c k).
Proof.
  intros Hc Hk st e st' Hrun He. unfold bind in Hrun.
  destruct (Hc st) as (new1 & Hl1 & Hp1).
  destruct (c st) as [[a|e1|] st1]; cbn [snd] in *.
  - destruct (Hk a st1 e st' Hrun He) as (new2 & Hl2 & Hp2).
    exists (new2 ++ new1). rewrite Hl2, Hl1, app_assoc. split; [done|].
    by rewrite forallb_app, Hp2, Hp1.
  - injection Hrun as <- <-. by exists new1.
  - done.
Qed.

Lemma leaves_attached_detach h device : leaves_attached (detach h device).
Proof.
  intros st e st'. unfold detach, check_call, act.
  destruct (Z.eqb _ 0); [done|]. by intros [= <- <-].
Qed.

(** Whatever fails in [transfer_acquired_image] between a successful
    [attach] and the [detach] that ends it, the exception leaves the method
    with no [detach] issued: the device stays attached. *)
Theorem transfer_leaves_device_attached_on_failure :
  forall fuel h self st vector_filename device st1 e st',
    text_attribute self "vector_filename" st = (Ok vector_filename, st) ->
    attach h vector_filename st = (Ok device, st1) ->
    transfer_acquired_image fuel h self st = (Raise e, st') ->
    detach_failed e = false ->
    exists new, log st' = new ++ log st1 /\ forallb harmless new = true.
Proof.
  intros fuel h self st vector_filename device st1 e st' Hname Hattach.
  unfold transfer_acquired_image. unfold bind at 1. rewrite Hname.
  unfold bind at 1. rewrite Hattach.
  revert st1 e st' Hattach. intros st1 e st' _. revert st1 e st'.
  match goal with |- forall st1 e st', ?c st1 = _ -> _ =>
    change (leaves_attached c) end.
  apply leaves_attached_bind; [apply only_attribute|]. intros vp.
  apply leaves_attached_bind; [apply only_wait_for_partition|]. intros _.
  apply leaves_attached_bind; [apply only_mount|]. intros path.
  apply leaves_attached_bind; [apply only_text_attribute|]. intros vi.
  apply leaves_attached_bind; [apply only_text_attribute|]. intros ia.
  apply leaves_attached_bind; [by apply only_io|]. intros _.
  apply leaves_attached_bind; [apply only_unmount|]. intros _.
  apply leaves_attached_detach.
Qed.

(** The copy out of the mounted volume fails. *)
Lemma transfer_leaves_device_attached_on_failure_witness :
  exists new,
    log (snd (transfer_acquired_image 5 host_copy_fails vector_instance
                initial))
    = new ++ [Run ["qemu-nbd"; "-n"; "-c"; "/dev/nbd1"; "/srv/vector.qcow2"]]
    /\ forallb harmless new = true.
Proof.
  apply (transfer_leaves_device_attached_on_failure 5 host_copy_fails
           vector_instance initial "/srv/vector.qcow2" "/dev/nbd1"
           {| reads := 1;
              log := [Run ["qemu-nbd"; "-n"; "-c"; "/dev/nbd1";
                           "/srv/vector.qcow2"]] |}
           (OtherError "IOError")); vm_refl.
Defined.

(** Once [attach] has returned a device, [FileSystemAnalyst.analyse]
    detaches that device as the last thing it does, whether the analysis
    succeeded or whatever it raised, and issues no other [detach]. *)
Theorem analyse_always_detaches :
  forall fuel h self execution st image device st1 o st',
    text_attribute self "image" st = (Ok image, st) ->
    attach h image st = (Ok device, st1) ->
    FileSystemAnalyst_analyse fuel h self execution st = (o, st') ->
    o <> NoReturn ->
    exists new,
      log st' = Run ["qemu-nbd"; "-d"; device] :: new ++ log st1
      /\ forallb harmless new = true.
Proof.
  intros fuel h self execution st image device st1 o st' Himage Hattach.
  unfold FileSystemAnalyst_analyse. unfold bind at 1. rewrite Himage.
  unfold bind at 1. rewrite Hattach. unfold try_finally.
  match goal with |- context [bind ?c ?k st1] =>
    assert (Hbody : only harmless (bind c k)); [|destruct (Hbody st1)
      as (new & Hl & Hp); destruct (bind c k st1) as [[[]|e|] st2]] end.
  { apply only_bind; [apply only_attribute|]. intros vp.
    apply only_bind; [apply only_wait_for_partition|]. intros _.
    apply only_bind; [apply only_mount|]. intros path.
    apply only_bind; [apply only_text_attribute|]. intros output.
    apply only_bind; [by apply only_io|]. intros _.
    apply only_unmount. }
  - cbn [snd] in Hl. unfold detach, check_call, act.
    destruct (Z.eqb _ 0); intros [= <- <-] _; exists new;
      cbn [log]; by rewrite Hl.
  - cbn [snd] in Hl. unfold detach, check_call, act.
    destruct (Z.eqb _ 0); intros [= <- <-] _; exists new;
      cbn [log]; by rewrite Hl.
  - by intros [= <- <-].
Qed.

Lemma analyse_always_detaches_witness :
  exists new,
    log (snd (FileSystemAnalyst_analyse 5 host_copy_fails analyst_instance
                "id" initial))
    = Run ["qemu-nbd"; "-d"; "/dev/nbd1"]
      :: new ++ [Run ["qemu-nbd"; "-n"; "-c"; "/dev/nbd1";
                      "/srv/vector.qcow2"]]
    /\ forallb harmless new = true.
Proof.
  apply (analyse_always_detaches 5 host_copy_fails analyst_instance "id"
           initial "/srv/vector.qcow2" "/dev/nbd1"
           {| reads := 1;
              log := [Run ["qemu-nbd"; "-n"; "-c"; "/dev/nbd1";
                           "/srv/vector.qcow2"]] |}
           (Raise (OtherError "IOError"))); try vm_refl.
  discriminate.
Defined.

End HostFacts.

Module ConductorFacts.
Import Experiment ExperimentFacts Conductor.

(** *** Runs in which nothing raises *)






(** *** Runs that do not end *)





(** *** Exceptions that the loop body does not handle *)










Lemma no_collate_execute w l pos u ids :
  keeps (fun st => forall a, count (is_collate a) (trace st) = 0)
    (execute w l pos u ids).
Proof.
  apply keeps_execute.
  - intros e st He H a. cbn [push trace]. rewrite count_cons, H.
    by destruct e.
  - intros st H a. cbn [mint snd trace]. by rewrite count_cons, H.
Qed.



(** *** Constructing the analysts *)




(** *** Collating *)

Lemma no_collate_conduct_loop w l fuel : forall pos ids,
  keeps (fun st => forall a, count (is_collate a) (trace st) = 0)
    (conduct_loop fuel w l pos ids).
Proof.
  induction fuel as [|fuel IH]; intros pos ids; simpl;
    destruct (ids !! pos); try apply keeps_ret; try (by intros st).
  apply keeps_bind; [apply no_collate_execute|]. intros ids'. apply IH.
Qed.

(** [collate] is called only after the loop has ended: a run that raises
    or does not end has collated on no analyst, whatever the technique and
    the analysts did. *)
Theorem conduct_collates_only_after_the_loop :
  forall w definition fuel o st,
    (forall a, on_collate w a = None) ->
    conduct fuel w definition initial = (o, st) ->
    o <> Ok tt ->
    forall a, count (is_collate a) (trace st) = 0.
Proof.
  intros w definition fuel o st Hcol.
  set (l := seq 0 (length (analysts definition))) in *.
  set (J := fun st : state => forall a, count (is_collate a) (trace st) = 0).
  unfold conduct. unfold bind at 1. rewrite mint_many_spec.
  cbn [trace draws initial]. rewrite app_nil_r, Nat.add_0_l.
  unfold bind at 1, get_analysts, bind at 1. fold l.
  match goal with |- context [for_each l ?b ?s] =>
    assert (H1 : J (snd (for_each l b s)));
      [|destruct (for_each l b s) as [[[]|e|] st1]]
  end.
  { apply keeps_for_each.
    - intros x. apply keeps_call. intros st0 H a. cbn [push trace].
      by rewrite count_cons, H.
    - intros a. cbn [trace]. by apply count_none, Forall_rev_map. }
  - unfold ret, bind at 1.
    pose proof (no_collate_conduct_loop w l fuel 0
                  (map (uuid4 w) (seq 0 (Z.to_nat (executions definition))))
                  st1 H1) as H2.
    destruct (conduct_loop fuel w l 0 _ st1) as [[[]|e|] st2].
    + rewrite for_each_call_ok by done. by intros [= <- <-].
    + by intros [= <- <-].
    + by intros [= <- <-].
  - by intros [= <- <-].
  - by intros [= <- <-].
Qed.

Lemma conduct_collates_only_after_the_loop_witness :
  count (is_collate 0)
    (trace (snd (conduct 5 world_release_raises (two_analysts 3) initial)))
  = 0.
Proof.
  apply (conduct_collates_only_after_the_loop world_release_raises
           (two_analysts 3) 5
           (fst (conduct 5 world_release_raises (two_analysts 3) initial))).
  - reflexivity.
  - by destruct (conduct 5 world_release_raises (two_analysts 3) initial).
  - vm_compute. discriminate.
Defined.

End ConductorFacts.

Module CompositionFacts.
Import Interface Technique TechniqueFacts.

(** *** Which parameters the factories accept *)

Lemma behaviour_lookup table items key :
  behaviour table (PDict items) key
  = match items !! key with
    | Some v => table_getitem table v
    | None => Raise KeyError
    end.
Proof. unfold behaviour, getitem. by destruct (items !! key). Qed.

Lemma table_getitem_Ok table v c :
  table_getitem table v = Ok c <-> exists s, v = PStr s /\ table !! s = Some c.
Proof.
  split.
  - destruct v as [| | | |s| |]; simpl; try done.
    destruct (table !! s) as [c'|] eqn:Hs; [|done].
    intros [= <-]. by exists s.
  - intros (s & -> & Hs). simpl. by rewrite Hs.
Qed.

Lemma acquisition_factory_accepts :
  forall items,
    (exists obj, acquisition_technique_factory (PDict items) = Ok obj)
    <-> (items !! TOOLKIT_BEHAVIOUR_KEY = Some (PStr "optical")
         /\ items !! VECTOR_BEHAVIOUR_KEY = Some (PStr "fixed-drive")
         /\ (items !! INTERVENTION_BEHAVIOUR_KEY = Some (PStr "execute")
             \/ items !! INTERVENTION_BEHAVIOUR_KEY = Some (PStr "monitor"))).
Proof.
  intros items. unfold acquisition_technique_factory, acquisition_behaviours.
  rewrite !behaviour_lookup. split.
  - intros [obj Hobj].
    destruct (items !! TOOLKIT_BEHAVIOUR_KEY) as [v1|]; [|done].
    destruct (table_getitem TOOLKIT_BEHAVIOURS v1) as [tkb|e|] eqn:H1;
      [|by destruct e|done].
    apply table_getitem_Ok in H1 as (s1 & -> & H1).
    unfold TOOLKIT_BEHAVIOURS in H1.
    apply lookup_singleton_Some in H1 as [<- _].
    cbn [and_then] in Hobj.
    destruct (items !! VECTOR_BEHAVIOUR_KEY) as [v2|]; [|done].
    destruct (table_getitem VECTOR_BEHAVIOURS v2) as [vcb|e|] eqn:H2;
      [|by destruct e|done].
    apply table_getitem_Ok in H2 as (s2 & -> & H2).
    unfold VECTOR_BEHAVIOURS in H2.
    apply lookup_singleton_Some in H2 as [<- _].
    cbn [and_then] in Hobj.
    destruct (items !! INTERVENTION_BEHAVIOUR_KEY) as [v3|]; [|done].
    destruct (table_getitem INTERVENTION_BEHAVIOURS v3) as [ivb|e|] eqn:H3;
      [|by destruct e|done].
    apply table_getitem_Ok in H3 as (s3 & -> & H3).
    unfold INTERVENTION_BEHAVIOURS in H3.
    split; [done|]. split; [done|].
    apply lookup_insert_Some in H3 as [[<- _]|[_ H3]]; [by left|].
    apply lookup_singleton_Some in H3 as [<- _]. by right.
  - intros (-> & -> & Hi).
    change (table_getitem TOOLKIT_BEHAVIOURS (PStr "optical"))
      with (Ok OpticalAcquisitionToolkit).
    change (table_getitem VECTOR_BEHAVIOURS (PStr "fixed-drive"))
      with (Ok FixedDriveAcquisitionVector).
    cbn [and_then].
    destruct Hi as [-> | ->].
    + change (table_getitem INTERVENTION_BEHAVIOURS (PStr "execute"))
        with (Ok ExecuteInterventionBehaviour).
      cbn [and_then]. cbv zeta.
      rewrite (dynamic_acquisition_technique ExecuteInterventionBehaviour)
        by by left.
      by eexists.
    + change (table_getitem INTERVENTION_BEHAVIOURS (PStr "monitor"))
        with (Ok MonitorInterventionBehaviour).
      cbn [and_then]. cbv zeta.
      rewrite (dynamic_acquisition_technique MonitorInterventionBehaviour)
        by by right.
      by eexists.
Qed.


Lemma control_factory_accepts :
  forall items,
    (exists obj, control_technique_factory (PDict items) = Ok obj)
    <-> (items !! DELAY_BEHAVIOUR_KEY = Some (PStr "fixed")
         \/ items !! DELAY_BEHAVIOUR_KEY = Some (PStr "random")).
Proof.
  intros items. unfold control_technique_factory.
  rewrite behaviour_lookup. split.
  - intros [obj Hobj].
    destruct (items !! DELAY_BEHAVIOUR_KEY) as [v|]; [|done].
    destruct (table_getitem DELAY_BEHAVIOURS v) as [db|e|] eqn:H1;
      [|by destruct e|done].
    apply table_getitem_Ok in H1 as (s & -> & H1).
    unfold DELAY_BEHAVIOURS in H1.
    apply lookup_insert_Some in H1 as [[<- _]|[_ H1]]; [by left|].
    apply lookup_singleton_Some in H1 as [<- _]. by right.
  - intros [-> | ->].
    + change (table_getitem DELAY_BEHAVIOURS (PStr "fixed"))
        with (Ok FixedDelayBehaviour).
      cbv beta iota zeta.
      rewrite (dynamic_control_technique FixedDelayBehaviour) by by left.
      by eexists.
    + change (table_getitem DELAY_BEHAVIOURS (PStr "random"))
        with (Ok RandomDelayBehaviour).
      cbv beta iota zeta.
      rewrite (dynamic_control_technique RandomDelayBehaviour) by by right.
      by eexists.
Qed.

(** What a factory returns holds the dictionary it was given, and an empty
    output. *)
Lemma factory_instance parameters obj :
  acquisition_technique_factory parameters = Ok obj
  \/ control_technique_factory parameters = Ok obj ->
  dict obj = <["output" := PDict ∅]> (<["parameters" := parameters]> ∅).
Proof.
  intros [H|H].
  - unfold acquisition_technique_factory in H.
    destruct (acquisition_behaviours parameters) as [[[ivb tkb] vcb]|e|] eqn:Hb;
      [|by destruct e|done].
    apply acquisition_behaviours_Ok in Hb as (-> & -> & Hivb).
    cbv zeta in H. rewrite (dynamic_acquisition_technique ivb _ Hivb) in H.
    apply (f_equal (fun o => match o with Ok x => dict x | _ => ∅ end)) in H.
    symmetry. exact H.
  - unfold control_technique_factory in H.
    destruct (behaviour DELAY_BEHAVIOURS parameters DELAY_BEHAVIOUR_KEY)
      as [db|e|] eqn:Hb; [|by destruct e|done].
    apply behaviour_Ok in Hb as (? & s & _ & _ & Hs).
    unfold DELAY_BEHAVIOURS in Hs.
    assert (Hdb : db = FixedDelayBehaviour \/ db = RandomDelayBehaviour).
    { apply lookup_insert_Some in Hs as [[_ <-]|[_ Hs]]; [auto|].
      apply lookup_singleton_Some in Hs as [_ <-]. auto. }
    cbv zeta in H. rewrite (dynamic_control_technique db _ Hdb) in H.
    apply (f_equal (fun o => match o with Ok x => dict x | _ => ∅ end)) in H.
    symmetry. exact H.
Qed.

(** The factories look at the behaviour names and at nothing else.
    [acquisition_technique_factory] returns a technique exactly for the
    dictionaries that name the optical toolkit, the fixed-drive vector and
    the execute or the monitor intervention, [control_technique_factory]
    exactly for those that name the fixed or the random delay; the
    technique holds the dictionary it was given and an empty output. *)
Theorem factories_accept_the_named_behaviours :
  forall items,
    ((exists obj, acquisition_technique_factory (PDict items) = Ok obj)
     <-> (items !! TOOLKIT_BEHAVIOUR_KEY = Some (PStr "optical")
          /\ items !! VECTOR_BEHAVIOUR_KEY = Some (PStr "fixed-drive")
          /\ (items !! INTERVENTION_BEHAVIOUR_KEY = Some (PStr "execute")
              \/ items !! INTERVENTION_BEHAVIOUR_KEY = Some (PStr "monitor"))))
    /\ ((exists obj, control_technique_factory (PDict items) = Ok obj)
        <-> (items !! DELAY_BEHAVIOUR_KEY = Some (PStr "fixed")
             \/ items !! DELAY_BEHAVIOUR_KEY = Some (PStr "random")))
    /\ forall obj,
         acquisition_technique_factory (PDict items) = Ok obj
         \/ control_technique_factory (PDict items) = Ok obj ->
         dict obj = <["output" := PDict ∅]> (<["parameters" := PDict items]> ∅).
Proof.
  intros items. split; [apply acquisition_factory_accepts|].
  split; [apply control_factory_accepts|].
  intros obj. apply factory_instance.
Qed.

(** *** Reading and writing the attributes of a technique *)

(** Assigning to an attribute declared with [Slot(name)] stores the value
    in the output dictionary under [name], where the analysts find it, and
    nowhere else; reading the attribute gives the value back; the
    parameters, the other entries of the output and the other attributes are
    as they were. *)
Theorem slot_assignment_round_trip :
  forall (obj : instance) attr owner name value output,
    type_lookup (klass obj) attr = Some (owner, SlotDescriptor name) ->
    dict obj !! "output" = Some (PDict output) ->
    exists obj',
      setattr attr value obj = (Ok tt, obj')
      /\ getattr attr obj' = (Ok value, obj')
      /\ klass obj' = klass obj
      /\ dict obj' = <["output" := PDict (<[name := value]> output)]> (dict obj)
      /\ forall attr' owner' name',
           type_lookup (klass obj) attr' = Some (owner', SlotDescriptor name') ->
           name' <> name ->
           fst (getattr attr' obj') = fst (getattr attr' obj).
Proof.
  intros obj attr owner name value output Hslot Hout.
  unfold setattr. rewrite Hslot. unfold Slot_set. rewrite Hout.
  eexists. split; [reflexivity|].
  unfold getattr. cbn [klass dict]. rewrite Hslot.
  unfold Slot_get. cbn [dict]. rewrite !lookup_insert_eq.
  cbn [getitem]. rewrite lookup_insert_eq.
  split; [done|]. split; [done|]. split; [done|].
  intros attr' owner' name' Hslot' Hne. rewrite Hslot', Hout.
  cbn [getitem fst]. by rewrite lookup_insert_ne.
Qed.

Lemma slot_assignment_round_trip_witness :
  exists obj',
    setattr "image_final" (PStr "/tmp/tmpB.memory") example_technique
    = (Ok tt, obj')
    /\ getattr "image_final" obj' = (Ok (PStr "/tmp/tmpB.memory"), obj')
    /\ dict obj' !! "output"
       = Some (PDict {[ "memory.final" := PStr "/tmp/tmpB.memory" ]}).
Proof.
  destruct (slot_assignment_round_trip example_technique "image_final"
              (body_of AcquisitionTechnique) "memory.final"
              (PStr "/tmp/tmpB.memory") ∅)
    as (obj' & Hset & Hget & _ & Hdict & _); [vm_refl|vm_refl|].
  exists obj'. split; [exact Hset|]. split; [exact Hget|].
  rewrite Hdict. by rewrite lookup_insert_eq.
Defined.

(** A technique fresh from a factory has no slot assigned and no parameter
    checked: reading an attribute declared with [Parameter(name)] gives what
    the dictionary holds under [name] and raises [KeyError] when it holds
    nothing, and reading any attribute declared with [Slot(...)] raises
    [KeyError]. *)
Theorem fresh_technique_attributes :
  forall items obj attr owner,
    acquisition_technique_factory (PDict items) = Ok obj
    \/ control_technique_factory (PDict items) = Ok obj ->
    (forall name,
       type_lookup (klass obj) attr = Some (owner, ParameterDescriptor name) ->
       getattr attr obj
       = (match items !! name with
          | Some v => Ok v
          | None => Raise KeyError
          end, obj))
    /\ (forall name,
          type_lookup (klass obj) attr = Some (owner, SlotDescriptor name) ->
          getattr attr obj = (Raise KeyError, obj)).
Proof.
  intros items obj attr owner Hobj.
  apply factory_instance in Hobj.
  split; intros name Hattr; unfold getattr; rewrite Hattr.
  - unfold Parameter_get. rewrite Hobj.
    rewrite lookup_insert_ne by done. rewrite lookup_insert_eq.
    cbn [getitem]. by destruct (items !! name).
  - unfold Slot_get. rewrite Hobj. rewrite lookup_insert_eq.
    cbn [getitem]. by rewrite lookup_empty.
Qed.

Lemma fresh_technique_attributes_witness :
  getattr "domain_name" example_technique = (Raise KeyError, example_technique)
  /\ getattr "domain_host" example_technique
     = (Ok (PStr "qemu:///system"), example_technique)
  /\ getattr "image_final" example_technique
     = (Raise KeyError, example_technique).
Proof.
  assert (Hobj : acquisition_technique_factory
                   (PDict (list_to_map
                      [("technique.behaviour.toolkit", PStr "optical");
                       ("technique.behaviour.vector", PStr "fixed-drive");
                       ("technique.behaviour.intervention", PStr "execute");
                       ("technique.domain.host", PStr "qemu:///system");
                       ("technique.vector.tag", PStr "VECTOR")]))
                 = Ok example_technique) by vm_refl.
  split; [|split].
  - etrans;
      [apply (proj1 (fresh_technique_attributes _ example_technique
                       "domain_name" (body_of AcquisitionTechnique)
                       (or_introl Hobj)) "technique.domain.name"); vm_refl
      |vm_refl].
  - etrans;
      [apply (proj1 (fresh_technique_attributes _ example_technique
                       "domain_host" (body_of AcquisitionTechnique)
                       (or_introl Hobj)) "technique.domain.host"); vm_refl
      |vm_refl].
  - apply (proj2 (fresh_technique_attributes _ example_technique
                    "image_final" (body_of AcquisitionTechnique)
                    (or_introl Hobj)) "memory.final"); vm_refl.
Defined.

End CompositionFacts.

Module LifecycleFacts.
Import Interface Technique TechniqueFacts Lifecycle.

(** *** What the steps of a technique do *)

Lemma getitem_returns v k : getitem v k <> NoReturn.
Proof.
  destruct v as [| | | | | |items]; cbn [getitem]; try done.
  by destruct (items !! k).
Qed.

Lemma getattr_returns attr obj : fst (getattr attr obj) <> NoReturn.
Proof.
  unfold getattr.
  destruct (type_lookup _ attr) as [[? [?|?|?]]|];
    unfold Parameter_get, Slot_get.
  - by destruct (dict obj !! attr).
  - destruct (dict obj !! "parameters"); [apply getitem_returns|done].
  - destruct (dict obj !! "output"); [apply getitem_returns|done].
  - by destruct (dict obj !! attr).
Qed.

Lemma adds_get P attr : adds P (get attr).
Proof.
  intros st. exists []. unfold get. cbn [fst snd].
  repeat split; try done. apply getattr_returns.
Qed.

Lemma adds_perform (P : op -> Prop) p o : P o -> adds P (perform p o).
Proof.
  intros Ho st. exists [o]. unfold perform.
  destruct (refuses p _ o); cbn [fst snd ops self];
    repeat split; try done; by apply Forall_cons.
Qed.

Lemma adds_bind {A B} P (c : M state A) (k : A -> M state B) :
  adds P c -> (forall a, adds P (k a)) -> adds P (bind c k).
Proof.
  intros Hc Hk st. unfold bind.
  destruct (Hc st) as (new1 & Hl1 & Hp1 & Hnr1 & Hs1).
  destruct (c st) as [[a|e|] st1]; cbn [fst snd] in *; try done.
  - destruct (Hk a st1) as (new2 & Hl2 & Hp2 & Hnr2 & Hs2).
    exists (new2 ++ new1). rewrite Hl2, Hl1, app_assoc, Hs2, Hs1.
    repeat split; try done. by apply Forall_app.
  - by exists new1.
Qed.

Lemma adds_idle (P : op -> Prop) p : P Idle -> adds P (idle p).
Proof.
  intros HP st. unfold idle.
  destruct (type_lookup _ "idle") as [[? [[]|?|?]]|];
    try (by exists []).
  by apply adds_perform.
Qed.

(** *** Closing the domain *)

(** [ControlTechnique.sample] destroys the domain whenever it got one.
    Either reading the host or the name raised and nothing was done; or
    opening the domain raised, and that is what [sample] raises; or the
    domain was opened, and then [domain.close()] is the last thing [sample]
    did, once, with no other domain opened in between, whatever reverting,
    resuming, idling, suspending or saving did. *)
Theorem control_sample_closes_the_domain :
  forall p st o st',
    control_sample p st = (o, st') ->
    (exists e,
       o = Raise e /\ ops st' = ops st
       /\ (fst (getattr "domain_host" (self st)) = Raise e
           \/ fst (getattr "domain_name" (self st)) = Raise e))
    \/ (exists address name,
          fst (getattr "domain_host" (self st)) = Ok address
          /\ fst (getattr "domain_name" (self st)) = Ok name
          /\ ((exists e,
                 refuses p (length (ops st)) (Open address name) = Some e
                 /\ o = Raise e
                 /\ ops st' = Open address name :: ops st)
              \/ (exists mid,
                    refuses p (length (ops st)) (Open address name) = None
                    /\ ops st' = Close :: mid ++ Open address name :: ops st
                    /\ Forall (fun x => is_close x = false
                                        /\ is_open x = false) mid))).
Proof.
  intros p st o st'. unfold control_sample.
  unfold bind at 1, get at 1.
  pose proof (getattr_returns "domain_host" (self st)) as Hhost.
  destruct (fst (getattr "domain_host" (self st))) as [address|e|];
    [|intros [= <- <-]; left; exists e; auto|done].
  unfold bind at 1, get at 1.
  pose proof (getattr_returns "domain_name" (self st)) as Hname.
  destruct (fst (getattr "domain_name" (self st))) as [name|e|];
    [|intros [= <- <-]; left; exists e; auto|done].
  intros Hrun. right. exists address, name.
  split; [reflexivity|]. split; [reflexivity|].
  revert Hrun. unfold bind at 1, perform at 1.
  destruct (refuses p (length (ops st)) (Open address name)) as [e|].
  { intros [= <- <-]. left. exists e. auto. }
  set (st1 := {| self := self st; files := effect _ _; ops := _ |}).
  intros Hrun. right.
  revert Hrun. unfold try_finally.
  match goal with |- context [bind ?c ?k st1] =>
    assert (Hbody : adds (fun x => is_close x = false /\ is_open x = false)
                      (bind c k));
      [|destruct (Hbody st1) as (mid & Hops & Hmid & Hnr & _);
        destruct (bind c k st1) as [ob st2]]
  end.
  { apply adds_bind; [apply adds_get|]. intros snapshot.
    apply adds_bind; [by apply adds_perform|]. intros _.
    apply adds_bind; [by apply adds_perform|]. intros _.
    apply adds_bind; [by apply adds_idle|]. intros _.
    apply adds_bind; [by apply adds_perform|]. intros _.
    apply adds_bind; [apply adds_get|]. intros image.
    by apply adds_perform. }
  cbn [fst snd] in *. unfold perform.
  destruct ob as [[]|e|]; [| |done];
    destruct (refuses p (length (ops st2)) Close);
    intros [= <- <-]; exists mid; cbn [ops]; by rewrite Hops.
Qed.

(** The domain opens, the snapshot to revert to does not exist: [sample]
    raises what reverting raised, and the domain is closed. *)
Lemma control_sample_closes_the_domain_witness :
  fst (control_sample platform_without_snapshot (start control_technique ∅))
  = Raise (OtherError "libvirtError")
  /\ ops (snd (control_sample platform_without_snapshot
                 (start control_technique ∅)))
     = [Close; Revert (PStr "clean");
        Open (PStr "qemu:///system") (PStr "guest")]
  /\ exists address name mid,
       refuses platform_without_snapshot 0 (Open address name) = None
       /\ ops (snd (control_sample platform_without_snapshot
                      (start control_technique ∅)))
          = Close :: mid ++ [Open address name]
       /\ Forall (fun x => is_close x = false /\ is_open x = false) mid.
Proof.
  assert (Hrun : control_sample platform_without_snapshot
                   (start control_technique ∅)
                 = (Raise (OtherError "libvirtError"),
                    snd (control_sample platform_without_snapshot
                           (start control_technique ∅)))).
  { rewrite (surjective_pairing (control_sample _ _)) at 1.
    f_equal; vm_refl. }
  split; [by rewrite Hrun|]. split; [vm_refl|].
  destruct (control_sample_closes_the_domain platform_without_snapshot
              (start control_technique ∅) _ _ Hrun)
    as [(e & _ & Hops & _)
       |(address & name & _ & _ & [(e & Hno & _)|(mid & Hopen & Hops & Hmid)])].
  - exfalso. revert Hops. vm_compute. discriminate.
  - discriminate Hno.
  - exists address, name, mid. auto.
Defined.


Ltac run_steps :=
  repeat match goal with
  | |- context [match fst (getattr ?a ?s) with _ => _ end] =>
      destruct (fst (getattr a s)); cbn [fst snd self files ops effect]
  | |- context [match refuses ?p ?n ?x with _ => _ end] =>
      destruct (refuses p n x); cbn [fst snd self files ops effect]
  | |- context [match type_lookup ?k ?a with _ => _ end] =>
      destruct (type_lookup k a) as [[? [[]| |]]|];
      cbn [fst snd self files ops effect]
  end.

(** [sample] leaves the technique object as it is, and the files too but
    for the image it may have saved. *)
Lemma control_sample_files p st path :
  fst (getattr "image" (self st)) = Ok (PStr path) ->
  self (snd (control_sample p st)) = self st
  /\ (files (snd (control_sample p st)) = files st
      \/ files (snd (control_sample p st)) = files st ∪ {[ path ]}).
Proof.
  intros Himage.
  unfold control_sample, idle, bind, get, perform, try_finally.
  cbn [fst snd self files ops effect]. rewrite ?Himage.
  run_steps; rewrite ?Himage; cbn [fst snd self files ops effect];
    run_steps; try discriminate; try (injection Himage as ->); auto.
Qed.


(** *** The memory image *)

(** [allocate] names the image and touches nothing. *)
Lemma allocate_image p obj fs owner output :
  type_lookup (klass obj) "image" = Some (owner, SlotDescriptor "memory.image") ->
  dict obj !! "output" = Some (PDict output) ->
  exists obj',
    allocate p (start obj fs)
    = (Ok tt, {| self := obj'; files := fs; ops := [Mktemp (mktemp p 0)] |})
    /\ fst (getattr "image" obj') = Ok (PStr (mktemp p 0)).
Proof.
  intros Hslot Hout.
  unfold allocate, bind, fresh_name, set, start, setattr.
  cbn [self files ops length]. rewrite Hslot. unfold Slot_set. rewrite Hout.
  eexists. split; [reflexivity|].
  unfold getattr. cbn [klass]. rewrite Hslot. unfold Slot_get.
  cbn [dict fst]. rewrite lookup_insert_eq. cbn [getitem].
  by rewrite lookup_insert_eq.
Qed.

(** The object [control_technique_factory] returns. *)
Lemma control_object parameters obj :
  control_technique_factory parameters = Ok obj ->
  type_lookup (klass obj) "image"
  = Some (body_of ControlTechnique, SlotDescriptor "memory.image")
  /\ dict obj !! "output" = Some (PDict ∅).
Proof.
  intros H. unfold control_technique_factory in H.
  destruct (behaviour DELAY_BEHAVIOURS parameters DELAY_BEHAVIOUR_KEY)
    as [db|e|] eqn:Hb; [|by destruct e|done].
  apply behaviour_Ok in Hb as (? & s & _ & _ & Hs).
  unfold DELAY_BEHAVIOURS in Hs.
  assert (Hdb : db = FixedDelayBehaviour \/ db = RandomDelayBehaviour).
  { apply lookup_insert_Some in Hs as [[_ <-]|[_ Hs]]; [auto|].
    apply lookup_singleton_Some in Hs as [_ <-]. auto. }
  cbv zeta in H. rewrite (dynamic_control_technique db _ Hdb) in H.
  pose proof (f_equal (fun o => match o with
                                | Ok x => klass x
                                | _ => object_
                                end) H) as Hk.
  pose proof (f_equal (fun o => match o with
                                | Ok x => dict x
                                | _ => ∅
                                end) H) as Hd.
  cbv beta iota in Hk, Hd. cbn [klass dict] in Hk, Hd.
  rewrite <- Hk, <- Hd. split; [|by rewrite lookup_insert_eq].
  destruct Hdb as [-> | ->]; vm_refl.
Qed.

(** [ControlTechnique.release] never fails for want of the image, and
    leaves no image behind: after [allocate], and after [sample] whatever it
    did, [release] returns, the image file is not there, and no other file
    was touched. *)
Theorem control_release_removes_the_image :
  forall p parameters obj fs o st2,
    control_technique_factory parameters = Ok obj ->
    (forall n path, refuses p n (Unlink path) = None) ->
    control_sample p (snd (allocate p (start obj fs))) = (o, st2) ->
    fst (allocate p (start obj fs)) = Ok tt
    /\ exists st3,
         control_release p st2 = (Ok tt, st3)
         /\ files st3 = fs ∖ {[ mktemp p 0 ]}.
Proof.
  intros p parameters obj fs o st2 Hobj Hunlink.
  destruct (control_object parameters obj Hobj) as [Hslot Hout].
  destruct (allocate_image p obj fs _ _ Hslot Hout) as (obj1 & -> & Himage).
  cbn [fst snd]. intros Hrun. split; [done|].
  set (st1 := {| self := obj1; files := fs; ops := [Mktemp (mktemp p 0)] |})
    in *.
  destruct (control_sample_files p st1 (mktemp p 0) Himage) as [Hself Hfiles].
  rewrite Hrun in Hself, Hfiles. cbn [snd self files st1] in Hself, Hfiles.
  unfold control_release, bind, get, lift, exists_, unlink, perform, ret.
  rewrite Hself, Himage. cbn [as_text fst snd files].
  destruct (bool_decide (mktemp p 0 ∈ files st2)) eqn:Hin.
  - rewrite Hin, Hunlink. eexists. split; [reflexivity|].
    cbn [files effect]. destruct Hfiles as [-> | ->]; set_solver.
  - eexists. split; [reflexivity|].
    apply bool_decide_eq_false in Hin.
    destruct Hfiles as [Hf | Hf]; rewrite Hf in *; set_solver.
Qed.

Lemma control_release_removes_the_image_witness :
  fst (allocate platform_without_snapshot (start control_technique ∅)) = Ok tt
  /\ exists st3,
       control_release platform_without_snapshot
         (snd (control_sample platform_without_snapshot
                 (snd (allocate platform_without_snapshot
                         (start control_technique ∅)))))
       = (Ok tt, st3)
       /\ files st3 = ∅ ∖ {[ mktemp platform_without_snapshot 0 ]}.
Proof.
  apply (control_release_removes_the_image platform_without_snapshot
           domain_parameters control_technique ∅
           (fst (control_sample platform_without_snapshot
                   (snd (allocate platform_without_snapshot
                           (start control_technique ∅)))))).
  - vm_refl.
  - intros n path. reflexivity.
  - apply surjective_pairing.
Defined.


(** [InitialStateTechnique.sample] when it raises before it gets to save
    the memory: no file was made and the domain was not closed. *)
Lemma initial_sample_failed p st e st2 :
  initial_sample p st = (Raise e, st2) ->
  (forall v, SaveMemory v ∉ ops st2) ->
  self st2 = self st /\ files st2 = files st
  /\ exists new, ops st2 = new ++ ops st
                 /\ Forall (fun x => is_close x = false) new.
Proof.
  unfold initial_sample, bind, get, perform.
  cbn [fst snd self files ops effect].
  run_steps; intros Heq Hno; try discriminate;
    injection Heq as <- <-; cbn [self files ops] in *;
    try (exfalso; eapply Hno;
         first [ apply list_elem_of_here
               | apply list_elem_of_further, list_elem_of_here ]);
    (split; [reflexivity|]; split; [reflexivity|]);
    first [ by exists []
          | eexists [_]; split; [reflexivity|]; by repeat constructor
          | eexists [_; _]; split; [reflexivity|]; by repeat constructor ].
Qed.

(** The object [InitialStateTechnique(parameters)] is. *)
Lemma initial_object parameters obj :
  new InitialStateTechnique parameters = Ok obj ->
  type_lookup (klass obj) "image"
  = Some (body_of InitialStateTechnique, SlotDescriptor "memory.image")
  /\ dict obj !! "output" = Some (PDict ∅).
Proof.
  rewrite (new_technique InitialStateTechnique parameters) by vm_refl.
  intros H.
  pose proof (f_equal (fun o => match o with
                                | Ok x => klass x
                                | _ => object_
                                end) H) as Hk.
  pose proof (f_equal (fun o => match o with
                                | Ok x => dict x
                                | _ => ∅
                                end) H) as Hd.
  cbv beta iota in Hk, Hd. cbn [klass dict] in Hk, Hd.
  rewrite <- Hk, <- Hd. split; [vm_refl|by rewrite lookup_insert_eq].
Qed.

(** [InitialStateTechnique.release] unlinks the image without looking
    whether it is there.  When [sample] raised before it got to save the
    memory, reading a parameter, opening the domain or reverting it, there
    is no image: [release] raises [OSError]; and the domain, if it was
    opened, was not closed. *)
Theorem initial_release_raises_after_failed_sample :
  forall p parameters obj fs e st2,
    new InitialStateTechnique parameters = Ok obj ->
    mktemp p 0 ∉ fs ->
    initial_sample p (snd (allocate p (start obj fs))) = (Raise e, st2) ->
    (forall v, SaveMemory v ∉ ops st2) ->
    fst (allocate p (start obj fs)) = Ok tt
    /\ fst (initial_release p st2) = Raise OSError
    /\ files st2 = fs
    /\ Forall (fun x => is_close x = false) (ops st2).
Proof.
  intros p parameters obj fs e st2 Hobj Hfresh.
  destruct (initial_object parameters obj Hobj) as [Hslot Hout].
  destruct (allocate_image p obj fs _ _ Hslot Hout) as (obj1 & -> & Himage).
  cbn [fst snd]. intros Hrun Hno. split; [done|].
  destruct (initial_sample_failed p _ e st2 Hrun Hno)
    as (Hself & Hfiles & new & Hops & Hnew).
  cbn [self files ops] in Hself, Hfiles, Hops.
  split; [|split; [done|]].
  - unfold initial_release, bind, get, lift, unlink.
    rewrite Hself, Himage. cbn [as_text fst snd].
    rewrite Hfiles. by rewrite bool_decide_eq_false_2.
  - rewrite Hops. apply Forall_app. split; [done|]. by repeat constructor.
Qed.

(** The snapshot to revert to does not exist. *)
Lemma initial_release_raises_after_failed_sample_witness :
  fst (allocate platform_without_snapshot (start initial_technique ∅)) = Ok tt
  /\ fst (initial_release platform_without_snapshot
            (snd (initial_sample platform_without_snapshot
                    (snd (allocate platform_without_snapshot
                            (start initial_technique ∅))))))
     = Raise OSError
  /\ files (snd (initial_sample platform_without_snapshot
                   (snd (allocate platform_without_snapshot
                           (start initial_technique ∅))))) = ∅
  /\ Forall (fun x => is_close x = false)
       (ops (snd (initial_sample platform_without_snapshot
                    (snd (allocate platform_without_snapshot
                            (start initial_technique ∅)))))).
Proof.
  apply (initial_release_raises_after_failed_sample platform_without_snapshot
           domain_parameters initial_technique ∅ (OtherError "libvirtError")).
  - vm_refl.
  - apply not_elem_of_empty.
  - vm_refl.
  - intros v Hin.
    assert (Hops : ops (snd (initial_sample platform_without_snapshot
                               (snd (allocate platform_without_snapshot
                                       (start initial_technique ∅)))))
                   = [Revert (PStr "clean");
                      Open (PStr "qemu:///system") (PStr "guest");
                      Mktemp "/tmp/tmp0.memory"]) by vm_refl.
    rewrite Hops in Hin. apply list_elem_of_In in Hin.
    destruct Hin as [H|[H|[H|[]]]]; discriminate H.
Defined.

End LifecycleFacts.

Module MetadataFacts.
Import Experiment ExperimentFacts Conductor ConductorFacts Metadata.

(** *** Replaying a trace *)






(** *** The records *)

Section Records.

Variable w : world.
Variable l : list nat.
Variable sample : nat -> pyvalue.
Hypothesis uuid4_inj : forall i j, uuid4 w i = uuid4 w j -> i = j.





End Records.


(** *** The table through the loop of [conduct] *)





End MetadataFacts.

Module StorageFacts.
Import Storage.

(** A read the interpreter can serve. *)
Lemma read_served py size rest :
  (- maxint py - 1 <= size <= maxint py)%Z ->
  allocates py (buffer_size size rest) = true ->
  read py size rest
  = Ok (if (size <? 0)%Z then (rest, [])
        else (take (Z.to_nat size) rest, drop (Z.to_nat size) rest)).
Proof.
  intros Hrange Hmem. unfold read. rewrite Hmem.
  destruct (Z.ltb_spec size (- maxint py - 1)); [lia|].
  destruct (Z.ltb_spec (maxint py) size); [lia|].
  cbn [orb]. by destruct (size <? 0)%Z.
Qed.

(** The loop with a positive block size, started as [blocks] starts it. *)
Lemma blocks_loop_chunks py n :
  0 < n -> (Z.of_nat n <= maxint py)%Z -> (0 <= maxint py)%Z ->
  allocates py (Z.of_nat n) = true ->
  forall fuel content,
    length content < fuel ->
    exists bs,
      blocks_loop fuel py (Z.of_nat n) (take n content) (drop n content)
      = (bs, Ok tt)
      /\ concat bs = content
      /\ Forall (fun b => b <> []) bs
      /\ length bs = (length content + n - 1) / n
      /\ forall i, i < length bs ->
           bs !! i = Some (take n (drop (i * n) content)).
Proof.
  intros Hn Hmax Hmax0 Hmem.
  assert (Hread : forall rest,
            read py (Z.of_nat n) rest = Ok (take n rest, drop n rest)).
  { intros rest. rewrite read_served.
    - destruct (Z.ltb_spec (Z.of_nat n) 0); [lia|]. by rewrite Nat2Z.id.
    - lia.
    - unfold buffer_size. by destruct (Z.ltb_spec (Z.of_nat n) 0); [lia|]. }
  induction fuel as [|fuel IH]; intros content Hfuel; [lia|].
  cbn [blocks_loop].
  destruct (take n content) as [|b block] eqn:Htake.
  - assert (content = []) as ->.
    { destruct content; [done|]. destruct n; [lia|done]. }
    exists []. repeat split; try done.
    + simpl. symmetry. apply Nat.div_small. lia.
    + simpl. lia.
  - assert (Hlen : 0 < length content).
    { destruct content; [by rewrite take_nil in Htake|simpl; lia]. }
    rewrite Hread.
    destruct (IH (drop n content)) as (bs & -> & Hcat & Hne & Hcount & Hidx).
    { rewrite length_drop. lia. }
    eexists. split; [reflexivity|].
    rewrite <- Htake. split; [|split; [|split]].
    + cbn [concat]. rewrite Hcat. apply take_drop.
    + constructor; [by rewrite Htake|done].
    + cbn [length]. rewrite Hcount, length_drop.
      destruct (Nat.le_gt_cases n (length content)) as [Hle|Hgt].
      * replace (length content + n - 1)
          with (length content - n + n - 1 + 1 * n) by lia.
        rewrite Nat.div_add by lia. lia.
      * replace (length content - n + n - 1) with (n - 1) by lia.
        rewrite (Nat.div_small (n - 1)) by lia.
        rewrite <- (Nat.div_unique (length content + n - 1) n 1
                      (length content - 1)); lia.
    + intros [|i] Hi; [done|]. cbn [length] in Hi.
      cbn [lookup list_lookup]. rewrite Hidx by lia.
      rewrite drop_drop. reflexivity.
Qed.

(** With a negative block size the first [read] takes the whole file. *)
Lemma blocks_loop_whole py n fuel content :
  (- maxint py - 1 <= n < 0)%Z -> allocates py 0 = true -> 2 <= fuel ->
  blocks_loop fuel py n content []
  = (match content with [] => [] | _ => [content] end, Ok tt).
Proof.
  intros Hn Hmem Hfuel. destruct fuel as [|[|fuel]]; [lia|lia|].
  cbn [blocks_loop]. destruct content; [done|].
  rewrite read_served.
  - by destruct (Z.ltb_spec n 0); [|lia].
  - lia.
  - unfold buffer_size. by destruct (Z.ltb_spec n 0); [|lia].
Qed.

(** The blocks are the file, cut in order.  When the block size fits a C
    long and the interpreter can allocate the buffer of every read,
    [blocks] ends normally and yields blocks of at least one byte each;
    whenever the block size is not zero these, put end to end, are the
    content of the file, the whole file in one block when the size is
    negative; with a block size of zero it yields nothing, whatever the
    file holds. *)
Theorem blocks_concatenate_to_the_file :
  forall py files fuel filename block_size content,
    files !! filename = Some content ->
    (- maxint py - 1 <= block_size <= maxint py)%Z ->
    (forall rest, length rest <= length content ->
                  allocates py (buffer_size block_size rest) = true) ->
    length content < fuel ->
    exists bs,
      blocks py files fuel filename block_size = (bs, Ok tt)
      /\ Forall (fun b => b <> []) bs
      /\ (block_size <> 0%Z -> concat bs = content)
      /\ ((block_size < 0)%Z -> content <> [] -> bs = [content])
      /\ (block_size = 0%Z -> bs = []).
Proof.
  intros py files fuel filename block_size content Hfile Hrange Hmem Hfuel.
  unfold blocks. rewrite Hfile.
  rewrite read_served by (try done; by apply Hmem).
  destruct (Z.lt_trichotomy block_size 0) as [Hneg|[->|Hpos]].
  - destruct (Z.ltb_spec block_size 0); [|lia].
    assert (Hzero : allocates py 0 = true).
    { specialize (Hmem [] ltac:(simpl; lia)). unfold buffer_size in Hmem.
      by destruct (Z.ltb_spec block_size 0); [|lia]. }
    destruct content as [|b content].
    + exists []. destruct fuel; [simpl in Hfuel; lia|].
      repeat split; try done; lia.
    + rewrite blocks_loop_whole; [|lia|done|simpl in Hfuel; lia].
      eexists. split; [reflexivity|]. split; [by repeat constructor|].
      split; [|split; [done|lia]]. intros _. simpl. by rewrite app_nil_r.
  - exists []. simpl. rewrite take_0.
    destruct fuel; [lia|]. repeat split; try done; lia.
  - destruct (Z.ltb_spec block_size 0); [lia|].
    assert (Hbuf : allocates py (Z.of_nat (Z.to_nat block_size)) = true).
    { specialize (Hmem [] ltac:(simpl; lia)). unfold buffer_size in Hmem.
      destruct (Z.ltb_spec block_size 0); [lia|]. by rewrite Z2Nat.id by lia. }
    destruct (blocks_loop_chunks py (Z.to_nat block_size) ltac:(lia)
                ltac:(lia) ltac:(lia) Hbuf fuel content Hfuel)
      as (bs & Hrun & Hcat & Hne & _).
    rewrite Z2Nat.id in Hrun by lia.
    exists bs. repeat split; try done; lia.
Qed.

Lemma blocks_concatenate_to_the_file_witness :
  exists bs,
    blocks cpython64 host_files 6 "/tmp/image" 2 = (bs, Ok tt)
    /\ Forall (fun b => b <> []) bs
    /\ (2%Z <> 0%Z -> concat bs = five_bytes)
    /\ ((2 < 0)%Z -> five_bytes <> [] -> bs = [five_bytes])
    /\ (2%Z = 0%Z -> bs = []).
Proof.
  apply (blocks_concatenate_to_the_file cpython64 host_files 6 "/tmp/image" 2
           five_bytes); [reflexivity|vm_compute; split; discriminate| |simpl; lia].
  intros rest _. reflexivity.
Defined.

(** With a positive block size [n] that fits a C long and a buffer of [n]
    bytes that can be allocated, a file of [len] bytes gives
    [ceil(len / n)] blocks, and block [i] holds the [n] bytes from offset
    [i * n], or what is left of the file there: every block but the last
    has [n] bytes, and a file that is not a multiple of [n] ends in a
    shorter block. *)
Theorem blocks_have_the_block_size :
  forall py files fuel filename n content,
    files !! filename = Some content ->
    0 < n -> (Z.of_nat n <= maxint py)%Z ->
    allocates py (Z.of_nat n) = true ->
    length content < fuel ->
    exists bs,
      blocks py files fuel filename (Z.of_nat n) = (bs, Ok tt)
      /\ length bs = (length content + n - 1) / n
      /\ forall i, i < length bs ->
           bs !! i = Some (take n (drop (i * n) content))
           /\ length (take n (drop (i * n) content))
              = if bool_decide (S i < length bs) then n
                else length content - i * n.
Proof.
  intros py files fuel filename n content Hfile Hn Hmax Hmem Hfuel.
  unfold blocks. rewrite Hfile.
  rewrite read_served; [|lia|].
  2: { unfold buffer_size. by destruct (Z.ltb_spec (Z.of_nat n) 0); [lia|]. }
  destruct (Z.ltb_spec (Z.of_nat n) 0); [lia|]. rewrite Nat2Z.id.
  destruct (blocks_loop_chunks py n Hn Hmax ltac:(lia) Hmem fuel content Hfuel)
    as (bs & Hrun & _ & _ & Hcount & Hidx).
  exists bs. split; [done|]. split; [done|].
  intros i Hi. split; [by apply Hidx|].
  rewrite length_take, length_drop.
  assert (Hdiv : length bs * n < length content + n
                 /\ length content <= length bs * n).
  { rewrite Hcount.
    pose proof (Nat.div_mod_eq (length content + n - 1) n) as Hdm.
    pose proof (Nat.mod_upper_bound (length content + n - 1) n ltac:(lia)).
    nia. }
  case_bool_decide; nia.
Qed.

Lemma blocks_have_the_block_size_witness :
  exists bs,
    blocks cpython64 host_files 6 "/tmp/image" (Z.of_nat 2) = (bs, Ok tt)
    /\ length bs = (length five_bytes + 2 - 1) / 2
    /\ forall i, i < length bs ->
         bs !! i = Some (take 2 (drop (i * 2) five_bytes))
         /\ length (take 2 (drop (i * 2) five_bytes))
            = if bool_decide (S i < length bs) then 2
              else length five_bytes - i * 2.
Proof.
  apply (blocks_have_the_block_size cpython64 host_files 6 "/tmp/image" 2
           five_bytes); [reflexivity|lia|vm_compute; discriminate|reflexivity
                        |simpl; lia].
Defined.

End StorageFacts.
